(** * libdebug: the native ptrace tracer core (libdebug/cffi/ptrace_cffi_source.c)

    A shallow embedding of the tracer core as the preprocessor leaves it
    with ARCH_AMD64 defined: where the C file has an [#ifdef ARCH_AMD64] and
    an [#ifdef ARCH_AARCH64] variant, the first is the one embedded, and the
    AArch64-only pass of [prepare_for_run] over the hardware breakpoints is
    not part of it.

    The C functions talk to the kernel through ptrace(2), waitpid(2),
    tgkill(2) and getpgid(2); here every such call is a [request] answered
    by an abstract [Kernel], and a C function becomes a computation in the
    monad [M] that threads the kernel and records the requests it issued, in
    order.  The [struct global_state] the C functions receive by pointer is
    passed and returned explicitly; its four linked lists are Rocq lists,
    head first.  Values of type [uint64_t], [int] and [char] are integers of
    [Z] within the range of the type; conversions that can leave the range
    are written out ([to_uint64], [to_int]). *)

From Stdlib Require Import ZArith List Lia Bool String Sorted.
Import ListNotations.
Local Open Scope Z_scope.

(** ** Machine integers *)

(** Conversion to [uint64_t] / [unsigned long]. *)
Definition to_uint64 (x : Z) : Z := x mod 2 ^ 64.

(** Conversion to [int], as gcc and clang do it (two's complement wrap). *)
Definition to_int (x : Z) : Z := (x + 2 ^ 31) mod 2 ^ 32 - 2 ^ 31.

(** C truth value of an integer. *)
Definition truthy (x : Z) : bool := negb (x =? 0).

(** ** What the build script supplies

    [struct ptrace_regs_struct], [struct fp_regs_struct], the macros on
    instructions and [FPREGS_AVX] are declared by the cffi build script, not
    by the C file: they are parameters of the embedding.  The three
    [indeterminate_*] fields stand for the contents of objects the C code
    leaves uninitialised ([malloc]ed blocks, locals without initialiser). *)
Class Target : Type := {
  ptrace_regs_struct : Type;
  fp_regs_struct : Type;
  INSTRUCTION_POINTER : ptrace_regs_struct -> Z;
  INSTALL_BREAKPOINT : Z -> Z;
  IS_SW_BREAKPOINT : Z -> bool;
  IS_CALL_INSTRUCTION : Z -> bool;
  IS_RET_INSTRUCTION : Z -> bool;
  FPREGS_AVX : Z;
  set_fpregs_type : fp_regs_struct -> Z -> fp_regs_struct;
  indeterminate_regs : ptrace_regs_struct;
  indeterminate_fpregs : fp_regs_struct;
  indeterminate_int : Z
}.

(** ** Data model *)

Record software_breakpoint : Type := {
  sw_addr : Z;
  sw_instruction : Z;
  sw_patched_instruction : Z;
  sw_enabled : Z
}.

Record hardware_breakpoint : Type := {
  hw_addr : Z;
  hw_tid : Z;
  hw_enabled : Z;
  hw_type : Z * Z;
  hw_len : Z
}.

Record thread_status : Type := {
  ts_tid : Z;
  ts_status : Z
}.

Section DataModel.
Context {T : Target}.

Record thread : Type := {
  t_tid : Z;
  t_regs : ptrace_regs_struct;
  t_fpregs : fp_regs_struct;
  t_signal_to_forward : Z
}.

Record global_state : Type := {
  t_HEAD : list thread;
  dead_t_HEAD : list thread;
  sw_b_HEAD : list software_breakpoint;
  hw_b_HEAD : list hardware_breakpoint;
  handle_syscall_enabled : bool
}.

Definition set_t_HEAD (state : global_state) (l : list thread) : global_state :=
  {| t_HEAD := l; dead_t_HEAD := dead_t_HEAD state; sw_b_HEAD := sw_b_HEAD state;
     hw_b_HEAD := hw_b_HEAD state;
     handle_syscall_enabled := handle_syscall_enabled state |}.

Definition set_sw_b_HEAD (state : global_state) (l : list software_breakpoint)
  : global_state :=
  {| t_HEAD := t_HEAD state; dead_t_HEAD := dead_t_HEAD state; sw_b_HEAD := l;
     hw_b_HEAD := hw_b_HEAD state;
     handle_syscall_enabled := handle_syscall_enabled state |}.

Definition set_hw_b_HEAD (state : global_state) (l : list hardware_breakpoint)
  : global_state :=
  {| t_HEAD := t_HEAD state; dead_t_HEAD := dead_t_HEAD state;
     sw_b_HEAD := sw_b_HEAD state; hw_b_HEAD := l;
     handle_syscall_enabled := handle_syscall_enabled state |}.

Definition set_regs (t : thread) (r : ptrace_regs_struct) : thread :=
  {| t_tid := t_tid t; t_regs := r; t_fpregs := t_fpregs t;
     t_signal_to_forward := t_signal_to_forward t |}.

Definition set_signal_to_forward (t : thread) (s : Z) : thread :=
  {| t_tid := t_tid t; t_regs := t_regs t; t_fpregs := t_fpregs t;
     t_signal_to_forward := s |}.

Definition set_sw_enabled (b : software_breakpoint) (e : Z) : software_breakpoint :=
  {| sw_addr := sw_addr b; sw_instruction := sw_instruction b;
     sw_patched_instruction := sw_patched_instruction b; sw_enabled := e |}.

(** ** Requests to the kernel

    One constructor per kind of call the C file makes.  [STDERR] is the
    write done by [perror] and [fprintf (stderr, ...)]; it carries the
    message (for [fprintf], the format string). *)
Inductive request : Type :=
| PTRACE_GETREGS (tid : Z)
| PTRACE_SETREGS (tid : Z) (r : ptrace_regs_struct)
| PTRACE_SINGLESTEP (tid sig : Z)
| PTRACE_CONT (tid sig : Z)
| PTRACE_SYSCALL (tid sig : Z)
| PTRACE_PEEKDATA (pid addr : Z)
| PTRACE_POKEDATA (pid addr data : Z)
| PTRACE_PEEKUSER (tid off : Z)
| PTRACE_POKEUSER (tid off data : Z)
| WAITPID (pid options : Z)
| GETPGID (pid : Z)
| TGKILL (tgid tid sig : Z)
| STDERR (msg : string).

(** The kernel's answer: the return value of the call, and what it stored
    through the pointer argument, if anything ([PTRACE_GETREGS] stores a
    register block, [waitpid] a status). *)
Record reply : Type := {
  r_ret : Z;
  r_regs : option ptrace_regs_struct;
  r_status : option Z
}.

End DataModel.

(** The kernel together with the tracee, as a transition system. *)
Class Kernel {T : Target} : Type := {
  kernel : Type;
  sys : request -> kernel -> reply * kernel
}.

(** ** The monad of kernel interaction *)

Section Monad.
Context {T : Target} {K : Kernel}.

Definition M (A : Type) : Type := kernel -> A * kernel * list request.

Definition ret {A : Type} (a : A) : M A := fun k => (a, k, []).

Definition bind {A B : Type} (m : M A) (f : A -> M B) : M B :=
  fun k =>
    let '(a, k1, t1) := m k in
    let '(b, k2, t2) := f a k1 in
    (b, k2, t1 ++ t2).

Definition call (q : request) : M reply :=
  fun k => let '(r, k') := sys q k in (r, k', [q]).

Definition result {A : Type} (x : A * kernel * list request) : A := fst (fst x).
Definition final {A : Type} (x : A * kernel * list request) : kernel := snd (fst x).
Definition trace {A : Type} (x : A * kernel * list request) : list request := snd x.

End Monad.

Declare Scope tracer_scope.
Delimit Scope tracer_scope with tracer.
Notation "x <- m ;; f" := (bind m (fun x => f))
  (at level 61, m at next level, right associativity) : tracer_scope.
Notation "' pat <- m ;; f" := (bind m (fun x => match x with pat => f end))
  (at level 61, pat pattern, m at next level, right associativity) : tracer_scope.
Notation "m ;; f" := (bind m (fun _ => f))
  (at level 61, right associativity) : tracer_scope.
Local Open Scope tracer_scope.

(** How a loop that contains a [return] ends. *)
Inductive flow (A : Type) : Type :=
| Return (r : Z)
| Fallthrough (a : A).
Arguments Return {A} r.
Arguments Fallthrough {A} a.

(** How the [do ... while] of [stepping_finish] was left. *)
Inductive loop_exit : Type :=
| Returned (r : Z)
| GotoCleanup
| CounterZero.

Section Tracer.
Context {T : Target} {K : Kernel}.

(** ** Thin wrappers *)

Definition perror (msg : string) : M unit :=
  call (STDERR msg) ;; ret tt.

(** [fprintf (stderr, fmt, ...)]: only the format string is recorded. *)
Definition fprintf_stderr (fmt : string) : M unit :=
  call (STDERR fmt) ;; ret tt.

(** [waitpid (pid, &status, options)]: the return value, and the new
    contents of [status] (unchanged when the kernel stored nothing). *)
Definition waitpid (pid status options : Z) : M (Z * Z) :=
  r <- call (WAITPID pid options) ;;
  ret (r_ret r, match r_status r with Some s => s | None => status end).

Definition getpgid (pid : Z) : M Z :=
  r <- call (GETPGID pid) ;; ret (r_ret r).

Definition tgkill (tgid tid sig : Z) : M Z :=
  r <- call (TGKILL tgid tid sig) ;; ret (r_ret r).

Definition SIGSTOP : Z := 19.
Definition WNOHANG : Z := 1.

(** [getregs (tid, &regs)] (ARCH_AMD64): the return value and the new
    contents of the block. *)
Definition getregs (tid : Z) (regs : ptrace_regs_struct)
  : M (Z * ptrace_regs_struct) :=
  r <- call (PTRACE_GETREGS tid) ;;
  ret (r_ret r, match r_regs r with Some v => v | None => regs end).

Definition setregs (tid : Z) (regs : ptrace_regs_struct) : M Z :=
  r <- call (PTRACE_SETREGS tid regs) ;; ret (r_ret r).

Definition ptrace_peekdata (pid addr : Z) : M Z :=
  r <- call (PTRACE_PEEKDATA pid addr) ;; ret (to_uint64 (r_ret r)).

Definition ptrace_pokedata (pid addr data : Z) : M Z :=
  r <- call (PTRACE_POKEDATA pid addr data) ;; ret (to_uint64 (r_ret r)).

(** ** Debug registers (ARCH_AMD64) *)

Definition DR_BASE : Z := 848.
Definition DR_SIZE : Z := 8.
Definition CTRL_LOCAL (x : Z) : Z := to_int (Z.shiftl 1 (2 * x)).
Definition CTRL_COND (x : Z) : Z := 16 + 4 * x.
Definition CTRL_COND_VAL (x : Z) : Z :=
  if x =? 120 then 0 else if x =? 119 then 1 else 3.
Definition CTRL_LEN (x : Z) : Z := 18 + 4 * x.
Definition CTRL_LEN_VAL (x : Z) : Z :=
  if x =? 1 then 0 else if x =? 2 then 1 else if x =? 8 then 2 else 3.

(** The loop [for (i = 0; i < 4; i++)] that looks for a debug register
    holding address 0; [n] counts the iterations left.  The value is [i]
    when the loop ends. *)
Fixpoint find_free_debug_register (tid : Z) (n : nat) (i : Z) : M Z :=
  match n with
  | O => ret i
  | S n' =>
      r <- call (PTRACE_PEEKUSER tid (DR_BASE + i * DR_SIZE)) ;;
      let address := to_uint64 (r_ret r) in
      if negb (truthy address) then ret i
      else find_free_debug_register tid n' (i + 1)
  end.

Definition install_hardware_breakpoint (bp : hardware_breakpoint) : M unit :=
  i <- find_free_debug_register (hw_tid bp) 4 0 ;;
  if i =? 4 then perror "No debug registers available"
  else
    let ctrl :=
      to_uint64
        (Z.lor
           (Z.lor (CTRL_LOCAL i)
                  (to_int (Z.shiftl (CTRL_COND_VAL (fst (hw_type bp))) (CTRL_COND i))))
           (to_int (Z.shiftl (CTRL_LEN_VAL (hw_len bp)) (CTRL_LEN i)))) in
    r <- call (PTRACE_PEEKUSER (hw_tid bp) (DR_BASE + 7 * DR_SIZE)) ;;
    let state := to_uint64 (r_ret r) in
    let state :=
      Z.land state (to_uint64 (Z.lnot (to_int (Z.shiftl 3 (CTRL_COND i))))) in
    let state :=
      Z.land state (to_uint64 (Z.lnot (to_int (Z.shiftl 3 (CTRL_LEN i))))) in
    let state := Z.lor state ctrl in
    call (PTRACE_POKEUSER (hw_tid bp) (DR_BASE + i * DR_SIZE) (hw_addr bp)) ;;
    call (PTRACE_POKEUSER (hw_tid bp) (DR_BASE + 7 * DR_SIZE) state) ;;
    ret tt.

Definition get_remaining_hw_breakpoint_count (state : global_state) (tid : Z)
  : M Z :=
  i <- find_free_debug_register tid 4 0 ;;
  ret (4 - i).

(** ** Thread table *)

Definition get_thread (state : global_state) (tid : Z) : option thread :=
  find (fun t => t_tid t =? tid) (t_HEAD state).

(** Position in the list of the first thread with the given tid.  A pointer
    into a list entry is modelled by the position of the entry. *)
Fixpoint thread_index (t : list thread) (tid : Z) : option nat :=
  match t with
  | [] => None
  | t0 :: t' =>
      if t_tid t0 =? tid then Some O
      else option_map S (thread_index t' tid)
  end.

(** [register_thread]: the returned [&t->regs] is given as the position of
    [t] in the live list after the call. *)
Definition register_thread (state : global_state) (tid : Z)
  : M (nat * global_state) :=
  match thread_index (t_HEAD state) tid with
  | Some i => ret (i, state)
  | None =>
      let t := {| t_tid := tid;
                  t_regs := indeterminate_regs;
                  t_fpregs := set_fpregs_type indeterminate_fpregs FPREGS_AVX;
                  t_signal_to_forward := 0 |} in
      '(_, r) <- getregs tid (t_regs t) ;;
      ret (O, set_t_HEAD state (set_regs t r :: t_HEAD state))
  end.

(** The walk of [unregister_thread]: the first entry with the given tid and
    the list without it. *)
Fixpoint unlink_thread (t : list thread) (tid : Z)
  : option (thread * list thread) :=
  match t with
  | [] => None
  | t0 :: t' =>
      if t_tid t0 =? tid then Some (t0, t')
      else match unlink_thread t' tid with
           | Some (x, l) => Some (x, t0 :: l)
           | None => None
           end
  end.

Definition unregister_thread (state : global_state) (tid : Z) : global_state :=
  match unlink_thread (t_HEAD state) tid with
  | Some (t, l) =>
      {| t_HEAD := l; dead_t_HEAD := t :: dead_t_HEAD state;
         sw_b_HEAD := sw_b_HEAD state; hw_b_HEAD := hw_b_HEAD state;
         handle_syscall_enabled := handle_syscall_enabled state |}
  | None => state
  end.

(** ** Software breakpoints *)

(** The search loop of [register_breakpoint]: the list with the first entry
    at [address] enabled, or [None] when the loop runs off the end. *)
Fixpoint enable_existing (b : list software_breakpoint) (address : Z)
  : option (list software_breakpoint) :=
  match b with
  | [] => None
  | b0 :: b' =>
      if sw_addr b0 =? address then Some (set_sw_enabled b0 1 :: b')
      else option_map (cons b0) (enable_existing b' address)
  end.

(** The loop [while (next != NULL && next->addr < address)] and the two
    links after it: what [prev->next] becomes. *)
Fixpoint link_after (next : list software_breakpoint) (b : software_breakpoint)
  : list software_breakpoint :=
  match next with
  | [] => [b]
  | n :: next' =>
      if sw_addr n <? sw_addr b then n :: link_after next' b
      else b :: next
  end.

Definition insert_ordered (head : list software_breakpoint)
  (b : software_breakpoint) : list software_breakpoint :=
  match head with
  | [] => [b]
  | h :: tl =>
      if sw_addr h >? sw_addr b then b :: head
      else h :: link_after tl b
  end.

Definition register_breakpoint (state : global_state) (pid address : Z)
  : M global_state :=
  r <- call (PTRACE_PEEKDATA pid address) ;;
  let instruction := to_uint64 (r_ret r) in
  let patched_instruction := to_uint64 (INSTALL_BREAKPOINT instruction) in
  call (PTRACE_POKEDATA pid address patched_instruction) ;;
  match enable_existing (sw_b_HEAD state) address with
  | Some l => ret (set_sw_b_HEAD state l)
  | None =>
      let b := {| sw_addr := address;
                  sw_instruction := instruction;
                  sw_patched_instruction := patched_instruction;
                  sw_enabled := 1 |} in
      ret (set_sw_b_HEAD state (insert_ordered (sw_b_HEAD state) b))
  end.

(** The walk of [unregister_breakpoint]: the list without its first entry
    at [address]. *)
Fixpoint unlink_breakpoint (b : list software_breakpoint) (address : Z)
  : list software_breakpoint :=
  match b with
  | [] => []
  | b0 :: b' =>
      if sw_addr b0 =? address then b'
      else b0 :: unlink_breakpoint b' address
  end.

Definition unregister_breakpoint (state : global_state) (address : Z)
  : M global_state :=
  ret (set_sw_b_HEAD state (unlink_breakpoint (sw_b_HEAD state) address)).

Definition enable_breakpoint (state : global_state) (address : Z)
  : M global_state :=
  ret (set_sw_b_HEAD state
         (map (fun b => if sw_addr b =? address then set_sw_enabled b 1 else b)
              (sw_b_HEAD state))).

Definition disable_breakpoint (state : global_state) (address : Z)
  : M global_state :=
  ret (set_sw_b_HEAD state
         (map (fun b => if sw_addr b =? address then set_sw_enabled b 0 else b)
              (sw_b_HEAD state))).

(** ** Hardware breakpoints *)

Definition register_hw_breakpoint (state : global_state) (tid address : Z)
  (type : Z * Z) (len : Z) : M global_state :=
  if existsb (fun b => (hw_addr b =? address) && (hw_tid b =? tid))
             (hw_b_HEAD state)
  then perror "Breakpoint already registered" ;; ret state
  else
    let b := {| hw_addr := address; hw_tid := tid; hw_enabled := 1;
                hw_type := (fst type, snd type); hw_len := len |} in
    let state := set_hw_b_HEAD state (b :: hw_b_HEAD state) in
    install_hardware_breakpoint b ;;
    ret state.

(** ** Run/stop coordinator *)

(** [singlestep] (ARCH_AMD64): the flush loop, which also picks up and
    clears the target's [signal_to_forward]. *)
Fixpoint singlestep_flush (t : list thread) (tid signal_to_forward : Z)
  : M (list thread * Z) :=
  match t with
  | [] => ret ([], signal_to_forward)
  | t0 :: t' =>
      r <- setregs (t_tid t0) (t_regs t0) ;;
      (if truthy r then perror "ptrace_setregs" else ret tt) ;;
      if t_tid t0 =? tid then
        '(l, s) <- singlestep_flush t' tid (t_signal_to_forward t0) ;;
        ret (set_signal_to_forward t0 0 :: l, s)
      else
        '(l, s) <- singlestep_flush t' tid signal_to_forward ;;
        ret (t0 :: l, s)
  end.

Definition singlestep (state : global_state) (tid : Z) : M (Z * global_state) :=
  '(l, signal_to_forward) <- singlestep_flush (t_HEAD state) tid 0 ;;
  r <- call (PTRACE_SINGLESTEP tid signal_to_forward) ;;
  ret (r_ret r, set_t_HEAD state l).

(** Replace the entry at position [i]. *)
Fixpoint update_thread (i : nat) (f : thread -> thread) (l : list thread)
  : list thread :=
  match l, i with
  | [], _ => []
  | t :: l', O => f t :: l'
  | t :: l', S i' => t :: update_thread i' f l'
  end.

(** The flush loop of [step_until]; [stepping_thread] is the last entry
    whose tid matched so far, with its position [i] counted from the head. *)
Fixpoint step_until_flush (t : list thread) (tid : Z) (i : nat)
  (stepping_thread : option (nat * thread)) : M (option (nat * thread)) :=
  match t with
  | [] => ret stepping_thread
  | t0 :: t' =>
      r <- setregs (t_tid t0) (t_regs t0) ;;
      (if truthy r then perror "ptrace_setregs" else ret tt) ;;
      step_until_flush t' tid (S i)
        (if t_tid t0 =? tid then Some (i, t0) else stepping_thread)
  end.

(** The [while] loop of [step_until] on the stepping thread's cached
    registers.  [None]: the fuel ran out before the loop ended. *)
Fixpoint step_until_loop (fuel : nat) (tid addr max_steps count status : Z)
  (regs : ptrace_regs_struct) : M (option (Z * ptrace_regs_struct)) :=
  if (max_steps =? -1) || (count <? max_steps) then
    match fuel with
    | O => ret None
    | S fuel' =>
        r <- call (PTRACE_SINGLESTEP tid 0) ;;
        if truthy (r_ret r) then ret (Some (-1, regs))
        else
          '(_, status) <- waitpid tid status 0 ;;
          let previous_ip := INSTRUCTION_POINTER regs in
          '(_, regs) <- getregs tid regs ;;
          if INSTRUCTION_POINTER regs =? addr then ret (Some (0, regs))
          else if INSTRUCTION_POINTER regs =? previous_ip then
            step_until_loop fuel' tid addr max_steps count status regs
          else
            step_until_loop fuel' tid addr max_steps (count + 1) status regs
    end
  else ret (Some (0, regs)).

Definition step_until (fuel : nat) (state : global_state)
  (tid addr max_steps : Z) : M (option (Z * global_state)) :=
  stepping_thread <- step_until_flush (t_HEAD state) tid O None ;;
  match stepping_thread with
  | None => perror "Thread not found" ;; ret (Some (-1, state))
  | Some (i, t) =>
      o <- step_until_loop fuel tid addr max_steps 0 0 (t_regs t) ;;
      match o with
      | None => ret None
      | Some (r, regs) =>
          ret (Some (r, set_t_HEAD state
                          (update_thread i (fun t => set_regs t regs)
                                         (t_HEAD state))))
      end
  end.

(** First loop of [prepare_for_run]. *)
Fixpoint flush_registers (t : list thread) : M unit :=
  match t with
  | [] => ret tt
  | t0 :: t' =>
      r <- setregs (t_tid t0) (t_regs t0) ;;
      (if truthy r
       then fprintf_stderr "ptrace_setregs failed for thread %d: %s"
       else ret tt) ;;
      flush_registers t'
  end.

(** The inner loop [while (b != NULL && !t_hit)]: the final [t_hit]. *)
Fixpoint sw_breakpoint_at (b : list software_breakpoint) (ip : Z) : bool :=
  match b with
  | [] => false
  | b0 :: b' => if sw_addr b0 =? ip then true else sw_breakpoint_at b' ip
  end.

(** Second loop of [prepare_for_run], over the threads. *)
Fixpoint step_over_sw_breakpoints (sw : list software_breakpoint)
  (t : list thread) (status : Z) : M (flow Z) :=
  match t with
  | [] => ret (Fallthrough status)
  | t0 :: t' =>
      let ip := INSTRUCTION_POINTER (t_regs t0) in
      if sw_breakpoint_at sw ip then
        r <- call (PTRACE_SINGLESTEP (t_tid t0) 0) ;;
        if truthy (r_ret r) then ret (Return (-1))
        else
          '(_, status) <- waitpid (t_tid t0) status 0 ;;
          status <- (if status =? 4991 then
                       call (PTRACE_SINGLESTEP (t_tid t0) 0) ;;
                       '(_, status) <- waitpid (t_tid t0) status 0 ;;
                       ret status
                     else ret status) ;;
          step_over_sw_breakpoints sw t' status
      else step_over_sw_breakpoints sw t' status
  end.

(** Last loop of [prepare_for_run]: "Reset any software breakpoint". *)
Fixpoint reset_sw_breakpoints (pid : Z) (b : list software_breakpoint)
  : M unit :=
  match b with
  | [] => ret tt
  | b0 :: b' =>
      (if truthy (sw_enabled b0)
       then call (PTRACE_POKEDATA pid (sw_addr b0) (sw_patched_instruction b0)) ;;
            ret tt
       else ret tt) ;;
      reset_sw_breakpoints pid b'
  end.

Definition prepare_for_run (state : global_state) (pid : Z) : M Z :=
  let status := 0 in
  flush_registers (t_HEAD state) ;;
  f <- step_over_sw_breakpoints (sw_b_HEAD state) (t_HEAD state) status ;;
  match f with
  | Return r => ret r
  | Fallthrough status =>
      reset_sw_breakpoints pid (sw_b_HEAD state) ;;
      ret status
  end.

(** The loop of [cont_all_and_set_bps]. *)
Fixpoint cont_threads (handle_syscall : bool) (t : list thread)
  : M (list thread) :=
  match t with
  | [] => ret []
  | t0 :: t' =>
      r <- call (if handle_syscall
                 then PTRACE_SYSCALL (t_tid t0) (t_signal_to_forward t0)
                 else PTRACE_CONT (t_tid t0) (t_signal_to_forward t0)) ;;
      (if truthy (r_ret r)
       then fprintf_stderr "ptrace_cont failed for thread %d with signal %d: %s"
       else ret tt) ;;
      l <- cont_threads handle_syscall t' ;;
      ret (set_signal_to_forward t0 0 :: l)
  end.

Definition cont_all_and_set_bps (state : global_state) (pid : Z)
  : M (Z * global_state) :=
  status <- prepare_for_run state pid ;;
  l <- cont_threads (handle_syscall_enabled state) (t_HEAD state) ;;
  ret (status, set_t_HEAD state l).

(** Loops "Restore any software breakpoint" of [wait_all_and_update_regs]
    and "remove any installed breakpoint" of [stepping_finish]. *)
Fixpoint restore_sw_breakpoints (pid : Z) (b : list software_breakpoint)
  : M unit :=
  match b with
  | [] => ret tt
  | b0 :: b' =>
      (if truthy (sw_enabled b0)
       then call (PTRACE_POKEDATA pid (sw_addr b0) (sw_instruction b0)) ;;
            ret tt
       else ret tt) ;;
      restore_sw_breakpoints pid b'
  end.

(** "We must interrupt all the other threads with a SIGSTOP".  [head] is
    the first node of the status list and [next] are the nodes behind it:
    the test [t->tid != head->tid] reads the node that is first at that
    moment, and every status that is recorded becomes the first node. *)
Fixpoint stop_other_threads (pid : Z) (t : list thread) (temp_status : Z)
  (head : thread_status) (next : list thread_status)
  : M (list thread * Z * list thread_status) :=
  match t with
  | [] => ret ([], temp_status, head :: next)
  | t0 :: t' =>
      if negb (t_tid t0 =? ts_tid head) then
        '(r, regs) <- getregs (t_tid t0) (t_regs t0) ;;
        if r =? -1 then
          tgkill pid (t_tid t0) SIGSTOP ;;
          '(temp_tid, temp_status) <- waitpid (t_tid t0) temp_status 0 ;;
          let ts := {| ts_tid := temp_tid; ts_status := temp_status |} in
          '(l, temp_status, head) <-
            stop_other_threads pid t' temp_status ts (head :: next) ;;
          ret (set_regs t0 regs :: l, temp_status, head)
        else
          '(l, temp_status, head) <-
            stop_other_threads pid t' temp_status head next ;;
          ret (set_regs t0 regs :: l, temp_status, head)
      else
        '(l, temp_status, head) <-
          stop_other_threads pid t' temp_status head next ;;
        ret (t0 :: l, temp_status, head)
  end.

(** "We keep polling but don't block".  [None]: out of fuel. *)
Fixpoint drain_statuses (fuel : nat) (pid temp_status : Z)
  (head : list thread_status) : M (option (list thread_status)) :=
  match fuel with
  | O => ret None
  | S fuel' =>
      pgid <- getpgid pid ;;
      '(temp_tid, temp_status) <- waitpid (- pgid) temp_status WNOHANG ;;
      if temp_tid >? 0 then
        drain_statuses fuel' pid temp_status
          ({| ts_tid := temp_tid; ts_status := temp_status |} :: head)
      else ret (Some head)
  end.

(** "Update the registers of all the threads". *)
Fixpoint update_all_regs (t : list thread) : M (list thread) :=
  match t with
  | [] => ret []
  | t0 :: t' =>
      '(_, regs) <- getregs (t_tid t0) (t_regs t0) ;;
      l <- update_all_regs t' ;;
      ret (set_regs t0 regs :: l)
  end.

(** [wait_all_and_update_regs]: the outer [option] is [None] when the fuel
    of the polling loop ran out; the inner one is the returned pointer,
    [None] for [NULL]. *)
Definition wait_all_and_update_regs (fuel : nat) (state : global_state)
  (pid : Z) : M (option (option (list thread_status) * global_state)) :=
  pgid <- getpgid pid ;;
  '(head_tid, head_status) <- waitpid (- pgid) indeterminate_int 0 ;;
  if head_tid =? -1 then
    perror "waitpid" ;;
    ret (Some (None, state))
  else
    let head := {| ts_tid := head_tid; ts_status := head_status |} in
    '(l, temp_status, head) <-
      stop_other_threads pid (t_HEAD state) indeterminate_int head [] ;;
    o <- drain_statuses fuel pid temp_status head ;;
    match o with
    | None => ret None
    | Some head =>
        l <- update_all_regs l ;;
        restore_sw_breakpoints pid (sw_b_HEAD state) ;;
        ret (Some (Some head, set_t_HEAD state l))
    end.

(** ** Step out of the current call *)

(** The [do ... while] of [stepping_finish]; [None] when the fuel ran out.
    [status] only receives what [waitpid] stores: the function does not read
    it again after [prepare_for_run]. *)
Fixpoint stepping_finish_loop (fuel : nat) (tid status : Z)
  (regs : ptrace_regs_struct) (nested_call_counter : Z)
  : M (option (loop_exit * ptrace_regs_struct)) :=
  match fuel with
  | O => ret None
  | S fuel' =>
      r <- call (PTRACE_SINGLESTEP tid 0) ;;
      if truthy (r_ret r) then ret (Some (Returned (-1), regs))
      else
        '(_, status) <- waitpid tid status 0 ;;
        let previous_ip := INSTRUCTION_POINTER regs in
        '(_, regs) <- getregs tid regs ;;
        let current_ip := INSTRUCTION_POINTER regs in
        w <- call (PTRACE_PEEKDATA tid current_ip) ;;
        let opcode_window := to_uint64 (r_ret w) in
        let first_opcode_byte := Z.land opcode_window 255 in
        if (current_ip =? previous_ip) || IS_SW_BREAKPOINT first_opcode_byte
        then ret (Some (GotoCleanup, regs))
        else
          let nested_call_counter :=
            if IS_CALL_INSTRUCTION opcode_window then nested_call_counter + 1
            else if IS_RET_INSTRUCTION first_opcode_byte
                 then nested_call_counter - 1
                 else nested_call_counter in
          if nested_call_counter >? 0 then
            stepping_finish_loop fuel' tid status regs nested_call_counter
          else ret (Some (CounterZero, regs))
  end.

(** The search loop of [stepping_finish]: first entry with the tid. *)
Fixpoint find_stepping_thread (t : list thread) (tid : Z) (i : nat)
  : option (nat * thread) :=
  match t with
  | [] => None
  | t0 :: t' =>
      if t_tid t0 =? tid then Some (i, t0)
      else find_stepping_thread t' tid (S i)
  end.

Definition stepping_finish (fuel : nat) (state : global_state) (tid : Z)
  : M (option (Z * global_state)) :=
  status <- prepare_for_run state tid ;;
  match find_stepping_thread (t_HEAD state) tid O with
  | None => perror "Thread not found" ;; ret (Some (-1, state))
  | Some (i, t) =>
      let store regs :=
        set_t_HEAD state
          (update_thread i (fun t => set_regs t regs) (t_HEAD state)) in
      o <- stepping_finish_loop fuel tid status (t_regs t) 1 ;;
      match o with
      | None => ret None
      | Some (Returned r, regs) => ret (Some (r, store regs))
      | Some (GotoCleanup, regs) =>
          restore_sw_breakpoints tid (sw_b_HEAD state) ;;
          ret (Some (0, store regs))
      | Some (CounterZero, regs) =>
          r <- call (PTRACE_SINGLESTEP tid 0) ;;
          if truthy (r_ret r) then ret (Some (-1, store regs))
          else
            waitpid tid status 0 ;;
            '(_, regs) <- getregs tid regs ;;
            restore_sw_breakpoints tid (sw_b_HEAD state) ;;
            ret (Some (0, store regs))
      end
  end.

End Tracer.

(** ** Tracee memory

    [PTRACE_PEEKDATA] and [PTRACE_POKEDATA] move one 8-byte word between the
    tracer and the byte-addressed memory of the tracee (x86-64 is little
    endian).  A memory gives the byte stored at every address. *)

Definition memory : Type := Z -> Z.

Fixpoint le_split (n : nat) (w : Z) : list Z :=
  match n with
  | O => []
  | S n' => w mod 256 :: le_split n' (w / 256)
  end.

Fixpoint le_combine (bytes : list Z) : Z :=
  match bytes with
  | [] => 0
  | b :: bytes' => b mod 256 + 256 * le_combine bytes'
  end.

Definition load_word (m : memory) (a : Z) : Z :=
  le_combine (map (fun i => m (a + Z.of_nat i)) (seq 0 8)).

Definition store_word (m : memory) (a w : Z) : memory :=
  fun x =>
    if (a <=? x) && (x <? a + 8)
    then nth (Z.to_nat (x - a)) (le_split 8 w) 0
    else m x.

(** ** A concrete target and a simulated kernel

    Used to run the embedding on concrete inputs. *)

Record user_regs_struct : Type := { rip : Z; rax : Z }.

Record user_fpregs_struct : Type := { fp_type : Z }.

(** Modelled from the spec: the x86-64 definitions that the build script
    gives to the C file are not part of the sources at hand.  The spec says
    that [INSTALL_BREAKPOINT] overlays the trap encoding on the low byte of
    the word and keeps the rest, and that the other three are tests on the
    first opcode byte or on the opcode window; the encodings are those of
    the x86-64 instruction set ([int3] is CC, near and far [ret] are C3, CB,
    C2, CA, and the direct near [call] is E8). *)
Definition amd64 : Target := {|
  ptrace_regs_struct := user_regs_struct;
  fp_regs_struct := user_fpregs_struct;
  INSTRUCTION_POINTER := rip;
  INSTALL_BREAKPOINT := fun w => Z.lor (Z.land w (Z.lnot 255)) 204;
  IS_SW_BREAKPOINT := fun b => b =? 204;
  IS_CALL_INSTRUCTION := fun w => Z.land w 255 =? 232;
  IS_RET_INSTRUCTION :=
    fun b => (b =? 195) || (b =? 203) || (b =? 194) || (b =? 202);
  FPREGS_AVX := 0;
  set_fpregs_type := fun _ ty => {| fp_type := ty |};
  indeterminate_regs := {| rip := 0; rax := 0 |};
  indeterminate_fpregs := {| fp_type := 0 |};
  indeterminate_int := 0
|}.

(** The simulated tracee: every thread that is stopped under the tracer
    executes one-byte instructions, so that a single step advances its
    instruction pointer by one; requests on any other thread fail. *)
Record sim : Type := {
  sim_mem : memory;
  sim_user : Z -> Z -> Z;
  sim_regs : Z -> user_regs_struct;
  sim_stopped : Z -> bool
}.

Definition upd {A : Type} (f : Z -> A) (x : Z) (v : A) : Z -> A :=
  fun y => if y =? x then v else f y.

Definition ok (v : Z) : @reply amd64 := @Build_reply amd64 v None None.

Definition ok_regs (r : user_regs_struct) : @reply amd64 :=
  @Build_reply amd64 0 (Some r) None.

Definition ok_status (v s : Z) : @reply amd64 :=
  @Build_reply amd64 v None (Some s).

Definition sim_sys (q : @request amd64) (k : sim) : @reply amd64 * sim :=
  match q with
  | PTRACE_GETREGS tid =>
      if sim_stopped k tid
      then (ok_regs (sim_regs k tid), k)
      else (ok (-1), k)
  | PTRACE_SETREGS tid r =>
      if sim_stopped k tid
      then (ok 0, {| sim_mem := sim_mem k; sim_user := sim_user k;
                     sim_regs := upd (sim_regs k) tid r;
                     sim_stopped := sim_stopped k |})
      else (ok (-1), k)
  | PTRACE_SINGLESTEP tid _ =>
      if sim_stopped k tid
      then (ok 0, {| sim_mem := sim_mem k; sim_user := sim_user k;
                     sim_regs :=
                       upd (sim_regs k) tid
                           {| rip := rip (sim_regs k tid) + 1;
                              rax := rax (sim_regs k tid) |};
                     sim_stopped := sim_stopped k |})
      else (ok (-1), k)
  | PTRACE_CONT tid _ | PTRACE_SYSCALL tid _ =>
      if sim_stopped k tid
      then (ok 0, {| sim_mem := sim_mem k; sim_user := sim_user k;
                     sim_regs := sim_regs k;
                     sim_stopped := upd (sim_stopped k) tid false |})
      else (ok (-1), k)
  | PTRACE_PEEKDATA _ addr => (ok (load_word (sim_mem k) addr), k)
  | PTRACE_POKEDATA _ addr data =>
      (ok 0, {| sim_mem := store_word (sim_mem k) addr data;
                sim_user := sim_user k; sim_regs := sim_regs k;
                sim_stopped := sim_stopped k |})
  | PTRACE_PEEKUSER tid off => (ok (sim_user k tid off), k)
  | PTRACE_POKEUSER tid off data =>
      (ok 0, {| sim_mem := sim_mem k;
                sim_user := upd (sim_user k) tid (upd (sim_user k tid) off data);
                sim_regs := sim_regs k; sim_stopped := sim_stopped k |})
  | WAITPID pid _ =>
      if (0 <? pid) && sim_stopped k pid
      then (ok_status pid 1407, k)
      else (ok (-1), k)
  | GETPGID pid => (ok pid, k)
  | TGKILL _ _ _ => (ok 0, k)
  | STDERR _ => (ok 0, k)
  end.

Definition sim_kernel : @Kernel amd64 := {|
  kernel := sim;
  sys := sim_sys
|}.


(** ** Sequences of operations on the software-breakpoint table *)

Inductive sw_op : Type :=
| Register (pid address : Z)
| Unregister (address : Z)
| Enable (address : Z)
| Disable (address : Z).

Section Operations.
Context {T : Target} {K : Kernel}.

Definition apply_op (state : global_state) (o : sw_op) : M global_state :=
  match o with
  | Register pid address => register_breakpoint state pid address
  | Unregister address => unregister_breakpoint state address
  | Enable address => enable_breakpoint state address
  | Disable address => disable_breakpoint state address
  end.

Fixpoint apply_ops (ops : list sw_op) (state : global_state) : M global_state :=
  match ops with
  | [] => ret state
  | o :: ops' => state' <- apply_op state o ;; apply_ops ops' state'
  end.

End Operations.

(** The software-breakpoint list is in strictly ascending order of address. *)
Definition sw_sorted (b : list software_breakpoint) : Prop :=
  Sorted Z.lt (map sw_addr b).

(** ** Vocabulary for traces *)

Section TraceVocabulary.
Context {T : Target}.

(** The two requests of one step over a breakpoint. *)
Definition step_and_wait (tid : Z) : list request :=
  [PTRACE_SINGLESTEP tid 0; WAITPID tid 0].

(** The cached instruction pointer of [t] is the address of an entry of the
    software-breakpoint list, enabled or not. *)
Definition on_sw_breakpoint (state : global_state) (t : thread) : Prop :=
  exists b, In b (sw_b_HEAD state) /\
            sw_addr b = INSTRUCTION_POINTER (t_regs t).

(** What one thread contributes to the trace of the second loop of
    [prepare_for_run]: a step and wait, once or twice, when it is on an
    entry of the list, and nothing otherwise. *)
Definition stepped_over (state : global_state) (t : thread)
  (c : list request) : Prop :=
  (on_sw_breakpoint state t /\
   (c = step_and_wait (t_tid t) \/
    c = step_and_wait (t_tid t) ++ step_and_wait (t_tid t))) \/
  (~ on_sw_breakpoint state t /\ c = []).

(** The same, for an entry that is enabled. *)
Definition on_enabled_sw_breakpoint (state : global_state) (t : thread) : Prop :=
  exists b, In b (sw_b_HEAD state) /\ truthy (sw_enabled b) = true /\
            sw_addr b = INSTRUCTION_POINTER (t_regs t).

(** Requests of a register flush. *)
Definition is_flush (q : request) : Prop :=
  match q with
  | PTRACE_SETREGS _ _ | STDERR _ => True
  | _ => False
  end.

Definition enabled_sw (b : list software_breakpoint) : list software_breakpoint :=
  filter (fun x => truthy (sw_enabled x)) b.

Definition poke_patched (pid : Z) (b : software_breakpoint) : request :=
  PTRACE_POKEDATA pid (sw_addr b) (sw_patched_instruction b).

Definition poke_original (pid : Z) (b : software_breakpoint) : request :=
  PTRACE_POKEDATA pid (sw_addr b) (sw_instruction b).

End TraceVocabulary.

(** ** Requests served in turn *)

Section ServedInTurn.
Context {T : Target} {K : Kernel}.

(** The kernel after it has served the requests of [tr], in order. *)
Definition replay (tr : list request) (k : kernel) : kernel :=
  fold_left (fun k q => snd (sys q k)) tr k.

(** The contents of a status variable that starts as [status] and that
    every wait of [tr] is given to store into, the requests being served
    from [k] on. *)
Fixpoint status_after (tr : list request) (status : Z) (k : kernel) : Z :=
  match tr with
  | [] => status
  | q :: tr' =>
      let stored :=
        match q with
        | WAITPID _ _ =>
            match r_status (fst (sys q k)) with
            | Some s => s
            | None => status
            end
        | _ => status
        end in
      status_after tr' stored (snd (sys q k))
  end.

(** The requests that the second loop of [prepare_for_run] makes for the
    thread [t] when it comes to it with the kernel in state [k] and
    [status] in the status variable, and does not return: none when the
    cached instruction pointer is not the address of an entry, else one
    step and wait, and a second step and wait when the first wait has left
    4991 in the status variable. *)
Definition step_over_requests (sw : list software_breakpoint) (t : thread)
  (status : Z) (k : kernel) : list request :=
  if sw_breakpoint_at sw (INSTRUCTION_POINTER (t_regs t)) then
    if status_after (step_and_wait (t_tid t)) status k =? 4991
    then step_and_wait (t_tid t) ++ step_and_wait (t_tid t)
    else step_and_wait (t_tid t)
  else [].

(** The same for the threads of a list, one after the other: each thread
    meets the kernel and the status variable as the requests of the
    threads before it have left them. *)
Fixpoint stepped_in_turn (sw : list software_breakpoint) (ts : list thread)
  (status : Z) (k : kernel) : list (list request) :=
  match ts with
  | [] => []
  | t :: ts' =>
      let c := step_over_requests sw t status k in
      c :: stepped_in_turn sw ts' (status_after c status k) (replay c k)
  end.

End ServedInTurn.

(** ** Kernels whose memory can be observed *)


Section MemoryView.
Context {T : Target} {K : Kernel}.

(** Requests that leave tracee memory alone at the moment they are served. *)
Definition leaves_memory (q : request) : Prop :=
  match q with
  | PTRACE_CONT _ _ | PTRACE_SYSCALL _ _ | STDERR _ => True
  | _ => False
  end.

(** [mem_of] reads the tracee's memory off the kernel state:
    [PTRACE_POKEDATA] stores its word there, resuming a thread or writing a
    diagnostic does not touch it.  Nothing is assumed of the other requests
    (a single step runs an instruction of the tracee, which may store). *)
Definition kernel_memory (mem_of : kernel -> memory) : Prop :=
  (forall pid a w k x,
      mem_of (snd (sys (PTRACE_POKEDATA pid a w) k)) x
      = store_word (mem_of k) a w x) /\
  (forall q k x, leaves_memory q -> mem_of (snd (sys q k)) x = mem_of k x).

End MemoryView.

(** ** Concrete tracees and states *)

Section ConcreteStates.
#[local] Existing Instance amd64.
#[local] Existing Instance sim_kernel.

(** A tracee with threads 100 and 101 stopped at addresses 4096 and 4097 of
    a run of [nop]s (90), and empty debug registers. *)
Definition nops : @kernel amd64 sim_kernel := {|
  sim_mem := fun _ => 144;
  sim_user := fun _ _ => 0;
  sim_regs := fun tid => {| rip := if tid =? 101 then 4097 else 4096; rax := 0 |};
  sim_stopped := fun tid => (tid =? 100) || (tid =? 101)
|}.

(** A tracee whose code is a [nop] at 4096, a [ret] (C3) at 4097 and [nop]s
    elsewhere; only thread 100 is stopped under the tracer. *)
Definition nop_ret : @kernel amd64 sim_kernel := {|
  sim_mem := fun a => if a =? 4097 then 195 else 144;
  sim_user := fun _ _ => 0;
  sim_regs := fun _ => {| rip := 4096; rax := 0 |};
  sim_stopped := fun tid => tid =? 100
|}.

Definition mk_thread (tid ip : Z) : thread :=
  {| t_tid := tid; t_regs := {| rip := ip; rax := 0 |};
     t_fpregs := {| fp_type := 0 |}; t_signal_to_forward := 0 |}.

Definition mk_state (t : list thread) (b : list software_breakpoint)
  : global_state :=
  {| t_HEAD := t; dead_t_HEAD := []; sw_b_HEAD := b; hw_b_HEAD := [];
     handle_syscall_enabled := false |}.

(** The word of eight [nop]s, and the same with [int3] as its low byte. *)
Definition nop_word : Z := 10416984888683040912.
Definition int3_word : Z := 10416984888683040972.

Definition mk_sw (addr enabled : Z) : software_breakpoint :=
  {| sw_addr := addr; sw_instruction := nop_word;
     sw_patched_instruction := int3_word; sw_enabled := enabled |}.

(** Thread 100 registered, and four hardware breakpoints registered for it
    one after the other on the tracee [nops]: the state and the kernel after
    the fourth registration. *)
Definition four_hw_breakpoints : global_state * kernel * list request :=
  (s1 <- register_hw_breakpoint (mk_state [mk_thread 100 4096] [])
                                100 8192 (120, 0) 1 ;;
   s2 <- register_hw_breakpoint s1 100 8200 (119, 0) 8 ;;
   s3 <- register_hw_breakpoint s2 100 8208 (114, 119) 4 ;;
   register_hw_breakpoint s3 100 8216 (120, 0) 1) nops.


End ConcreteStates.

(** * The rest of the tracer core

    The functions of the C file that the development above did not need:
    the remaining debug-register functions, the other operations on the
    hardware-breakpoint list, the release functions and the functions that
    attach to and detach from the tracee.  Left out are [get_fp_regs] and
    [set_fp_regs], which move a block whose layout and size ([XSAVE], the
    [padding0] field) the build script fixes, [ptrace_set_options], whose
    option bits come from the system headers, and [ptrace_geteventmsg]. *)

From Stdlib Require Import Permutation.

Definition set_hw_enabled (b : hardware_breakpoint) (e : Z) : hardware_breakpoint :=
  {| hw_addr := hw_addr b; hw_tid := hw_tid b; hw_enabled := e;
     hw_type := hw_type b; hw_len := hw_len b |}.

Section TracerRest.
Context {T : Target} {K : Kernel}.

(** ** Debug registers (ARCH_AMD64), continued *)

(** The loop [for (i = 0; i < 4; i++)] of [remove_hardware_breakpoint],
    which looks for the debug register that holds [addr]. *)
Fixpoint find_debug_register (tid addr : Z) (n : nat) (i : Z) : M Z :=
  match n with
  | O => ret i
  | S n' =>
      r <- call (PTRACE_PEEKUSER tid (DR_BASE + i * DR_SIZE)) ;;
      let address := to_uint64 (r_ret r) in
      if address =? addr then ret i
      else find_debug_register tid addr n' (i + 1)
  end.

Definition remove_hardware_breakpoint (bp : hardware_breakpoint) : M unit :=
  i <- find_debug_register (hw_tid bp) (hw_addr bp) 4 0 ;;
  if i =? 4 then perror "Breakpoint not found"
  else
    r <- call (PTRACE_PEEKUSER (hw_tid bp) (DR_BASE + 7 * DR_SIZE)) ;;
    let state := to_uint64 (r_ret r) in
    let state :=
      Z.land state (to_uint64 (Z.lnot (to_int (Z.shiftl 3 (CTRL_COND i))))) in
    let state :=
      Z.land state (to_uint64 (Z.lnot (to_int (Z.shiftl 3 (CTRL_LEN i))))) in
    call (PTRACE_POKEUSER (hw_tid bp) (DR_BASE + 7 * DR_SIZE) state) ;;
    call (PTRACE_POKEUSER (hw_tid bp) (DR_BASE + i * DR_SIZE) 0) ;;
    ret tt.

Definition is_breakpoint_hit (bp : hardware_breakpoint) : M Z :=
  r <- call (PTRACE_PEEKUSER (hw_tid bp) (DR_BASE + 6 * DR_SIZE)) ;;
  let status := to_uint64 (r_ret r) in
  let index :=
    if truthy (Z.land status 1) then Some 0
    else if truthy (Z.land status 2) then Some 1
    else if truthy (Z.land status 4) then Some 2
    else if truthy (Z.land status 8) then Some 3
    else None in
  match index with
  | None => ret 0
  | Some index =>
      a <- call (PTRACE_PEEKUSER (hw_tid bp) (DR_BASE + index * DR_SIZE)) ;;
      let address := to_uint64 (r_ret a) in
      if address =? hw_addr bp then ret 1 else ret 0
  end.


Definition ptrace_peekuser (pid addr : Z) : M Z :=
  r <- call (PTRACE_PEEKUSER pid addr) ;; ret (to_uint64 (r_ret r)).


(** ** Thread table, continued *)

(** [get_thread_fp_regs]: the returned [&t->fpregs] is given as the position
    of [t] in the live list, [None] for [NULL]. *)
Definition get_thread_fp_regs (state : global_state) (tid : Z) : option nat :=
  thread_index (t_HEAD state) tid.

Definition free_thread_list (state : global_state) : global_state :=
  {| t_HEAD := []; dead_t_HEAD := []; sw_b_HEAD := sw_b_HEAD state;
     hw_b_HEAD := hw_b_HEAD state;
     handle_syscall_enabled := handle_syscall_enabled state |}.

(** ** Breakpoint tables, continued *)

Definition free_breakpoints (state : global_state) : global_state :=
  {| t_HEAD := t_HEAD state; dead_t_HEAD := dead_t_HEAD state;
     sw_b_HEAD := []; hw_b_HEAD := [];
     handle_syscall_enabled := handle_syscall_enabled state |}.

(** The test [b->addr == address && b->tid == tid]. *)
Definition hw_matches (tid address : Z) (b : hardware_breakpoint) : bool :=
  (hw_addr b =? address) && (hw_tid b =? tid).

(** The walk of [unregister_hw_breakpoint]: the first entry for the pair and
    the list without it. *)
Fixpoint unlink_hw_breakpoint (b : list hardware_breakpoint) (tid address : Z)
  : option (hardware_breakpoint * list hardware_breakpoint) :=
  match b with
  | [] => None
  | b0 :: b' =>
      if hw_matches tid address b0 then Some (b0, b')
      else match unlink_hw_breakpoint b' tid address with
           | Some (x, l) => Some (x, b0 :: l)
           | None => None
           end
  end.

Definition unregister_hw_breakpoint (state : global_state) (tid address : Z)
  : M global_state :=
  match unlink_hw_breakpoint (hw_b_HEAD state) tid address with
  | Some (b, l) =>
      (if truthy (hw_enabled b) then remove_hardware_breakpoint b else ret tt) ;;
      ret (set_hw_b_HEAD state l)
  | None => ret state
  end.

(** The loop of [enable_hw_breakpoint]. *)
Fixpoint enable_hw_entries (b : list hardware_breakpoint) (tid address : Z)
  : M (list hardware_breakpoint) :=
  match b with
  | [] => ret []
  | b0 :: b' =>
      if hw_matches tid address b0 then
        (if negb (truthy (hw_enabled b0))
         then install_hardware_breakpoint b0
         else ret tt) ;;
        l <- enable_hw_entries b' tid address ;;
        ret (set_hw_enabled b0 1 :: l)
      else
        l <- enable_hw_entries b' tid address ;;
        ret (b0 :: l)
  end.

Definition enable_hw_breakpoint (state : global_state) (tid address : Z)
  : M global_state :=
  l <- enable_hw_entries (hw_b_HEAD state) tid address ;;
  ret (set_hw_b_HEAD state l).

(** The loop of [disable_hw_breakpoint]. *)
Fixpoint disable_hw_entries (b : list hardware_breakpoint) (tid address : Z)
  : M (list hardware_breakpoint) :=
  match b with
  | [] => ret []
  | b0 :: b' =>
      if hw_matches tid address b0 then
        (if truthy (hw_enabled b0)
         then remove_hardware_breakpoint b0
         else ret tt) ;;
        l <- disable_hw_entries b' tid address ;;
        ret (set_hw_enabled b0 0 :: l)
      else
        l <- disable_hw_entries b' tid address ;;
        ret (b0 :: l)
  end.

Definition disable_hw_breakpoint (state : global_state) (tid address : Z)
  : M global_state :=
  l <- disable_hw_entries (hw_b_HEAD state) tid address ;;
  ret (set_hw_b_HEAD state l).

(** The loop of [get_hit_hw_breakpoint]; [is_breakpoint_hit] is only called
    for the entries of [tid]. *)
Fixpoint get_hit_hw_entries (b : list hardware_breakpoint) (tid : Z) : M Z :=
  match b with
  | [] => ret 0
  | b0 :: b' =>
      if hw_tid b0 =? tid then
        hit <- is_breakpoint_hit b0 ;;
        if truthy hit then ret (hw_addr b0)
        else get_hit_hw_entries b' tid
      else get_hit_hw_entries b' tid
  end.

Definition get_hit_hw_breakpoint (state : global_state) (tid : Z) : M Z :=
  get_hit_hw_entries (hw_b_HEAD state) tid.

(** ** Sequences of operations on the other two tables *)

Inductive thread_op : Type :=
| RegisterThread (tid : Z)
| UnregisterThread (tid : Z).

Definition apply_thread_op (state : global_state) (o : thread_op)
  : M global_state :=
  match o with
  | RegisterThread tid => '(_, s) <- register_thread state tid ;; ret s
  | UnregisterThread tid => ret (unregister_thread state tid)
  end.

Fixpoint apply_thread_ops (ops : list thread_op) (state : global_state)
  : M global_state :=
  match ops with
  | [] => ret state
  | o :: ops' => s <- apply_thread_op state o ;; apply_thread_ops ops' s
  end.

Inductive hw_op : Type :=
| RegisterHw (tid address : Z) (type : Z * Z) (len : Z)
| UnregisterHw (tid address : Z)
| EnableHw (tid address : Z)
| DisableHw (tid address : Z).

Definition apply_hw_op (state : global_state) (o : hw_op) : M global_state :=
  match o with
  | RegisterHw tid address type len =>
      register_hw_breakpoint state tid address type len
  | UnregisterHw tid address => unregister_hw_breakpoint state tid address
  | EnableHw tid address => enable_hw_breakpoint state tid address
  | DisableHw tid address => disable_hw_breakpoint state tid address
  end.

Fixpoint apply_hw_ops (ops : list hw_op) (state : global_state)
  : M global_state :=
  match ops with
  | [] => ret state
  | o :: ops' => s <- apply_hw_op state o ;; apply_hw_ops ops' s
  end.

(** ** More vocabulary *)

Definition live_tids (state : global_state) : list Z :=
  map t_tid (t_HEAD state).

Definition hw_pairs (state : global_state) : list (Z * Z) :=
  map (fun b => (hw_addr b, hw_tid b)) (hw_b_HEAD state).

Definition is_stderr (q : request) : bool :=
  match q with
  | STDERR _ => true
  | _ => false
  end.

(** The requests of a trace that reach the tracee: all but the diagnostics. *)
Definition ptrace_requests (tr : list request) : list request :=
  filter (fun q => negb (is_stderr q)) tr.

Definition is_setregs (q : request) : bool :=
  match q with
  | PTRACE_SETREGS _ _ => true
  | _ => false
  end.

(** Requests that only read the user area. *)
Definition reads_user_area (q : request) : Prop :=
  match q with
  | PTRACE_PEEKUSER _ _ => True
  | _ => False
  end.

(** Requests of a step over a breakpoint. *)
Definition is_step_or_wait (q : request) : Prop :=
  match q with
  | PTRACE_SINGLESTEP _ _ | WAITPID _ _ => True
  | _ => False
  end.

Definition flush_request (t : thread) : request :=
  PTRACE_SETREGS (t_tid t) (t_regs t).

Definition resume_request (handle_syscall : bool) (t : thread) : request :=
  if handle_syscall
  then PTRACE_SYSCALL (t_tid t) (t_signal_to_forward t)
  else PTRACE_CONT (t_tid t) (t_signal_to_forward t).

(** Requests of [wait_all_and_update_regs] before its restore loop:
    register reads, waits, process-group queries and diagnostics, and
    SIGSTOP sent within [pid] to one of [tids]. *)
Definition is_stop_or_poll (pid : Z) (tids : list Z) (q : request) : Prop :=
  match q with
  | PTRACE_GETREGS _ | WAITPID _ _ | GETPGID _ | STDERR _ => True
  | TGKILL tgid tid sig => tgid = pid /\ sig = SIGSTOP /\ In tid tids
  | _ => False
  end.



(** [user_of] reads the user area of every thread off the kernel state:
    [PTRACE_PEEKUSER] returns the word stored there and changes nothing,
    [PTRACE_POKEUSER] stores its word, a diagnostic touches nothing. *)
Definition kernel_user (user_of : kernel -> Z -> Z -> Z) : Prop :=
  (forall tid off k,
      r_ret (fst (sys (PTRACE_PEEKUSER tid off) k)) = user_of k tid off /\
      forall t o, user_of (snd (sys (PTRACE_PEEKUSER tid off) k)) t o
                  = user_of k t o) /\
  (forall tid off data k t o,
      user_of (snd (sys (PTRACE_POKEUSER tid off data) k)) t o
      = if (t =? tid) && (o =? off) then data else user_of k t o) /\
  (forall msg k t o, user_of (snd (sys (STDERR msg) k)) t o = user_of k t o).

(** The word as the scans of the debug registers see it: DR[i] of the
    thread, and its DR7. *)
Definition debug_register (user_of : kernel -> Z -> Z -> Z) (k : kernel)
  (tid i : Z) : Z :=
  to_uint64 (user_of k tid (DR_BASE + i * DR_SIZE)).

Definition debug_control (user_of : kernel -> Z -> Z -> Z) (k : kernel)
  (tid : Z) : Z :=
  to_uint64 (user_of k tid (DR_BASE + 7 * DR_SIZE)).

End TracerRest.

(** What [install_hardware_breakpoint] and [remove_hardware_breakpoint]
    compute from the DR7 they read: the word with the condition and length
    fields of slot [i] cleared, and the control bits that the installation
    ors into it. *)
Definition dr7_cleared (i state : Z) : Z :=
  Z.land
    (Z.land state (to_uint64 (Z.lnot (to_int (Z.shiftl 3 (CTRL_COND i))))))
    (to_uint64 (Z.lnot (to_int (Z.shiftl 3 (CTRL_LEN i))))).

Definition dr7_control (i : Z) (bp : hardware_breakpoint) : Z :=
  to_uint64
    (Z.lor
       (Z.lor (CTRL_LOCAL i)
              (to_int (Z.shiftl (CTRL_COND_VAL (fst (hw_type bp))) (CTRL_COND i))))
       (to_int (Z.shiftl (CTRL_LEN_VAL (hw_len bp)) (CTRL_LEN i)))).


(** The memory image left by the restore loop of [wait_all_and_update_regs]
    and of [stepping_finish]: the original word of every enabled entry
    stored at its address, in list order. *)
Definition restore_all (b : list software_breakpoint) (m : memory) : memory :=
  fold_left
    (fun m x =>
       if truthy (sw_enabled x)
       then store_word m (sw_addr x) (sw_instruction x)
       else m)
    b m.


(** ** Attaching and detaching

    The functions that attach to and detach from the tracee make requests
    that the run/stop functions never make: ptrace(2) with PTRACE_TRACEME,
    PTRACE_ATTACH and PTRACE_DETACH, and kill(2).  They are added on top of
    the requests above; a kernel that answers all of them answers in
    particular the ones above. *)

Section LifecycleRequests.
Context {T : Target}.

Inductive lifecycle_request : Type :=
| Core (q : request)
| PTRACE_TRACEME
| PTRACE_ATTACH (pid : Z)
| PTRACE_DETACH (tid : Z)
| KILL (pid sig : Z).

End LifecycleRequests.

Class LifecycleKernel {T : Target} : Type := {
  lifecycle_kernel : Type;
  lifecycle_sys :
    lifecycle_request -> lifecycle_kernel -> reply * lifecycle_kernel
}.

Definition core_kernel {T : Target} (L : LifecycleKernel) : Kernel := {|
  kernel := lifecycle_kernel;
  sys := fun q => lifecycle_sys (Core q)
|}.

Definition SIGKILL : Z := 9.
Definition SIGCONT : Z := 18.

Declare Scope lifecycle_scope.
Delimit Scope lifecycle_scope with lifecycle.

Section Lifecycle.
Context {T : Target} {L : LifecycleKernel}.
#[local] Existing Instance core_kernel.

Definition LM (A : Type) : Type :=
  lifecycle_kernel -> A * lifecycle_kernel * list lifecycle_request.

Definition lret {A : Type} (a : A) : LM A := fun k => (a, k, []).

Definition lbind {A B : Type} (m : LM A) (f : A -> LM B) : LM B :=
  fun k =>
    let '(a, k1, t1) := m k in
    let '(b, k2, t2) := f a k1 in
    (b, k2, t1 ++ t2).

Definition lcall (q : lifecycle_request) : LM reply :=
  fun k => let '(r, k') := lifecycle_sys q k in (r, k', [q]).

(** A computation of the run/stop layer, run on the same kernel. *)
Definition lift {A : Type} (m : M A) : LM A :=
  fun k => let '(a, k', t) := m k in (a, k', map Core t).

Definition lresult {A : Type}
  (x : A * lifecycle_kernel * list lifecycle_request) : A := fst (fst x).
Definition lfinal {A : Type}
  (x : A * lifecycle_kernel * list lifecycle_request) : lifecycle_kernel :=
  snd (fst x).
Definition ltrace {A : Type}
  (x : A * lifecycle_kernel * list lifecycle_request)
  : list lifecycle_request := snd x.

Notation "x <- m ;; f" := (lbind m (fun x => f))
  (at level 61, m at next level, right associativity) : lifecycle_scope.
Notation "' pat <- m ;; f" := (lbind m (fun x => match x with pat => f end))
  (at level 61, pat pattern, m at next level, right associativity)
  : lifecycle_scope.
Notation "m ;; f" := (lbind m (fun _ => f))
  (at level 61, right associativity) : lifecycle_scope.
Local Open Scope lifecycle_scope.

Definition ptrace_trace_me : LM Z :=
  r <- lcall PTRACE_TRACEME ;; lret (r_ret r).

Definition ptrace_attach (pid : Z) : LM Z :=
  r <- lcall (PTRACE_ATTACH pid) ;; lret (r_ret r).

(** The loop of [ptrace_detach_for_kill]; [waitpid] is called with a NULL
    status pointer, so what it would store is dropped. *)
Fixpoint detach_for_kill_threads (pid : Z) (t : list thread)
  : LM (list thread) :=
  match t with
  | [] => lret []
  | t0 :: t' =>
      '(r, regs) <- lift (getregs (t_tid t0) (t_regs t0)) ;;
      (if truthy r
       then lift (tgkill pid (t_tid t0) SIGSTOP) ;;
            lift (waitpid (t_tid t0) 0 0) ;;
            lret tt
       else lret tt) ;;
      d <- lcall (PTRACE_DETACH (t_tid t0)) ;;
      (if truthy (r_ret d)
       then lift (fprintf_stderr "ptrace_detach failed for thread %d: %s")
       else lret tt) ;;
      lift (tgkill pid (t_tid t0) SIGKILL) ;;
      l <- detach_for_kill_threads pid t' ;;
      lret (set_regs t0 regs :: l)
  end.

Definition ptrace_detach_for_kill (state : global_state) (pid : Z)
  : LM global_state :=
  l <- detach_for_kill_threads pid (t_HEAD state) ;;
  lift (waitpid pid 0 0) ;;
  lret (set_t_HEAD state l).

(** The loop of [ptrace_detach_for_migration]. *)
Fixpoint detach_for_migration_threads (pid : Z) (t : list thread) : LM unit :=
  match t with
  | [] => lret tt
  | t0 :: t' =>
      r <- lift (setregs (t_tid t0) (t_regs t0)) ;;
      (if truthy r
       then lift (tgkill pid (t_tid t0) SIGSTOP) ;;
            lift (waitpid (t_tid t0) 0 0) ;;
            lift (setregs (t_tid t0) (t_regs t0)) ;;
            lret tt
       else lret tt) ;;
      lift (tgkill pid (t_tid t0) SIGSTOP) ;;
      d <- lcall (PTRACE_DETACH (t_tid t0)) ;;
      (if truthy (r_ret d)
       then lift (fprintf_stderr "ptrace_detach failed for thread %d: %s")
       else lret tt) ;;
      detach_for_migration_threads pid t'
  end.

Definition ptrace_detach_for_migration (state : global_state) (pid : Z)
  : LM unit :=
  detach_for_migration_threads pid (t_HEAD state).

(** The loop of [ptrace_reattach_from_gdb]. *)
Fixpoint reattach_threads (t : list thread) : LM (list thread) :=
  match t with
  | [] => lret []
  | t0 :: t' =>
      a <- lcall (PTRACE_ATTACH (t_tid t0)) ;;
      (if truthy (r_ret a)
       then lift (fprintf_stderr "ptrace_attach failed for thread %d: %s")
       else lret tt) ;;
      '(r, regs) <- lift (getregs (t_tid t0) (t_regs t0)) ;;
      (if truthy r
       then lift (fprintf_stderr "ptrace_getregs failed for thread %d: %s")
       else lret tt) ;;
      l <- reattach_threads t' ;;
      lret (set_regs t0 regs :: l)
  end.

Definition ptrace_reattach_from_gdb (state : global_state) (pid : Z)
  : LM global_state :=
  l <- reattach_threads (t_HEAD state) ;;
  lret (set_t_HEAD state l).

Definition ptrace_detach_and_cont (state : global_state) (pid : Z) : LM unit :=
  ptrace_detach_for_migration state pid ;;
  lcall (KILL pid SIGCONT) ;;
  lret tt.

(** *** Vocabulary for their traces *)

Definition is_detach_or_kill (q : lifecycle_request) : bool :=
  match q with
  | PTRACE_DETACH _ => true
  | Core (TGKILL _ _ sig) => sig =? SIGKILL
  | _ => false
  end.

(** The kernel after it has served the requests of [tr], in order. *)
Definition lreplay (tr : list lifecycle_request) (k : lifecycle_kernel)
  : lifecycle_kernel :=
  fold_left (fun k q => snd (lifecycle_sys q k)) tr k.

(** The kernel in state [k] answers the request with a non-zero value. *)
Definition refused (q : lifecycle_request) (k : lifecycle_kernel) : bool :=
  truthy (r_ret (fst (lifecycle_sys q k))).

(** The requests made for the threads of a list, one after the other, when
    [f t k] are the requests for the thread [t] met with the kernel in
    state [k]: each thread meets the kernel as the requests for the threads
    before it have left it. *)
Fixpoint served_in_turn
  (f : thread -> lifecycle_kernel -> list lifecycle_request)
  (ts : list thread) (k : lifecycle_kernel) : list lifecycle_request :=
  match ts with
  | [] => []
  | t :: ts' => f t k ++ served_in_turn f ts' (lreplay (f t k) k)
  end.

(** What [ptrace_detach_for_migration] asks for one thread: the register
    write, and when that is refused a SIGSTOP, a wait and the register
    write again; then a SIGSTOP and the detach; then the diagnostic when
    the detach is refused. *)
Definition migration_requests (pid : Z) (t : thread) (k : lifecycle_kernel)
  : list lifecycle_request :=
  let write := Core (flush_request t) in
  let stop := Core (TGKILL pid (t_tid t) SIGSTOP) in
  let detach := PTRACE_DETACH (t_tid t) in
  let flush :=
    if refused write k
    then [write; stop; Core (WAITPID (t_tid t) 0); write]
    else [write] in
  flush ++ [stop; detach]
  ++ (if refused detach (lreplay (flush ++ [stop]) k)
      then [Core (STDERR "ptrace_detach failed for thread %d: %s")]
      else []).

(** What [ptrace_reattach_from_gdb] asks for one thread: the attach, with
    the diagnostic when it is refused, and the register read, with the
    diagnostic when it is refused. *)
Definition reattach_requests (t : thread) (k : lifecycle_kernel)
  : list lifecycle_request :=
  let attach := PTRACE_ATTACH (t_tid t) in
  let read := Core (PTRACE_GETREGS (t_tid t)) in
  let attached :=
    attach :: (if refused attach k
               then [Core (STDERR "ptrace_attach failed for thread %d: %s")]
               else []) in
  attached ++ read
  :: (if refused read (lreplay attached k)
      then [Core (STDERR "ptrace_getregs failed for thread %d: %s")]
      else []).

End Lifecycle.

(** ** A tracee whose threads report to the process group *)

(** The simulated tracee together with a queue of (tid, status) reports.
    A wait on the process group (a negative pid) takes the next report, the
    thread of which is stopped from then on, or finds none (0 with WNOHANG,
    -1 otherwise).  SIGSTOP sent with [tgkill] stops the thread, and a wait
    on a single thread gives the status 4991 when the thread is stopped and
    fails otherwise.  Every other request is served as by [sim_sys]. *)
Record group_sim : Type := {
  g_sim : sim;
  g_reports : list (Z * Z)
}.

Definition group_pass (q : @request amd64) (k : group_sim)
  : @reply amd64 * group_sim :=
  (fst (sim_sys q (g_sim k)),
   {| g_sim := snd (sim_sys q (g_sim k)); g_reports := g_reports k |}).

Definition group_stop (tid : Z) (reports : list (Z * Z)) (k : group_sim)
  : group_sim :=
  {| g_sim := {| sim_mem := sim_mem (g_sim k); sim_user := sim_user (g_sim k);
                 sim_regs := sim_regs (g_sim k);
                 sim_stopped := upd (sim_stopped (g_sim k)) tid true |};
     g_reports := reports |}.

Definition group_sys (q : @request amd64) (k : group_sim)
  : @reply amd64 * group_sim :=
  match q with
  | WAITPID pid options =>
      if pid <? 0 then
        match g_reports k with
        | (tid, status) :: rest => (ok_status tid status, group_stop tid rest k)
        | [] => (ok (if options =? WNOHANG then 0 else -1), k)
        end
      else if sim_stopped (g_sim k) pid then (ok_status pid 4991, k)
      else (ok (-1), k)
  | TGKILL _ tid sig =>
      (ok 0, if sig =? SIGSTOP then group_stop tid (g_reports k) k else k)
  | _ => group_pass q k
  end.

Definition group_kernel : @Kernel amd64 := {|
  kernel := group_sim;
  sys := group_sys
|}.

Definition group_mem (k : group_sim) : memory := sim_mem (g_sim k).

Section ConcreteStatesRest.
#[local] Existing Instance amd64.
#[local] Existing Instance sim_kernel.

(** Thread 100 with signal 10 pending and thread 101 with none. *)
Definition pending_signal_state : global_state :=
  mk_state
    [ {| t_tid := 100; t_regs := {| rip := 4096; rax := 0 |};
         t_fpregs := {| fp_type := 0 |}; t_signal_to_forward := 10 |};
      mk_thread 101 4097 ] [].

(** Hardware breakpoints registered for thread 100 at 8192 and at 8200, and
    the first one unregistered again: DR0 is free, DR1 is in use. *)
Definition second_slot_in_use : global_state * kernel * list request :=
  (s1 <- register_hw_breakpoint (mk_state [mk_thread 100 4096] [])
                                100 8192 (120, 0) 1 ;;
   s2 <- register_hw_breakpoint s1 100 8200 (119, 0) 8 ;;
   unregister_hw_breakpoint s2 100 8192) nops.


(** Threads 101 and 100, in this order, and an enabled breakpoint at
    4200. *)
Definition two_threads_one_breakpoint : global_state :=
  mk_state [mk_thread 101 4097; mk_thread 100 4096] [mk_sw 4200 1].

(** The tracee after [cont_all_and_set_bps] on that state, with a report
    of thread 100 queued. *)
Definition running_group : group_sim := {|
  g_sim := final (cont_all_and_set_bps two_threads_one_breakpoint 100 nops);
  g_reports := [(100, 1407)]
|}.

End ConcreteStatesRest.
(** * Properties *)

(** ** Running computations *)

Section Running.
Context {T : Target} {K : Kernel}.

Lemma result_ret {A : Type} (a : A) k : result (ret a k) = a.
Proof. reflexivity. Qed.

Lemma final_ret {A : Type} (a : A) k : final (ret a k) = k.
Proof. reflexivity. Qed.

Lemma trace_ret {A : Type} (a : A) k : trace (ret a k) = [].
Proof. reflexivity. Qed.

Lemma run_bind {A B : Type} (m : M A) (f : A -> M B) k :
  bind m f k =
  (result (f (result (m k)) (final (m k))),
   final (f (result (m k)) (final (m k))),
   trace (m k) ++ trace (f (result (m k)) (final (m k)))).
Proof.
  unfold bind, result, final, trace.
  destruct (m k) as [[a k1] t1]; simpl.
  destruct (f a k1) as [[b k2] t2]; reflexivity.
Qed.

Lemma result_bind {A B : Type} (m : M A) (f : A -> M B) k :
  result (bind m f k) = result (f (result (m k)) (final (m k))).
Proof. rewrite run_bind; reflexivity. Qed.

Lemma final_bind {A B : Type} (m : M A) (f : A -> M B) k :
  final (bind m f k) = final (f (result (m k)) (final (m k))).
Proof. rewrite run_bind; reflexivity. Qed.

Lemma trace_bind {A B : Type} (m : M A) (f : A -> M B) k :
  trace (bind m f k) = trace (m k) ++ trace (f (result (m k)) (final (m k))).
Proof. rewrite run_bind; reflexivity. Qed.

Lemma run_call q k : call q k = (fst (sys q k), snd (sys q k), [q]).
Proof. unfold call; destruct (sys q k); reflexivity. Qed.

Lemma result_call q k : result (call q k) = fst (sys q k).
Proof. rewrite run_call; reflexivity. Qed.

Lemma final_call q k : final (call q k) = snd (sys q k).
Proof. rewrite run_call; reflexivity. Qed.

Lemma trace_call q k : trace (call q k) = [q].
Proof. rewrite run_call; reflexivity. Qed.

Lemma run_waitpid pid status options k :
  waitpid pid status options k
  = ((r_ret (fst (sys (WAITPID pid options) k)),
      match r_status (fst (sys (WAITPID pid options) k)) with
      | Some s => s
      | None => status
      end),
     snd (sys (WAITPID pid options) k), [WAITPID pid options]).
Proof. unfold waitpid; rewrite run_bind, run_call; reflexivity. Qed.

Lemma run_getregs tid regs k :
  getregs tid regs k
  = ((r_ret (fst (sys (PTRACE_GETREGS tid) k)),
      match r_regs (fst (sys (PTRACE_GETREGS tid) k)) with
      | Some v => v
      | None => regs
      end),
     snd (sys (PTRACE_GETREGS tid) k), [PTRACE_GETREGS tid]).
Proof. unfold getregs; rewrite run_bind, run_call; reflexivity. Qed.

Lemma run_setregs tid regs k :
  setregs tid regs k
  = (r_ret (fst (sys (PTRACE_SETREGS tid regs) k)),
     snd (sys (PTRACE_SETREGS tid regs) k), [PTRACE_SETREGS tid regs]).
Proof. unfold setregs; rewrite run_bind, run_call; reflexivity. Qed.

Lemma run_stderr msg k :
  perror msg k = (tt, snd (sys (STDERR msg) k), [STDERR msg]).
Proof. unfold perror; rewrite run_bind, run_call; reflexivity. Qed.

End Running.

Create Rewrite HintDb run.
#[global] Hint Rewrite @result_ret @final_ret @trace_ret @result_bind @final_bind
  @trace_bind @result_call @final_call @trace_call : run.

Ltac run := autorewrite with run.

(** ** Words in byte-addressed memory *)

Section Memory.

Lemma le_combine_split n w : le_combine (le_split n w) = w mod 256 ^ Z.of_nat n.
Proof.
  revert w; induction n as [|n IH]; intros w.
  - simpl; rewrite Z.mod_1_r; reflexivity.
  - cbn [le_split le_combine]; rewrite IH.
    rewrite Nat2Z.inj_succ.
    rewrite Z.pow_succ_r by lia.
    rewrite Z.rem_mul_r by lia.
    rewrite Z.mod_mod by lia; reflexivity.
Qed.

Lemma store_word_inside m a w i :
  (i < 8)%nat -> store_word m a w (a + Z.of_nat i) = nth i (le_split 8 w) 0.
Proof.
  intros Hi; unfold store_word.
  replace ((a <=? a + Z.of_nat i) && (a + Z.of_nat i <? a + 8)) with true
    by (symmetry; apply andb_true_iff; split;
        [apply Z.leb_le | apply Z.ltb_lt]; lia).
  replace (a + Z.of_nat i - a) with (Z.of_nat i) by lia.
  rewrite Nat2Z.id; reflexivity.
Qed.

Lemma store_word_outside m a w x :
  x < a \/ a + 8 <= x -> store_word m a w x = m x.
Proof.
  intros Hx; unfold store_word.
  destruct (Z.leb_spec a x); destruct (Z.ltb_spec x (a + 8)); simpl;
    try reflexivity; lia.
Qed.

Lemma load_word_ext m m' a :
  (forall i, (i < 8)%nat -> m (a + Z.of_nat i) = m' (a + Z.of_nat i)) ->
  load_word m a = load_word m' a.
Proof.
  intros H; unfold load_word; f_equal.
  apply map_ext_in; intros i Hi; apply H.
  apply in_seq in Hi; lia.
Qed.

Lemma load_store_same m a w :
  0 <= w < 2 ^ 64 -> load_word (store_word m a w) a = w.
Proof.
  intros Hw; unfold load_word.
  rewrite (map_ext_in _ (fun i => nth i (le_split 8 w) 0)).
  - change (map (fun i => nth i (le_split 8 w) 0) (seq 0 8))
      with (le_split 8 w).
    rewrite le_combine_split. apply Z.mod_small.
    change (256 ^ Z.of_nat 8) with (2 ^ 64); exact Hw.
  - intros i Hi; apply store_word_inside. apply in_seq in Hi; lia.
Qed.

Lemma store_word_ext m m' a w x :
  m x = m' x -> store_word m a w x = store_word m' a w x.
Proof.
  intros H; unfold store_word; destruct (_ && _); [reflexivity|exact H].
Qed.





End Memory.

(** ** The software-breakpoint list *)

Section SwList.

Lemma enable_existing_addrs b address l :
  enable_existing b address = Some l -> map sw_addr l = map sw_addr b.
Proof.
  revert l; induction b as [|b0 b' IH]; intros l H; simpl in H.
  - discriminate.
  - destruct (sw_addr b0 =? address).
    + inversion H; reflexivity.
    + destruct (enable_existing b' address) as [l'|]; simpl in H;
        [|discriminate].
      inversion H; simpl; f_equal; apply IH; reflexivity.
Qed.

Lemma enable_existing_none b address :
  enable_existing b address = None ->
  forall x, In x b -> sw_addr x <> address.
Proof.
  induction b as [|b0 b' IH]; intros H x Hx; simpl in *.
  - contradiction.
  - destruct (Z.eqb_spec (sw_addr b0) address) as [E|E]; [discriminate|].
    destruct (enable_existing b' address) eqn:E'; simpl in H; [discriminate|].
    destruct Hx as [<-|Hx]; auto.
Qed.

Lemma enable_existing_some b address :
  (exists x, In x b /\ sw_addr x = address) ->
  exists l1 x l2,
    b = l1 ++ x :: l2 /\ sw_addr x = address /\
    (forall y, In y l1 -> sw_addr y <> address) /\
    enable_existing b address = Some (l1 ++ set_sw_enabled x 1 :: l2).
Proof.
  induction b as [|b0 b' IH]; intros [x [Hx Ha]]; simpl in *.
  - contradiction.
  - destruct (Z.eqb_spec (sw_addr b0) address) as [E|E].
    + exists [], b0, b'; simpl; repeat split; auto; contradiction.
    + destruct Hx as [->|Hx]; [contradiction|].
      destruct IH as (l1 & y & l2 & -> & Hy & Hl1 & ->); [eauto|].
      exists (b0 :: l1), y, l2; simpl; repeat split; auto.
      intros z [<-|Hz]; auto.
Qed.

Lemma HdRel_link_after a next b :
  a < sw_addr b -> HdRel Z.lt a (map sw_addr next) ->
  HdRel Z.lt a (map sw_addr (link_after next b)).
Proof.
  intros Hab H; destruct next as [|n next']; simpl.
  - constructor; assumption.
  - destruct (sw_addr n <? sw_addr b); simpl.
    + inversion H; constructor; assumption.
    + constructor; assumption.
Qed.

Lemma link_after_sorted next b :
  sw_sorted next -> (forall x, In x next -> sw_addr x <> sw_addr b) ->
  sw_sorted (link_after next b).
Proof.
  unfold sw_sorted; induction next as [|n next' IH]; intros Hs Hne; simpl.
  - repeat constructor.
  - apply Sorted_inv in Hs; destruct Hs as [Hs Hd].
    destruct (Z.ltb_spec (sw_addr n) (sw_addr b)) as [L|L]; simpl.
    + constructor.
      * apply IH; [assumption | intros x Hx; apply Hne; right; assumption].
      * apply HdRel_link_after; assumption.
    + constructor.
      * constructor; assumption.
      * constructor. specialize (Hne n (or_introl eq_refl)). lia.
Qed.

Lemma insert_ordered_sorted head b :
  sw_sorted head -> (forall x, In x head -> sw_addr x <> sw_addr b) ->
  sw_sorted (insert_ordered head b).
Proof.
  intros Hs Hne; destruct head as [|h tl]; simpl.
  - repeat constructor.
  - destruct (Z.gtb_spec (sw_addr h) (sw_addr b)) as [G|G].
    + constructor; [exact Hs | constructor; lia].
    + pose proof (link_after_sorted (h :: tl) b Hs Hne) as H.
      simpl in H.
      destruct (Z.ltb_spec (sw_addr h) (sw_addr b)) as [L|L]; [exact H|].
      specialize (Hne h (or_introl eq_refl)). lia.
Qed.

Lemma HdRel_unlink a b address :
  Sorted Z.lt (a :: map sw_addr b) ->
  HdRel Z.lt a (map sw_addr (unlink_breakpoint b address)).
Proof.
  intros Hs.
  apply Sorted_StronglySorted in Hs; [|exact Z.lt_trans].
  apply StronglySorted_inv in Hs; destruct Hs as [_ Hall].
  destruct (unlink_breakpoint b address) as [|x l] eqn:E; simpl; constructor.
  rewrite Forall_forall in Hall; apply Hall.
  assert (Hin : forall y, In y (unlink_breakpoint b address) -> In y b).
  { clear; induction b as [|b0 b' IH]; simpl; intros y Hy; [contradiction|].
    destruct (sw_addr b0 =? address); [right; assumption|].
    destruct Hy as [<-|Hy]; auto. }
  apply in_map, Hin; rewrite E; left; reflexivity.
Qed.

Lemma unlink_breakpoint_sorted b address :
  sw_sorted b -> sw_sorted (unlink_breakpoint b address).
Proof.
  unfold sw_sorted; induction b as [|b0 b' IH]; intros Hs; simpl.
  - constructor.
  - pose proof Hs as Hs0.
    apply Sorted_inv in Hs; destruct Hs as [Hs Hd].
    destruct (sw_addr b0 =? address); [assumption|].
    simpl; constructor; [apply IH; assumption|].
    apply HdRel_unlink; assumption.
Qed.

Lemma unlink_breakpoint_first l1 x l2 address :
  sw_addr x = address -> (forall y, In y l1 -> sw_addr y <> address) ->
  unlink_breakpoint (l1 ++ x :: l2) address = l1 ++ l2.
Proof.
  intros Hx; induction l1 as [|y l1 IH]; intros Hl1; simpl.
  - destruct (Z.eqb_spec (sw_addr x) address); [reflexivity|contradiction].
  - destruct (Z.eqb_spec (sw_addr y) address) as [E|E].
    + exfalso; apply (Hl1 y); [left; reflexivity|assumption].
    + f_equal; apply IH; intros z Hz; apply Hl1; right; assumption.
Qed.

Lemma map_toggle_addrs b address e :
  map sw_addr
    (map (fun x => if sw_addr x =? address then set_sw_enabled x e else x) b)
  = map sw_addr b.
Proof.
  rewrite map_map; apply map_ext; intros x.
  destruct (sw_addr x =? address); reflexivity.
Qed.

Lemma sorted_addrs_NoDup b : sw_sorted b -> NoDup (map sw_addr b).
Proof.
  unfold sw_sorted; intros Hs.
  apply Sorted_StronglySorted in Hs; [|exact Z.lt_trans].
  induction Hs as [|a l Hs IH Hall]; constructor; [|assumption].
  intros Hin; rewrite Forall_forall in Hall; specialize (Hall a Hin); lia.
Qed.

End SwList.

(** ** Thread table and breakpoint tables *)

Section Tables.
Context {T : Target} {K : Kernel}.

Lemma set_t_HEAD_same (state : global_state) :
  set_t_HEAD state (t_HEAD state) = state.
Proof. destruct state; reflexivity. Qed.

Lemma thread_index_some (l : list thread) tid :
  (exists t, In t l /\ t_tid t = tid) ->
  exists i t, thread_index l tid = Some i /\ nth_error l i = Some t /\
              t_tid t = tid.
Proof.
  induction l as [|t0 l IH]; intros [t [Hin Ht]]; simpl in *.
  - contradiction.
  - destruct (Z.eqb_spec (t_tid t0) tid) as [E|E].
    + exists O, t0; auto.
    + destruct Hin as [->|Hin]; [contradiction|].
      destruct IH as (i & t' & -> & Hn & Ht'); [eauto|].
      exists (S i), t'; auto.
Qed.

(** C6.  When [tid] is already in the live list, [register_thread] returns
    the position of the existing entry (the reference to its cached register
    block), leaves the state as it is (no new entry), and issues no request
    to the kernel: in particular no [PTRACE_GETREGS]. *)
Theorem register_thread_idempotent (state : global_state) (tid : Z) (k : kernel) :
  (exists t, In t (t_HEAD state) /\ t_tid t = tid) ->
  exists i t,
    nth_error (t_HEAD state) i = Some t /\ t_tid t = tid /\
    register_thread state tid k = ((i, state), k, []).
Proof.
  intros H.
  destruct (thread_index_some _ _ H) as (i & t & Hi & Hn & Ht).
  exists i, t; repeat split; try assumption.
  unfold register_thread; rewrite Hi; reflexivity.
Qed.

(** Calling [register_thread] a second time with the same tid changes
    nothing and asks the kernel nothing, whatever the first call did. *)
Lemma register_thread_again (state : global_state) (tid : Z) (k : kernel) :
  let first := register_thread state tid k in
  register_thread (snd (result first)) tid (final first)
  = (result first, final first, []).
Proof.
  unfold register_thread.
  destruct (thread_index (t_HEAD state) tid) as [i|] eqn:E.
  - cbn. rewrite E. reflexivity.
  - cbv zeta. cbn [t_regs]. rewrite run_bind.
    destruct (getregs tid indeterminate_regs k) as [[[r v] k1] t1]; cbn.
    rewrite Z.eqb_refl. reflexivity.
Qed.

(** C10.  [register_breakpoint] at an address that already has an entry
    peeks the word at the address and pokes the patched word, but in the
    list it only sets the [enabled] flag of the first entry at that address:
    that entry keeps its [instruction] and [patched_instruction], and every
    other entry is left as it was. *)
Theorem register_breakpoint_existing_keeps_words (state : global_state)
  (pid address : Z) (k : kernel) :
  (exists x, In x (sw_b_HEAD state) /\ sw_addr x = address) ->
  exists l1 x x' l2,
    sw_b_HEAD state = l1 ++ x :: l2 /\
    sw_addr x = address /\
    (forall y, In y l1 -> sw_addr y <> address) /\
    result (register_breakpoint state pid address k)
    = set_sw_b_HEAD state (l1 ++ x' :: l2) /\
    sw_addr x' = sw_addr x /\
    sw_instruction x' = sw_instruction x /\
    sw_patched_instruction x' = sw_patched_instruction x /\
    sw_enabled x' = 1 /\
    trace (register_breakpoint state pid address k)
    = let instruction :=
        to_uint64 (r_ret (fst (sys (PTRACE_PEEKDATA pid address) k))) in
      [PTRACE_PEEKDATA pid address;
       PTRACE_POKEDATA pid address (to_uint64 (INSTALL_BREAKPOINT instruction))].
Proof.
  intros H.
  destruct (enable_existing_some _ _ H) as (l1 & x & l2 & Hl & Hx & Hl1 & He).
  exists l1, x, (set_sw_enabled x 1), l2.
  unfold register_breakpoint; rewrite He.
  repeat split; try assumption; run; reflexivity.
Qed.

(** C7.  [unregister_breakpoint] takes the first entry at [address] out of
    the list and issues no request at all: the kernel, and with it every
    word of tracee memory as [ptrace_peekdata] reads it, is what it was
    before the call, whether the entry was enabled or not. *)
Theorem unregister_breakpoint_leaves_memory (state : global_state)
  (address : Z) (k : kernel) l1 x l2 :
  sw_b_HEAD state = l1 ++ x :: l2 ->
  sw_addr x = address ->
  (forall y, In y l1 -> sw_addr y <> address) ->
  let out := unregister_breakpoint state address k in
  result out = set_sw_b_HEAD state (l1 ++ l2) /\
  final out = k /\
  trace out = [] /\
  forall pid a, ptrace_peekdata pid a (final out) = ptrace_peekdata pid a k.
Proof.
  intros Hl Hx Hl1; unfold unregister_breakpoint; cbn.
  rewrite Hl, unlink_breakpoint_first by assumption.
  repeat split.
Qed.

(** An address without an entry: nothing changes at all. *)
Lemma unregister_breakpoint_absent (state : global_state) (address : Z)
  (k : kernel) :
  (forall y, In y (sw_b_HEAD state) -> sw_addr y <> address) ->
  unregister_breakpoint state address k = (state, k, []).
Proof.
  intros H; unfold unregister_breakpoint, ret.
  replace (unlink_breakpoint (sw_b_HEAD state) address) with (sw_b_HEAD state).
  - destruct state; reflexivity.
  - induction (sw_b_HEAD state) as [|b0 b' IH]; simpl; [reflexivity|].
    destruct (Z.eqb_spec (sw_addr b0) address) as [E|E].
    + exfalso; apply (H b0); [left; reflexivity|assumption].
    + f_equal; apply IH; intros y Hy; apply H; right; assumption.
Qed.

Lemma apply_op_sorted (state : global_state) (o : sw_op) (k : kernel) :
  sw_sorted (sw_b_HEAD state) ->
  sw_sorted (sw_b_HEAD (result (apply_op state o k))).
Proof.
  intros Hs; destruct o as [pid address|address|address|address]; simpl.
  - unfold register_breakpoint; run.
    destruct (enable_existing (sw_b_HEAD state) address) as [l|] eqn:E; run; simpl.
    + unfold sw_sorted; rewrite (enable_existing_addrs _ _ _ E); exact Hs.
    + apply insert_ordered_sorted; [exact Hs|].
      simpl; apply enable_existing_none; exact E.
  - apply unlink_breakpoint_sorted; exact Hs.
  - unfold sw_sorted; cbn; rewrite map_toggle_addrs; exact Hs.
  - unfold sw_sorted; cbn; rewrite map_toggle_addrs; exact Hs.
Qed.

(** C5.  Whatever sequence of [register_breakpoint], [unregister_breakpoint],
    [enable_breakpoint] and [disable_breakpoint] calls is made, and whatever
    the kernel answers, a list in strictly ascending order of address stays
    so; in particular its addresses are pairwise distinct. *)
Theorem sw_list_stays_sorted (ops : list sw_op) (state : global_state)
  (k : kernel) :
  sw_sorted (sw_b_HEAD state) ->
  sw_sorted (sw_b_HEAD (result (apply_ops ops state k))) /\
  NoDup (map sw_addr (sw_b_HEAD (result (apply_ops ops state k)))).
Proof.
  intros Hs.
  assert (H : sw_sorted (sw_b_HEAD (result (apply_ops ops state k)))).
  { revert state k Hs; induction ops as [|o ops IH]; intros state k Hs; simpl.
    - exact Hs.
    - run; apply IH, apply_op_sorted, Hs. }
  split; [exact H | apply sorted_addrs_NoDup, H].
Qed.

End Tables.

(** ** Boundary and error paths *)

Section Boundaries.
Context {T : Target} {K : Kernel}.

(** C9.  When the first, blocking [waitpid] of [wait_all_and_update_regs]
    returns -1, the function returns [NULL] and the state as it was; the
    requests it issued are [getpgid], that [waitpid] and the diagnostic, so
    no [tgkill], no [PTRACE_GETREGS] and no [PTRACE_POKEDATA]. *)
Theorem wait_all_and_update_regs_wait_fails (fuel : nat)
  (state : global_state) (pid : Z) (k : kernel) :
  let g := sys (GETPGID pid) k in
  let w := sys (WAITPID (- r_ret (fst g)) 0) (snd g) in
  r_ret (fst w) = -1 ->
  wait_all_and_update_regs fuel state pid k
  = (Some (None, state),
     snd (sys (STDERR "waitpid") (snd w)),
     [GETPGID pid; WAITPID (- r_ret (fst g)) 0; STDERR "waitpid"]).
Proof.
  cbv zeta; intros H.
  unfold wait_all_and_update_regs, getpgid, waitpid, perror, bind, call, ret.
  destruct (sys (GETPGID pid) k) as [g k1]; cbn [fst snd] in *.
  destruct (sys (WAITPID (- r_ret g) 0) k1) as [w k2]; cbn [fst snd] in *.
  rewrite H; cbn.
  destruct (sys (STDERR "waitpid") k2) as [e k3]; reflexivity.
Qed.

Lemma step_until_flush_trace (l : list thread) tid i acc k :
  Forall is_flush (trace (step_until_flush l tid i acc k)).
Proof.
  revert i acc k; induction l as [|t0 l IH]; intros i acc k; simpl.
  - constructor.
  - unfold setregs, perror; run.
    repeat (apply Forall_app; split); try (repeat constructor; fail);
      try apply IH.
    destruct (truthy _); run; repeat constructor.
Qed.

Lemma step_until_flush_found (l : list thread) tid i acc k j t :
  result (step_until_flush l tid i acc k) = Some (j, t) ->
  acc = Some (j, t) \/
  exists n, j = (i + n)%nat /\ nth_error l n = Some t.
Proof.
  revert i acc k; induction l as [|t0 l IH]; intros i acc k; simpl.
  - intros H; left; exact H.
  - run; intros H; apply IH in H; destruct H as [H|(n & -> & Hn)].
    + destruct (t_tid t0 =? tid); [|left; exact H].
      inversion H; subst; right; exists O; split; [lia|reflexivity].
    + right; exists (S n); split; [lia|exact Hn].
Qed.

Lemma step_until_flush_some (l : list thread) tid i acc k :
  (exists t, In t l /\ t_tid t = tid) ->
  exists j t, result (step_until_flush l tid i acc k) = Some (j, t).
Proof.
  revert i acc k; induction l as [|t0 l IH]; intros i acc k [t [Hin Ht]];
    simpl in *.
  - contradiction.
  - run.
    assert (Hacc : forall l i k j t,
               exists j' t', result (step_until_flush l tid i (Some (j, t)) k)
                             = Some (j', t')).
    { clear; induction l as [|t0 l IH]; intros i k j t; simpl;
        [do 2 eexists; reflexivity|].
      run; destruct (t_tid t0 =? tid); apply IH. }
    destruct (Z.eqb_spec (t_tid t0) tid) as [E|E].
    + apply Hacc.
    + destruct Hin as [->|Hin]; [contradiction|]. apply IH; eauto.
Qed.

Lemma update_thread_same (l : list thread) i t :
  nth_error l i = Some t ->
  update_thread i (fun t' => set_regs t' (t_regs t)) l = l.
Proof.
  revert i; induction l as [|t0 l IH]; intros [|i] H; simpl in *;
    try discriminate.
  - inversion H; subst; destruct t; reflexivity.
  - f_equal; apply IH; exact H.
Qed.

(** C8.  With [max_steps = 0] and a registered [tid], [step_until] returns 0
    whether or not the cached instruction pointer equals [addr]; past the
    register flush it issues no request (no single step, no wait, no
    register read) and the state is unchanged. *)
Theorem step_until_zero_steps (fuel : nat) (state : global_state)
  (tid addr : Z) (k : kernel) :
  (exists t, In t (t_HEAD state) /\ t_tid t = tid) ->
  let out := step_until fuel state tid addr 0 k in
  result out = Some (0, state) /\
  final out = final (step_until_flush (t_HEAD state) tid O None k) /\
  trace out = trace (step_until_flush (t_HEAD state) tid O None k) /\
  Forall is_flush (trace out).
Proof.
  intros H; cbv zeta.
  destruct (step_until_flush_some _ _ O None k H) as (j & t & Hr).
  assert (Hn : nth_error (t_HEAD state) j = Some t).
  { destruct (step_until_flush_found _ _ _ _ _ _ _ Hr) as [?|(n & -> & Hn)];
      [discriminate | exact Hn]. }
  assert (Hl : step_until_loop fuel tid addr 0 0 0 (t_regs t)
               = ret (Some (0, t_regs t))).
  { destruct fuel; reflexivity. }
  unfold step_until; run; rewrite Hr, Hl; run.
  rewrite (update_thread_same _ _ _ Hn), set_t_HEAD_same, app_nil_r.
  repeat split; apply step_until_flush_trace.
Qed.

(** The scan of DR0..DR3 gives an index between where it starts and where
    it must stop. *)
Lemma find_free_debug_register_range tid n i k :
  i <= result (find_free_debug_register tid n i k) <= i + Z.of_nat n.
Proof.
  revert i k; induction n as [|n IH]; intros i k.
  - simpl; run; lia.
  - cbn [find_free_debug_register]; run.
    destruct (negb _); run; [lia|].
    specialize (IH (i + 1) (snd (sys (PTRACE_PEEKUSER tid (DR_BASE + i * DR_SIZE)) k))).
    lia.
Qed.

Lemma find_free_debug_register_full tid n i k :
  result (find_free_debug_register tid n i k) = i + Z.of_nat n ->
  trace (find_free_debug_register tid n i k)
  = map (fun j => PTRACE_PEEKUSER tid (DR_BASE + (i + Z.of_nat j) * DR_SIZE))
        (seq 0 n).
Proof.
  revert i k; induction n as [|n IH]; intros i k.
  - reflexivity.
  - cbn [find_free_debug_register]; run.
    destruct (negb _); run; [lia|].
    intros H; cbn [seq map app]; f_equal.
    + f_equal; f_equal; lia.
    + rewrite IH by lia. rewrite <- seq_shift, map_map.
      apply map_ext; intros j; f_equal; f_equal; lia.
Qed.

(** C2 (as the code has it).  When the scan of the thread's four debug
    registers finds none free, registering a new (address, tid) pair writes
    no debug register: the only requests are the four reads and the
    diagnostic.  The list, however, has by then received the new entry, with
    [enabled] set, at its head. *)
Theorem register_hw_breakpoint_no_free_register (state : global_state)
  (tid address : Z) (type : Z * Z) (len : Z) (k : kernel) :
  existsb (fun b => (hw_addr b =? address) && (hw_tid b =? tid))
          (hw_b_HEAD state) = false ->
  result (get_remaining_hw_breakpoint_count state tid k) = 0 ->
  let out := register_hw_breakpoint state tid address type len k in
  result out
  = set_hw_b_HEAD state
      ({| hw_addr := address; hw_tid := tid; hw_enabled := 1;
          hw_type := type; hw_len := len |} :: hw_b_HEAD state) /\
  trace out
  = [PTRACE_PEEKUSER tid 848; PTRACE_PEEKUSER tid 856;
     PTRACE_PEEKUSER tid 864; PTRACE_PEEKUSER tid 872;
     STDERR "No debug registers available"].
Proof.
  intros Hnew Hfull; cbv zeta.
  unfold get_remaining_hw_breakpoint_count in Hfull; revert Hfull; run.
  intros Hfull.
  assert (Hi : result (find_free_debug_register tid 4 0 k) = 0 + Z.of_nat 4)
    by (simpl Z.of_nat; lia).
  pose proof (find_free_debug_register_full _ _ _ _ Hi) as Ht.
  unfold register_hw_breakpoint; rewrite Hnew.
  unfold install_hardware_breakpoint; cbn [hw_tid]; run.
  rewrite Hi, Ht; cbn [Z.of_nat Z.add Z.eqb Pos.eqb Pos.of_succ_nat Pos.succ].
  unfold perror; run.
  split; [destruct type; reflexivity | reflexivity].
Qed.

End Boundaries.

(** ** [prepare_for_run] *)

Section PrepareForRun.
Context {T : Target} {K : Kernel}.

Lemma sw_breakpoint_at_true b ip :
  sw_breakpoint_at b ip = true <-> exists x, In x b /\ sw_addr x = ip.
Proof.
  induction b as [|b0 b' IH]; simpl.
  - split; [discriminate | intros [x [[] _]]].
  - destruct (Z.eqb_spec (sw_addr b0) ip) as [E|E].
    + split; [eauto | reflexivity].
    + rewrite IH; split.
      * intros [x [Hx Ha]]; eauto.
      * intros [x [[->|Hx] Ha]]; [contradiction | eauto].
Qed.

Lemma flush_registers_trace (l : list thread) k :
  Forall is_flush (trace (flush_registers l k)).
Proof.
  revert k; induction l as [|t0 l IH]; intros k; simpl.
  - constructor.
  - rewrite trace_bind, run_setregs; cbn [trace result final fst snd].
    constructor; [exact I|].
    rewrite trace_bind; apply Forall_app; split; [|apply IH].
    destruct (truthy _); unfold fprintf_stderr; run; repeat constructor.
Qed.

Lemma reset_sw_breakpoints_trace pid (b : list software_breakpoint) k :
  trace (reset_sw_breakpoints pid b k) = map (poke_patched pid) (enabled_sw b).
Proof.
  revert k; induction b as [|b0 b' IH]; intros k; simpl.
  - reflexivity.
  - rewrite trace_bind, IH.
    destruct (truthy (sw_enabled b0)); run; reflexivity.
Qed.

Lemma restore_sw_breakpoints_trace pid (b : list software_breakpoint) k :
  trace (restore_sw_breakpoints pid b k) = map (poke_original pid) (enabled_sw b).
Proof.
  revert k; induction b as [|b0 b' IH]; intros k; simpl.
  - reflexivity.
  - rewrite trace_bind, IH.
    destruct (truthy (sw_enabled b0)); run; reflexivity.
Qed.

(** The loop over the threads leaves [prepare_for_run] only with -1. *)
Lemma step_over_sw_breakpoints_return sw (l : list thread) status k r :
  result (step_over_sw_breakpoints sw l status k) = Return r -> r = -1.
Proof.
  revert status k; induction l as [|t0 l IH]; intros status k; simpl.
  - run; discriminate.
  - destruct (sw_breakpoint_at sw _); [|apply IH].
    rewrite result_bind.
    destruct (truthy _); [run; intros H; inversion H; reflexivity|].
    rewrite result_bind, run_waitpid; cbn [result final fst snd].
    rewrite result_bind. apply IH.
Qed.

Lemma step_over_sw_breakpoints_trace (state : global_state)
  (l : list thread) status k s :
  result (step_over_sw_breakpoints (sw_b_HEAD state) l status k)
  = Fallthrough s ->
  exists cs,
    trace (step_over_sw_breakpoints (sw_b_HEAD state) l status k) = List.concat cs /\
    Forall2 (stepped_over state) l cs.
Proof.
  revert status k; induction l as [|t0 l IH]; intros status k; simpl.
  - intros _; exists []; split; [reflexivity|constructor].
  - destruct (sw_breakpoint_at (sw_b_HEAD state)
                (INSTRUCTION_POINTER (t_regs t0))) eqn:Hit.
    + assert (Hon : on_sw_breakpoint state t0)
        by (apply sw_breakpoint_at_true; exact Hit).
      rewrite result_bind, trace_bind.
      destruct (truthy _); [run; discriminate|].
      rewrite result_bind, trace_bind, run_waitpid; cbn [result final fst snd].
      rewrite result_bind, trace_bind.
      match goal with
      | |- context [if ?c then _ else _] => destruct c
      end.
      * intros H; apply IH in H; destruct H as (cs & Ht & Hcs).
        exists ((step_and_wait (t_tid t0) ++ step_and_wait (t_tid t0)) :: cs).
        split; [|constructor; [left; auto|exact Hcs]].
        rewrite Ht; run; rewrite run_waitpid; reflexivity.
      * intros H; apply IH in H; destruct H as (cs & Ht & Hcs).
        exists (step_and_wait (t_tid t0) :: cs).
        split; [|constructor; [left; auto|exact Hcs]].
        rewrite Ht; run; reflexivity.
    + assert (Hoff : ~ on_sw_breakpoint state t0).
      { intros Hon; apply sw_breakpoint_at_true in Hon; congruence. }
      intros H; apply IH in H; destruct H as (cs & Ht & Hcs).
      exists ([] :: cs); split; [exact Ht|constructor; [right; auto|exact Hcs]].
Qed.

(** Also when the loop is left early, only threads on a breakpoint entry
    have been stepped. *)
Lemma step_over_sw_breakpoints_only_on_entries (state : global_state)
  (l : list thread) status k tid sig :
  In (PTRACE_SINGLESTEP tid sig)
     (trace (step_over_sw_breakpoints (sw_b_HEAD state) l status k)) ->
  exists t, In t l /\ t_tid t = tid /\ on_sw_breakpoint state t.
Proof.
  revert status k; induction l as [|t0 l IH]; intros status k; simpl.
  - intros [].
  - destruct (sw_breakpoint_at (sw_b_HEAD state)
                (INSTRUCTION_POINTER (t_regs t0))) eqn:Hit.
    + assert (Hon : on_sw_breakpoint state t0)
        by (apply sw_breakpoint_at_true; exact Hit).
      assert (Hmine : forall q, In q (step_and_wait (t_tid t0)) ->
                q = PTRACE_SINGLESTEP tid sig ->
                exists t, (t0 = t \/ In t l) /\ t_tid t = tid /\
                          on_sw_breakpoint state t).
      { intros q [<-|[<-|[]]] Hq; inversion Hq; subst; eauto. }
      rewrite trace_bind, trace_call.
      intros [H|H]; [apply (Hmine _ (or_introl eq_refl)); exact H|].
      destruct (truthy _); [destruct H|].
      rewrite trace_bind, run_waitpid in H.
      cbn [result final trace fst snd app] in H.
      destruct H as [H|H]; [discriminate H|].
      rewrite trace_bind in H; apply in_app_or in H; destruct H as [H|H].
      * match type of H with
        | context [if ?c then _ else _] => destruct c
        end; [|destruct H].
        rewrite trace_bind, trace_call, trace_bind, run_waitpid in H.
        cbn [result final trace fst snd app] in H.
        destruct H as [H|[H|[]]]; [|discriminate H].
        apply (Hmine _ (or_introl eq_refl)); exact H.
      * apply IH in H; destruct H as (t & Ht & Htid & Hb); eauto.
    + intros H; apply IH in H; destruct H as (t & Ht & Htid & Hb); eauto.
Qed.

Lemma flush_registers_replay (l : list thread) k :
  replay (trace (flush_registers l k)) k = final (flush_registers l k).
Proof.
  revert k; induction l as [|t0 l IH]; intros k; simpl.
  - reflexivity.
  - rewrite trace_bind, final_bind, run_setregs; cbn [result final trace fst snd].
    rewrite trace_bind, final_bind.
    unfold replay in *; rewrite !fold_left_app; cbn [fold_left].
    rewrite <- IH; f_equal.
    destruct (truthy _); unfold fprintf_stderr; run; reflexivity.
Qed.

(** Which threads are stepped does not depend on the kernel. *)
Lemma stepped_in_turn_stepped_over (state : global_state) (l : list thread)
  status k :
  Forall2 (stepped_over state) l (stepped_in_turn (sw_b_HEAD state) l status k).
Proof.
  revert status k; induction l as [|t0 l IH]; intros status k;
    cbn [stepped_in_turn]; constructor; [|apply IH].
  unfold step_over_requests.
  destruct (sw_breakpoint_at (sw_b_HEAD state)
              (INSTRUCTION_POINTER (t_regs t0))) eqn:Hit.
  - left; split; [apply sw_breakpoint_at_true; exact Hit|].
    destruct (_ =? 4991); auto.
  - right; split; [|reflexivity].
    intros Hon; apply sw_breakpoint_at_true in Hon; congruence.
Qed.

(** A run of the loop that is not left by [return] makes the requests of
    [stepped_in_turn]. *)
Lemma step_over_sw_breakpoints_in_turn sw (l : list thread) status k s :
  result (step_over_sw_breakpoints sw l status k) = Fallthrough s ->
  trace (step_over_sw_breakpoints sw l status k)
  = List.concat (stepped_in_turn sw l status k).
Proof.
  revert status k; induction l as [|t0 l IH]; intros status k;
    cbn [step_over_sw_breakpoints stepped_in_turn].
  - reflexivity.
  - unfold step_over_requests.
    destruct (sw_breakpoint_at sw (INSTRUCTION_POINTER (t_regs t0)));
      [|intros H; apply (IH _ _ H)].
    rewrite result_bind, trace_bind, result_call, final_call, trace_call.
    destruct (truthy _); [run; discriminate|].
    rewrite result_bind, trace_bind, run_waitpid; cbn [result final trace fst snd].
    rewrite result_bind, trace_bind.
    cbn [status_after step_and_wait].
    match goal with
    | |- context [if ?c =? 4991 then _ else _] => destruct (c =? 4991)
    end.
    + run; rewrite run_waitpid; cbn [result final trace fst snd]; run.
      intros H; apply IH in H; rewrite H; reflexivity.
    + run; intros H; apply IH in H; rewrite H; reflexivity.
Qed.

(** C1 (as the code has it).  When [prepare_for_run] does not return -1, its
    trace is the register flush, then the requests made for the live
    threads in turn, then the pokes of the patched words.  A thread gets a
    single step and wait exactly when its cached instruction pointer is the
    address of an entry of the software-breakpoint list; the [enabled] flag
    of the entry plays no part.  It gets the step and wait once, and a
    second time exactly when the first wait has left 4991 in the status
    variable. *)
Theorem prepare_for_run_steps_over (state : global_state) (pid : Z) (k : kernel) :
  result (prepare_for_run state pid k) <> -1 ->
  exists flushes cs,
    trace (prepare_for_run state pid k)
    = flushes ++ List.concat cs ++ map (poke_patched pid) (enabled_sw (sw_b_HEAD state)) /\
    Forall is_flush flushes /\
    Forall2 (stepped_over state) (t_HEAD state) cs /\
    cs = stepped_in_turn (sw_b_HEAD state) (t_HEAD state) 0 (replay flushes k).
Proof.
  unfold prepare_for_run; cbv zeta; rewrite result_bind, trace_bind.
  rewrite result_bind, trace_bind.
  destruct (result (step_over_sw_breakpoints _ _ _ _)) as [r|s] eqn:E.
  - run; intros H; exfalso; apply H.
    eapply step_over_sw_breakpoints_return; exact E.
  - intros _.
    exists (trace (flush_registers (t_HEAD state) k)),
      (stepped_in_turn (sw_b_HEAD state) (t_HEAD state) 0
         (final (flush_registers (t_HEAD state) k))).
    rewrite (step_over_sw_breakpoints_in_turn _ _ _ _ _ E).
    run; rewrite reset_sw_breakpoints_trace, app_nil_r, flush_registers_replay.
    split; [reflexivity|split; [apply flush_registers_trace|split]].
    + apply stepped_in_turn_stepped_over.
    + reflexivity.
Qed.

End PrepareForRun.

(** ** [cont_all_and_set_bps] *)

Section Resume.
Context {T : Target} {K : Kernel}.
Variable mem_of : kernel -> memory.
Hypothesis mem_ok : kernel_memory mem_of.

Lemma cont_threads_result hs (l : list thread) k :
  result (cont_threads hs l k) = map (fun t => set_signal_to_forward t 0) l.
Proof.
  revert k; induction l as [|t0 l IH]; intros k; simpl.
  - reflexivity.
  - run; rewrite IH; reflexivity.
Qed.



(** Whatever [prepare_for_run] did, the resume loop clears every pending
    signal. *)
Lemma cont_all_and_set_bps_clears_signals (state : global_state) pid k t :
  In t (t_HEAD (snd (result (cont_all_and_set_bps state pid k)))) ->
  t_signal_to_forward t = 0.
Proof.
  unfold cont_all_and_set_bps; run; rewrite cont_threads_result.
  cbn [snd t_HEAD set_t_HEAD]; intros Ht.
  apply in_map_iff in Ht; destruct Ht as (t' & <- & _); reflexivity.
Qed.



End Resume.

(** ** [stepping_finish] *)

Section SteppingFinish.
Context {T : Target} {K : Kernel}.

Lemma stepping_finish_loop_returned fuel tid status regs counter k r regs' :
  result (stepping_finish_loop fuel tid status regs counter k)
  = Some (Returned r, regs') -> r = -1.
Proof.
  revert status regs counter k; induction fuel as [|fuel IH];
    intros status regs counter k; simpl.
  - run; discriminate.
  - rewrite result_bind.
    destruct (truthy _); [run; intros H; inversion H; reflexivity|].
    rewrite result_bind, run_waitpid; cbn [result final fst snd].
    rewrite result_bind, run_getregs; cbn [result final fst snd].
    rewrite result_bind.
    destruct (_ || _); [run; discriminate|].
    destruct (_ >? 0); [apply IH | run; discriminate].
Qed.

(** C4 (as the code has it).  When [stepping_finish] returns 0, which it
    does both when the nested-call counter reached 0 and the last step was
    taken and when the loop was left for [cleanup], the last requests before
    the return write [instruction], the original word, at the address of
    every enabled software breakpoint, in list order. *)
Theorem stepping_finish_restores (fuel : nat) (state state' : global_state)
  (tid : Z) (k : kernel) :
  result (stepping_finish fuel state tid k) = Some (0, state') ->
  exists before,
    trace (stepping_finish fuel state tid k)
    = before ++ map (poke_original tid) (enabled_sw (sw_b_HEAD state)).
Proof.
  unfold stepping_finish; rewrite result_bind, trace_bind.
  destruct (find_stepping_thread (t_HEAD state) tid 0) as [[i t]|].
  - rewrite result_bind, trace_bind.
    destruct (result (stepping_finish_loop _ _ _ _ _ _))
      as [[[r| |] regs]|] eqn:E.
    + apply stepping_finish_loop_returned in E; subst r.
      run; discriminate.
    + intros _; eexists.
      rewrite trace_bind, restore_sw_breakpoints_trace, trace_ret, app_nil_r.
      rewrite !app_assoc; reflexivity.
    + rewrite result_bind, trace_bind.
      destruct (truthy _); [run; discriminate|].
      intros _; eexists.
      rewrite trace_bind, run_waitpid; cbn [result final trace fst snd].
      rewrite trace_bind, run_getregs; cbn [result final trace fst snd].
      rewrite trace_bind, restore_sw_breakpoints_trace, trace_ret, app_nil_r.
      rewrite !app_assoc; reflexivity.
    + run; discriminate.
  - run; discriminate.
Qed.

(** The two ways of returning 0: the loop was left for [cleanup], or the
    counter reached 0 and the kernel accepted the last single step. *)
Lemma stepping_finish_returns_zero (fuel : nat) (state : global_state)
  (tid : Z) (k : kernel) i t regs :
  find_stepping_thread (t_HEAD state) tid O = Some (i, t) ->
  let loop :=
    stepping_finish_loop fuel tid (result (prepare_for_run state tid k))
      (t_regs t) 1 (final (prepare_for_run state tid k)) in
  result loop = Some (GotoCleanup, regs) \/
  (result loop = Some (CounterZero, regs) /\
   truthy (r_ret (fst (sys (PTRACE_SINGLESTEP tid 0) (final loop)))) = false) ->
  exists state', result (stepping_finish fuel state tid k) = Some (0, state').
Proof.
  intros Hf; cbv zeta; intros [E|[E Hs]];
    unfold stepping_finish; rewrite result_bind, Hf, result_bind, E.
  - run; eexists; reflexivity.
  - rewrite result_bind, result_call, Hs.
    rewrite result_bind, run_waitpid; cbn [result final fst snd].
    rewrite result_bind, run_getregs; cbn [result final fst snd].
    run; eexists; reflexivity.
Qed.

(** The only other value [stepping_finish] returns is -1. *)
Lemma stepping_finish_values (fuel : nat) (state state' : global_state)
  (tid r : Z) (k : kernel) :
  result (stepping_finish fuel state tid k) = Some (r, state') ->
  r = 0 \/ r = -1.
Proof.
  unfold stepping_finish; rewrite result_bind.
  destruct (find_stepping_thread (t_HEAD state) tid 0) as [[i t]|].
  - rewrite result_bind.
    destruct (result (stepping_finish_loop _ _ _ _ _ _))
      as [[[r0| |] regs]|] eqn:E.
    + apply stepping_finish_loop_returned in E; subst r0.
      run; intros H; inversion H; auto.
    + run; intros H; inversion H; auto.
    + rewrite result_bind.
      destruct (truthy _); [run; intros H; inversion H; auto|].
      rewrite result_bind, run_waitpid; cbn [result final fst snd].
      rewrite result_bind, run_getregs; cbn [result final fst snd].
      run; intros H; inversion H; auto.
    + run; discriminate.
  - run; intros H; inversion H; auto.
Qed.

End SteppingFinish.

(** * Runs on the simulated tracee *)

Section Concrete.
#[local] Existing Instance amd64.
#[local] Existing Instance sim_kernel.


(** *** C1 *)

(** Counterexample to C1 as stated: thread 100 is stopped at 4096, where the
    list has an entry that is present but disabled, and [prepare_for_run]
    single-steps it all the same. *)
Lemma prepare_for_run_steps_over_disabled_breakpoint :
  let t := mk_thread 100 4096 in
  let state := mk_state [t] [mk_sw 4096 0] in
  In t (t_HEAD state) /\
  ~ on_enabled_sw_breakpoint state t /\
  result (prepare_for_run state 100 nops) = 1407 /\
  trace (prepare_for_run state 100 nops)
  = [PTRACE_SETREGS 100 {| rip := 4096; rax := 0 |};
     PTRACE_SINGLESTEP 100 0; WAITPID 100 0].
Proof.
  cbv zeta; repeat split.
  - left; reflexivity.
  - intros (b & [<-|[]] & He & _); discriminate.
Qed.

Lemma prepare_for_run_steps_over_witness :
  let state :=
    mk_state [mk_thread 100 4096; mk_thread 101 4097]
             [mk_sw 4096 0; mk_sw 5000 1] in
  exists flushes cs,
    trace (prepare_for_run state 100 nops)
    = flushes ++ List.concat cs
      ++ map (poke_patched 100) (enabled_sw (sw_b_HEAD state)) /\
    Forall is_flush flushes /\
    Forall2 (stepped_over state) (t_HEAD state) cs /\
    cs = stepped_in_turn (sw_b_HEAD state) (t_HEAD state) 0
           (replay flushes nops).
Proof.
  cbv zeta.
  apply (prepare_for_run_steps_over
           (mk_state [mk_thread 100 4096; mk_thread 101 4097]
                     [mk_sw 4096 0; mk_sw 5000 1]) 100 nops).
  vm_compute; discriminate.
Defined.

(** *** C2 *)

(** Counterexample to C2 as stated: with DR0..DR3 of thread 100 taken by
    four registered breakpoints, a fifth registration leaves the debug
    registers alone but makes the list one entry longer. *)
Lemma register_hw_breakpoint_fifth_changes_list :
  let state := result four_hw_breakpoints in
  let k := final four_hw_breakpoints in
  let out := register_hw_breakpoint state 100 8224 (120, 0) 1 k in
  map hw_addr (hw_b_HEAD state) = [8216; 8208; 8200; 8192] /\
  map (fun i => sim_user k 100 (DR_BASE + i * DR_SIZE)) [0; 1; 2; 3]
  = [8192; 8200; 8208; 8216] /\
  result (get_remaining_hw_breakpoint_count state 100 k) = 0 /\
  map hw_addr (hw_b_HEAD (result out)) = [8224; 8216; 8208; 8200; 8192] /\
  hw_b_HEAD (result out) <> hw_b_HEAD state.
Proof.
  cbv zeta; repeat split.
  vm_compute; discriminate.
Qed.

Lemma register_hw_breakpoint_no_free_register_witness :
  let state := result four_hw_breakpoints in
  let k := final four_hw_breakpoints in
  let out := register_hw_breakpoint state 100 8224 (120, 0) 1 k in
  result out
  = set_hw_b_HEAD state
      ({| hw_addr := 8224; hw_tid := 100; hw_enabled := 1;
          hw_type := (120, 0); hw_len := 1 |} :: hw_b_HEAD state) /\
  trace out
  = [PTRACE_PEEKUSER 100 848; PTRACE_PEEKUSER 100 856;
     PTRACE_PEEKUSER 100 864; PTRACE_PEEKUSER 100 872;
     STDERR "No debug registers available"].
Proof.
  cbv zeta.
  apply (register_hw_breakpoint_no_free_register
           (result four_hw_breakpoints) 100 8224 (120, 0) 1
           (final four_hw_breakpoints)).
  - vm_compute; reflexivity.
  - vm_compute; reflexivity.
Defined.

(** *** C3 *)



(** *** C4 *)

(** Counterexample to C4 as stated: thread 300 is registered but the kernel
    refuses to step it; [stepping_finish] returns -1 right after the failed
    request, the original word of the enabled breakpoint at 4200 is not
    written back, and memory keeps the patched word. *)
Lemma stepping_finish_error_return_skips_cleanup :
  let state := mk_state [mk_thread 300 4096] [mk_sw 4200 1] in
  let out := stepping_finish 3 state 300 nop_ret in
  result out = Some (-1, state) /\
  trace out
  = [PTRACE_SETREGS 300 {| rip := 4096; rax := 0 |};
     STDERR "ptrace_setregs failed for thread %d: %s";
     PTRACE_POKEDATA 300 4200 int3_word;
     PTRACE_SINGLESTEP 300 0] /\
  ~ In (poke_original 300 (mk_sw 4200 1)) (trace out) /\
  load_word (sim_mem (final out)) 4200 = int3_word.
Proof.
  cbv zeta; repeat split.
  intros H.
  assert (E : trace (stepping_finish 3 (mk_state [mk_thread 300 4096]
                                                 [mk_sw 4200 1]) 300 nop_ret)
              = [PTRACE_SETREGS 300 {| rip := 4096; rax := 0 |};
                 STDERR "ptrace_setregs failed for thread %d: %s";
                 PTRACE_POKEDATA 300 4200 int3_word;
                 PTRACE_SINGLESTEP 300 0]) by reflexivity.
  rewrite E in H; clear E.
  destruct H as [H|[H|[H|[H|[]]]]]; discriminate H.
Qed.

Lemma stepping_finish_restores_witness :
  let state := mk_state [mk_thread 100 4096] [mk_sw 4200 1] in
  exists before,
    trace (stepping_finish 3 state 100 nop_ret)
    = before ++ map (poke_original 100) (enabled_sw (sw_b_HEAD state)).
Proof.
  cbv zeta.
  apply (stepping_finish_restores 3
           (mk_state [mk_thread 100 4096] [mk_sw 4200 1])
           (mk_state [mk_thread 100 4098] [mk_sw 4200 1]) 100 nop_ret).
  vm_compute; reflexivity.
Defined.

(** *** C5 *)

Lemma sw_list_stays_sorted_witness :
  let ops := [Register 100 4200; Register 100 4096; Disable 4200;
              Register 100 4100; Register 100 4200; Unregister 4096;
              Enable 4100; Register 100 4097] in
  let l := sw_b_HEAD (result (apply_ops ops (mk_state [] []) nops)) in
  sw_sorted l /\ NoDup (map sw_addr l).
Proof.
  cbv zeta.
  apply (sw_list_stays_sorted _ (mk_state [] []) nops).
  constructor.
Defined.

(** *** C6 *)

Lemma register_thread_idempotent_witness :
  let state := mk_state [mk_thread 100 4096; mk_thread 101 4097] [] in
  exists i t,
    nth_error (t_HEAD state) i = Some t /\ t_tid t = 101 /\
    register_thread state 101 nops = ((i, state), nops, []).
Proof.
  cbv zeta.
  apply (register_thread_idempotent
           (mk_state [mk_thread 100 4096; mk_thread 101 4097] []) 101 nops).
  exists (mk_thread 101 4097); split; [right; left; reflexivity|reflexivity].
Defined.

(** *** C7 *)

(** The breakpoint at 4096 is registered, hence enabled and patched in, and
    then unregistered: the entry is gone and the word at 4096 is still the
    patched one. *)
Lemma unregister_breakpoint_leaves_memory_witness :
  let reg := register_breakpoint (mk_state [] [mk_sw 4000 1]) 100 4096 nops in
  let out := unregister_breakpoint (result reg) 4096 (final reg) in
  (result out = set_sw_b_HEAD (result reg) [mk_sw 4000 1] /\
   final out = final reg /\
   trace out = [] /\
   forall pid a,
     ptrace_peekdata pid a (final out) = ptrace_peekdata pid a (final reg)) /\
  result (ptrace_peekdata 100 4096 (final out)) = int3_word.
Proof.
  cbv zeta; split; [|reflexivity].
  apply (unregister_breakpoint_leaves_memory
           (result (register_breakpoint (mk_state [] [mk_sw 4000 1]) 100 4096 nops))
           4096
           (final (register_breakpoint (mk_state [] [mk_sw 4000 1]) 100 4096 nops))
           [mk_sw 4000 1] (mk_sw 4096 1) []).
  - reflexivity.
  - reflexivity.
  - intros y [<-|[]]; vm_compute; discriminate.
Defined.

(** *** C8 *)

Lemma step_until_zero_steps_witness :
  let state := mk_state [mk_thread 100 4096; mk_thread 101 4097] [] in
  (let out := step_until 0 state 101 4097 0 nops in
   result out = Some (0, state) /\
   final out = final (step_until_flush (t_HEAD state) 101 O None nops) /\
   trace out = trace (step_until_flush (t_HEAD state) 101 O None nops) /\
   Forall is_flush (trace out)) /\
  (let out := step_until 0 state 101 5000 0 nops in
   result out = Some (0, state) /\
   final out = final (step_until_flush (t_HEAD state) 101 O None nops) /\
   trace out = trace (step_until_flush (t_HEAD state) 101 O None nops) /\
   Forall is_flush (trace out)).
Proof.
  cbv zeta; split.
  - apply (step_until_zero_steps 0
             (mk_state [mk_thread 100 4096; mk_thread 101 4097] [])
             101 4097 nops).
    exists (mk_thread 101 4097); split; [right; left; reflexivity|reflexivity].
  - apply (step_until_zero_steps 0
             (mk_state [mk_thread 100 4096; mk_thread 101 4097] [])
             101 5000 nops).
    exists (mk_thread 101 4097); split; [right; left; reflexivity|reflexivity].
Defined.

(** *** C9 *)

Lemma wait_all_and_update_regs_wait_fails_witness :
  let state := mk_state [mk_thread 100 4096; mk_thread 101 4097] [mk_sw 4200 1] in
  wait_all_and_update_regs 5 state 100 nops
  = (Some (None, state), nops,
     [GETPGID 100; WAITPID (-100) 0; STDERR "waitpid"]).
Proof.
  cbv zeta.
  apply (wait_all_and_update_regs_wait_fails 5
           (mk_state [mk_thread 100 4096; mk_thread 101 4097] [mk_sw 4200 1])
           100 nops).
  reflexivity.
Defined.

(** *** C10 *)

(** The entry at 4096 was captured with the original word; after the word in
    memory has been patched, registering 4096 again re-reads the patched
    word but the entry keeps what it had. *)
Lemma register_breakpoint_existing_keeps_words_witness :
  let reg := register_breakpoint (mk_state [] []) 100 4096 nops in
  let dis := disable_breakpoint (result reg) 4096 (final reg) in
  let again := register_breakpoint (result dis) 100 4096 (final dis) in
  (exists l1 x x' l2,
     sw_b_HEAD (result dis) = l1 ++ x :: l2 /\
     sw_addr x = 4096 /\
     (forall y, In y l1 -> sw_addr y <> 4096) /\
     result again = set_sw_b_HEAD (result dis) (l1 ++ x' :: l2) /\
     sw_addr x' = sw_addr x /\
     sw_instruction x' = sw_instruction x /\
     sw_patched_instruction x' = sw_patched_instruction x /\
     sw_enabled x' = 1 /\
     trace again
     = let instruction :=
         to_uint64 (r_ret (fst (sys (PTRACE_PEEKDATA 100 4096) (final dis)))) in
       [PTRACE_PEEKDATA 100 4096;
        PTRACE_POKEDATA 100 4096 (to_uint64 (INSTALL_BREAKPOINT instruction))]) /\
  result (ptrace_peekdata 100 4096 (final dis)) = int3_word /\
  sw_b_HEAD (result again) = [mk_sw 4096 1].
Proof.
  cbv zeta; split; [|split; reflexivity].
  apply (register_breakpoint_existing_keeps_words
           (result (disable_breakpoint
                      (result (register_breakpoint (mk_state [] []) 100 4096 nops))
                      4096
                      (final (register_breakpoint (mk_state [] []) 100 4096 nops))))
           100 4096).
  exists (mk_sw 4096 0); split; [left; reflexivity|reflexivity].
Defined.

End Concrete.

(** * Further properties *)

(** ** The thread table *)

Section ThreadTable.
Context {T : Target} {K : Kernel}.

Lemma thread_index_found (l : list thread) tid i :
  thread_index l tid = Some i ->
  exists t, nth_error l i = Some t /\ t_tid t = tid /\
            find (fun t => t_tid t =? tid) l = Some t.
Proof.
  revert i; induction l as [|t0 l IH]; intros i; simpl.
  - discriminate.
  - destruct (Z.eqb_spec (t_tid t0) tid) as [E|E].
    + intros H; inversion H; subst; exists t0; auto.
    + destruct (thread_index l tid) as [j|]; simpl; [|discriminate].
      intros H; inversion H; subst.
      destruct (IH j eq_refl) as (t & Hn & Ht & Hf); exists t; auto.
Qed.

Lemma thread_index_absent (l : list thread) tid :
  thread_index l tid = None -> ~ In tid (map t_tid l).
Proof.
  induction l as [|t0 l IH]; simpl; [tauto|].
  destruct (Z.eqb_spec (t_tid t0) tid) as [E|E]; [discriminate|].
  destruct (thread_index l tid); simpl; [discriminate|].
  intros _ [H|H]; [contradiction|apply IH; auto].
Qed.

Lemma thread_index_absent_inv (l : list thread) tid :
  ~ In tid (map t_tid l) -> thread_index l tid = None.
Proof.
  intros H; destruct (thread_index l tid) as [i|] eqn:E; [|reflexivity].
  destruct (thread_index_found _ _ _ E) as (t & Hn & Ht & _).
  exfalso; apply H; rewrite <- Ht; apply in_map.
  eapply nth_error_In; exact Hn.
Qed.

Lemma find_thread_absent (l : list thread) tid :
  ~ In tid (map t_tid l) -> find (fun t => t_tid t =? tid) l = None.
Proof.
  induction l as [|t0 l IH]; simpl; [reflexivity|].
  intros H; destruct (Z.eqb_spec (t_tid t0) tid) as [E|E]; [tauto|].
  apply IH; tauto.
Qed.

Lemma unlink_thread_split (l : list thread) tid t l' :
  unlink_thread l tid = Some (t, l') ->
  exists l1 l2, l = l1 ++ t :: l2 /\ l' = l1 ++ l2 /\ t_tid t = tid /\
                forall y, In y l1 -> t_tid y <> tid.
Proof.
  revert t l'; induction l as [|t0 l IH]; intros t l'; simpl.
  - discriminate.
  - destruct (Z.eqb_spec (t_tid t0) tid) as [E|E].
    + intros H; inversion H; subst.
      exists [], l'; repeat split; auto; intros y [].
    + destruct (unlink_thread l tid) as [[x l0]|]; [|discriminate].
      intros H; inversion H; subst.
      destruct (IH t l0 eq_refl) as (l1 & l2 & -> & -> & Ht & Hl1).
      exists (t0 :: l1), l2; repeat split; auto.
      intros y [<-|Hy]; auto.
Qed.

Lemma unlink_thread_absent (l : list thread) tid :
  ~ In tid (map t_tid l) -> unlink_thread l tid = None.
Proof.
  induction l as [|t0 l IH]; simpl; [reflexivity|].
  intros H; destruct (Z.eqb_spec (t_tid t0) tid) as [E|E]; [tauto|].
  rewrite IH; tauto.
Qed.

Lemma unlink_thread_present (l : list thread) tid :
  In tid (map t_tid l) -> exists t l', unlink_thread l tid = Some (t, l').
Proof.
  induction l as [|t0 l IH]; simpl; [tauto|].
  intros H; destruct (Z.eqb_spec (t_tid t0) tid) as [E|E]; [eauto|].
  destruct IH as (t & l' & ->); [tauto|eauto].
Qed.

(** X1.  Whatever the state and whatever the kernel answers, after
    [register_thread (state, tid)] the returned position holds a thread with
    that tid, and it is the thread that [get_thread] finds. *)
Theorem register_thread_then_get_thread (state : global_state) (tid : Z)
  (k : kernel) :
  let out := register_thread state tid k in
  exists t,
    nth_error (t_HEAD (snd (result out))) (fst (result out)) = Some t /\
    t_tid t = tid /\
    get_thread (snd (result out)) tid = Some t.
Proof.
  cbv zeta; unfold register_thread, get_thread.
  destruct (thread_index (t_HEAD state) tid) as [i|] eqn:E.
  - run; cbn [fst snd]. apply thread_index_found; exact E.
  - cbv zeta; cbn [t_regs]; rewrite result_bind, run_getregs.
    cbn [result final fst snd]; run; cbn [fst snd t_HEAD set_t_HEAD find].
    cbn [set_regs t_tid]; rewrite Z.eqb_refl.
    eexists; repeat split.
Qed.

Lemma register_thread_new_entry (state : global_state) (tid : Z) (k : kernel) :
  ~ In tid (live_tids state) ->
  exists t,
    register_thread state tid k
    = ((O, set_t_HEAD state (t :: t_HEAD state)),
       snd (sys (PTRACE_GETREGS tid) k), [PTRACE_GETREGS tid]) /\
    t_tid t = tid /\
    t_signal_to_forward t = 0 /\
    t_regs t = match r_regs (fst (sys (PTRACE_GETREGS tid) k)) with
               | Some v => v
               | None => indeterminate_regs
               end.
Proof.
  intros H; unfold register_thread.
  rewrite (thread_index_absent_inv _ _ H).
  cbv zeta; cbn [t_regs]; rewrite run_bind, run_getregs.
  cbn [result final trace fst snd app].
  eexists; repeat split.
Qed.

(** X2.  When [tid] is not live, [register_thread] links a new entry at the
    head even if the kernel refuses the register read: the only request is
    one [PTRACE_GETREGS], its failure is not reported, and the entry then
    keeps the indeterminate contents of the fresh block.  The entry has no
    pending signal. *)
Theorem register_thread_fresh (state : global_state) (tid : Z) (k : kernel) :
  ~ In tid (live_tids state) ->
  let out := register_thread state tid k in
  let r := fst (sys (PTRACE_GETREGS tid) k) in
  exists t,
    result out = (O, set_t_HEAD state (t :: t_HEAD state)) /\
    t_tid t = tid /\
    t_signal_to_forward t = 0 /\
    t_regs t = match r_regs r with Some v => v | None => indeterminate_regs end /\
    trace out = [PTRACE_GETREGS tid] /\
    final out = snd (sys (PTRACE_GETREGS tid) k).
Proof.
  intros H; cbv zeta.
  destruct (register_thread_new_entry state tid k H) as (t & -> & Ht & Hs & Hr).
  exists t; repeat split; assumption.
Qed.

Lemma register_thread_tids (state : global_state) (tid : Z) (k : kernel) :
  live_tids (snd (result (register_thread state tid k)))
  = match thread_index (t_HEAD state) tid with
    | Some _ => live_tids state
    | None => tid :: live_tids state
    end.
Proof.
  unfold register_thread.
  destruct (thread_index (t_HEAD state) tid) as [i|] eqn:E.
  - reflexivity.
  - cbv zeta; cbn [t_regs]; rewrite result_bind, run_getregs.
    cbn [result final fst snd]; reflexivity.
Qed.

Lemma apply_thread_op_NoDup (state : global_state) (o : thread_op) (k : kernel) :
  NoDup (live_tids state) ->
  NoDup (live_tids (result (apply_thread_op state o k))).
Proof.
  intros Hn; destruct o as [tid|tid]; simpl.
  - rewrite result_bind.
    pose proof (register_thread_tids state tid k) as Ht.
    destruct (result (register_thread state tid k)) as [i s] eqn:E.
    cbn [snd] in Ht; run; rewrite Ht.
    destruct (thread_index (t_HEAD state) tid) eqn:Ei; [exact Hn|].
    constructor; [apply thread_index_absent; exact Ei | exact Hn].
  - run; unfold unregister_thread.
    destruct (unlink_thread (t_HEAD state) tid) as [[t l]|] eqn:E; [|exact Hn].
    destruct (unlink_thread_split _ _ _ _ E) as (l1 & l2 & Hl & -> & _ & _).
    unfold live_tids in *; cbn [t_HEAD]; rewrite Hl in Hn.
    rewrite map_app in *; cbn [map] in Hn.
    eapply NoDup_remove_1; exact Hn.
Qed.

(** X3.  Thread ids in the live list stay pairwise distinct under any
    sequence of [register_thread] and [unregister_thread] calls. *)
Theorem live_tids_stay_distinct (ops : list thread_op) (state : global_state)
  (k : kernel) :
  NoDup (live_tids state) ->
  NoDup (live_tids (result (apply_thread_ops ops state k))).
Proof.
  revert state k; induction ops as [|o ops IH]; intros state k Hn; simpl.
  - exact Hn.
  - run; apply IH, apply_thread_op_NoDup, Hn.
Qed.

(** X4.  [unregister_thread] takes the first live entry with the tid out of
    the live list and puts that very entry, cached registers included, at
    the head of the dead list; nothing else changes, and no entry is lost. *)
Theorem unregister_thread_moves_to_dead (state : global_state) (tid : Z) :
  In tid (live_tids state) ->
  exists l1 t l2,
    t_HEAD state = l1 ++ t :: l2 /\
    t_tid t = tid /\
    (forall y, In y l1 -> t_tid y <> tid) /\
    unregister_thread state tid
    = {| t_HEAD := l1 ++ l2; dead_t_HEAD := t :: dead_t_HEAD state;
         sw_b_HEAD := sw_b_HEAD state; hw_b_HEAD := hw_b_HEAD state;
         handle_syscall_enabled := handle_syscall_enabled state |}.
Proof.
  intros H; unfold unregister_thread.
  destruct (unlink_thread_present _ _ H) as (t & l' & E); rewrite E.
  destruct (unlink_thread_split _ _ _ _ E) as (l1 & l2 & Hl & -> & Ht & Hl1).
  exists l1, t, l2; auto.
Qed.

(** A tid that is not live: [unregister_thread] changes nothing. *)
Lemma unregister_thread_absent (state : global_state) (tid : Z) :
  ~ In tid (live_tids state) -> unregister_thread state tid = state.
Proof.
  intros H; unfold unregister_thread.
  rewrite (unlink_thread_absent _ _ H); reflexivity.
Qed.

(** X5.  With pairwise distinct live tids, a thread that has been
    unregistered is no longer found by [get_thread]. *)
Theorem unregister_thread_then_get_thread (state : global_state) (tid : Z) :
  NoDup (live_tids state) ->
  get_thread (unregister_thread state tid) tid = None.
Proof.
  intros Hn; unfold get_thread, unregister_thread.
  destruct (unlink_thread (t_HEAD state) tid) as [[t l]|] eqn:E.
  - destruct (unlink_thread_split _ _ _ _ E) as (l1 & l2 & Hl & -> & Ht & Hl1).
    cbn [t_HEAD]; apply find_thread_absent.
    unfold live_tids in Hn; rewrite Hl, map_app in Hn; cbn [map] in Hn.
    apply NoDup_remove_2 in Hn; rewrite Ht in Hn.
    rewrite map_app; exact Hn.
  - apply find_thread_absent.
    intros Hin; destruct (unlink_thread_present _ _ Hin) as (t & l & E').
    congruence.
Qed.

(** X6.  Registering a tid that is not live, unregistering it and
    registering it again reads the registers twice, leaves the first entry
    at the head of the dead list and a second entry for the same tid at the
    head of the live list: the tid is then in both lists. *)
Theorem register_unregister_register (state : global_state) (tid : Z)
  (k : kernel) :
  ~ In tid (live_tids state) ->
  let out :=
    ('(_, s1) <- register_thread state tid ;;
     '(_, s3) <- register_thread (unregister_thread s1 tid) tid ;;
     ret s3) k in
  exists t1 t3,
    t_tid t1 = tid /\ t_tid t3 = tid /\
    t_HEAD (result out) = t3 :: t_HEAD state /\
    dead_t_HEAD (result out) = t1 :: dead_t_HEAD state /\
    trace out = [PTRACE_GETREGS tid; PTRACE_GETREGS tid].
Proof.
  intros H; cbv zeta.
  destruct (register_thread_new_entry state tid k H) as (t1 & Hr1 & Ht1 & _).
  assert (Hu : unregister_thread (set_t_HEAD state (t1 :: t_HEAD state)) tid
               = {| t_HEAD := t_HEAD state;
                    dead_t_HEAD := t1 :: dead_t_HEAD state;
                    sw_b_HEAD := sw_b_HEAD state; hw_b_HEAD := hw_b_HEAD state;
                    handle_syscall_enabled := handle_syscall_enabled state |}).
  { unfold unregister_thread; cbn [t_HEAD set_t_HEAD unlink_thread].
    rewrite Ht1, Z.eqb_refl; reflexivity. }
  unfold bind; rewrite Hr1, Hu.
  match goal with
  | |- context [register_thread ?s tid ?k1] =>
      destruct (register_thread_new_entry s tid k1 H) as (t3 & Hr3 & Ht3 & _)
  end.
  rewrite Hr3.
  exists t1, t3; repeat split; assumption.
Qed.

End ThreadTable.

(** ** The software-breakpoint table, continued *)

Section SwTable.
Context {T : Target} {K : Kernel}.

Lemma enable_existing_absent b address :
  (forall y, In y b -> sw_addr y <> address) ->
  enable_existing b address = None.
Proof.
  induction b as [|b0 b' IH]; intros H; simpl; [reflexivity|].
  destruct (Z.eqb_spec (sw_addr b0) address) as [E|E].
  - exfalso; apply (H b0); [left; reflexivity|exact E].
  - rewrite IH; [reflexivity|intros y Hy; apply H; right; exact Hy].
Qed.

Lemma link_after_perm next b : Permutation (b :: next) (link_after next b).
Proof.
  induction next as [|n next' IH]; simpl.
  - apply Permutation_refl.
  - destruct (sw_addr n <? sw_addr b).
    + eapply perm_trans; [apply perm_swap|apply perm_skip, IH].
    + apply Permutation_refl.
Qed.

Lemma insert_ordered_perm head b : Permutation (b :: head) (insert_ordered head b).
Proof.
  destruct head as [|h tl]; simpl.
  - apply Permutation_refl.
  - destruct (sw_addr h >? sw_addr b).
    + apply Permutation_refl.
    + eapply perm_trans; [apply perm_swap|apply perm_skip, link_after_perm].
Qed.

Lemma unlink_link_after next b :
  (forall y, In y next -> sw_addr y <> sw_addr b) ->
  unlink_breakpoint (link_after next b) (sw_addr b) = next.
Proof.
  induction next as [|n next' IH]; intros H; simpl.
  - rewrite Z.eqb_refl; reflexivity.
  - destruct (sw_addr n <? sw_addr b); simpl.
    + destruct (Z.eqb_spec (sw_addr n) (sw_addr b)) as [E|E].
      * exfalso; apply (H n); [left; reflexivity|exact E].
      * f_equal; apply IH; intros y Hy; apply H; right; exact Hy.
    + rewrite Z.eqb_refl; reflexivity.
Qed.

Lemma unlink_insert_ordered head b :
  (forall y, In y head -> sw_addr y <> sw_addr b) ->
  unlink_breakpoint (insert_ordered head b) (sw_addr b) = head.
Proof.
  intros H; destruct head as [|h tl]; simpl.
  - rewrite Z.eqb_refl; reflexivity.
  - destruct (sw_addr h >? sw_addr b); simpl.
    + rewrite Z.eqb_refl; reflexivity.
    + destruct (Z.eqb_spec (sw_addr h) (sw_addr b)) as [E|E].
      * exfalso; apply (H h); [left; reflexivity|exact E].
      * f_equal; apply unlink_link_after.
        intros y Hy; apply H; right; exact Hy.
Qed.

Lemma register_breakpoint_new_entry (state : global_state) (pid address : Z)
  (k : kernel) :
  (forall y, In y (sw_b_HEAD state) -> sw_addr y <> address) ->
  let instruction :=
    to_uint64 (r_ret (fst (sys (PTRACE_PEEKDATA pid address) k))) in
  let patched := to_uint64 (INSTALL_BREAKPOINT instruction) in
  let b := {| sw_addr := address; sw_instruction := instruction;
              sw_patched_instruction := patched; sw_enabled := 1 |} in
  result (register_breakpoint state pid address k)
  = set_sw_b_HEAD state (insert_ordered (sw_b_HEAD state) b) /\
  trace (register_breakpoint state pid address k)
  = [PTRACE_PEEKDATA pid address; PTRACE_POKEDATA pid address patched].
Proof.
  intros H; cbv zeta; unfold register_breakpoint.
  rewrite (enable_existing_absent _ _ H); run; split; reflexivity.
Qed.

(** X7.  [register_breakpoint] at an address without an entry keeps every
    entry of the list and adds one, enabled, whose [instruction] is the word
    the kernel returned for the address and whose [patched_instruction] is
    [INSTALL_BREAKPOINT] of that word; the patched word is what it pokes. *)
Theorem register_breakpoint_fresh (state : global_state) (pid address : Z)
  (k : kernel) :
  (forall y, In y (sw_b_HEAD state) -> sw_addr y <> address) ->
  let out := register_breakpoint state pid address k in
  let instruction :=
    to_uint64 (r_ret (fst (sys (PTRACE_PEEKDATA pid address) k))) in
  let patched := to_uint64 (INSTALL_BREAKPOINT instruction) in
  let b := {| sw_addr := address; sw_instruction := instruction;
              sw_patched_instruction := patched; sw_enabled := 1 |} in
  Permutation (b :: sw_b_HEAD state) (sw_b_HEAD (result out)) /\
  t_HEAD (result out) = t_HEAD state /\
  hw_b_HEAD (result out) = hw_b_HEAD state /\
  trace out = [PTRACE_PEEKDATA pid address; PTRACE_POKEDATA pid address patched].
Proof.
  intros H; cbv zeta.
  destruct (register_breakpoint_new_entry state pid address k H) as [-> ->].
  repeat split; apply insert_ordered_perm.
Qed.

(** X8.  Registering a breakpoint at an address without an entry and
    unregistering it again gives back the state as it was, while the only
    requests made are the peek and the poke of the patched word: nothing
    writes the original word back. *)
Theorem register_then_unregister_breakpoint (state : global_state)
  (pid address : Z) (k : kernel) :
  (forall y, In y (sw_b_HEAD state) -> sw_addr y <> address) ->
  let out :=
    (s <- register_breakpoint state pid address ;;
     unregister_breakpoint s address) k in
  let instruction :=
    to_uint64 (r_ret (fst (sys (PTRACE_PEEKDATA pid address) k))) in
  result out = state /\
  trace out
  = [PTRACE_PEEKDATA pid address;
     PTRACE_POKEDATA pid address (to_uint64 (INSTALL_BREAKPOINT instruction))].
Proof.
  intros H; cbv zeta.
  destruct (register_breakpoint_new_entry state pid address k H) as [Hr Ht].
  rewrite run_bind, Hr, Ht; unfold unregister_breakpoint; run.
  cbn [sw_b_HEAD set_sw_b_HEAD].
  match goal with
  | |- context [insert_ordered _ ?b] =>
      pose proof (unlink_insert_ordered (sw_b_HEAD state) b H) as U;
      cbn [sw_addr] in U; rewrite U
  end.
  split; [destruct state; reflexivity | rewrite app_nil_r; reflexivity].
Qed.

Lemma step_over_sw_breakpoints_requests sw (l : list thread) status k :
  Forall is_step_or_wait (trace (step_over_sw_breakpoints sw l status k)).
Proof.
  revert status k; induction l as [|t0 l IH]; intros status k; simpl.
  - constructor.
  - destruct (sw_breakpoint_at sw _); [|apply IH].
    rewrite trace_bind, trace_call; constructor; [exact I|].
    destruct (truthy _); [constructor|].
    rewrite trace_bind, run_waitpid; cbn [result final trace fst snd app].
    constructor; [exact I|].
    rewrite trace_bind; apply Forall_app; split; [|apply IH].
    match goal with
    | |- context [if ?c then _ else _] => destruct c
    end; [|constructor].
    rewrite trace_bind, trace_call, trace_bind, run_waitpid.
    cbn [result final trace fst snd app]; repeat constructor.
Qed.

(** The pokes of [prepare_for_run] are those of the enabled entries. *)
Lemma prepare_for_run_pokes (state : global_state) pid k p a d :
  In (PTRACE_POKEDATA p a d) (trace (prepare_for_run state pid k)) ->
  exists b, In b (enabled_sw (sw_b_HEAD state)) /\
            p = pid /\ a = sw_addr b /\ d = sw_patched_instruction b.
Proof.
  unfold prepare_for_run; cbv zeta; rewrite trace_bind, trace_bind.
  intros H; apply in_app_or in H; destruct H as [H|H].
  - pose proof (flush_registers_trace (t_HEAD state) k) as F.
    rewrite Forall_forall in F; destruct (F _ H).
  - apply in_app_or in H; destruct H as [H|H].
    + match type of H with
      | In _ (trace ?m) =>
          pose proof (step_over_sw_breakpoints_requests
                        (sw_b_HEAD state) (t_HEAD state) 0
                        (final (flush_registers (t_HEAD state) k))) as F
      end.
      rewrite Forall_forall in F; destruct (F _ H).
    + destruct (result (step_over_sw_breakpoints _ _ _ _)); [destruct H|].
      rewrite trace_bind, reset_sw_breakpoints_trace, trace_ret, app_nil_r in H.
      apply in_map_iff in H; destruct H as (b & Hb & Hin).
      exists b; inversion Hb; subst; auto.
Qed.

(** X9.  After [disable_breakpoint (state, address)] no enabled entry is
    left at the address, so the next [prepare_for_run] pokes nothing there;
    the entries at other addresses are the same as before. *)
Theorem disable_breakpoint_stops_patching (state : global_state)
  (address : Z) (k : kernel) :
  let state' := result (disable_breakpoint state address k) in
  (forall x, In x (enabled_sw (sw_b_HEAD state')) -> sw_addr x <> address) /\
  (forall pid k' d,
      ~ In (PTRACE_POKEDATA pid address d) (trace (prepare_for_run state' pid k'))) /\
  (forall x, sw_addr x <> address ->
             (In x (sw_b_HEAD state') <-> In x (sw_b_HEAD state))) /\
  trace (disable_breakpoint state address k) = [].
Proof.
  cbv zeta; unfold disable_breakpoint; run; cbn [sw_b_HEAD set_sw_b_HEAD].
  assert (Hen : forall x,
             In x (enabled_sw
                     (map (fun b => if sw_addr b =? address
                                    then set_sw_enabled b 0 else b)
                          (sw_b_HEAD state))) -> sw_addr x <> address).
  { intros x Hx; apply filter_In in Hx; destruct Hx as [Hx He].
    apply in_map_iff in Hx; destruct Hx as (y & <- & _).
    destruct (Z.eqb_spec (sw_addr y) address) as [E|E]; [discriminate He|exact E]. }
  split; [exact Hen|split; [|split; [|reflexivity]]].
  - intros pid k' d H; apply prepare_for_run_pokes in H.
    destruct H as (b & Hb & _ & Ha & _).
    cbn [sw_b_HEAD set_sw_b_HEAD] in Hb; apply (Hen b Hb); auto.
  - intros x Hx; split; intros H.
    + apply in_map_iff in H; destruct H as (y & <- & Hy).
      destruct (Z.eqb_spec (sw_addr y) address) as [E|E]; [|exact Hy].
      exfalso; apply Hx; exact E.
    + apply in_map_iff; exists x; split; [|exact H].
      destruct (Z.eqb_spec (sw_addr x) address) as [E|E];
        [contradiction|reflexivity].
Qed.

End SwTable.

(** ** The hardware-breakpoint table *)

Section HwTable.
Context {T : Target} {K : Kernel}.

Lemma hw_registered_iff (l : list hardware_breakpoint) tid address :
  existsb (fun b => (hw_addr b =? address) && (hw_tid b =? tid)) l = true <->
  In (address, tid) (map (fun b => (hw_addr b, hw_tid b)) l).
Proof.
  rewrite existsb_exists, in_map_iff; split.
  - intros (b & Hb & He); apply andb_true_iff in He; destruct He as [Ha Ht].
    apply Z.eqb_eq in Ha, Ht; exists b; subst; auto.
  - intros (b & Hb & Hin); inversion Hb; subst.
    exists b; rewrite !Z.eqb_refl; auto.
Qed.

(** X10.  [register_hw_breakpoint] for an (address, tid) pair that is
    already in the list changes nothing: it writes the diagnostic and makes
    no other request, in particular it does not read or write a debug
    register. *)
Theorem register_hw_breakpoint_duplicate (state : global_state)
  (tid address : Z) (type : Z * Z) (len : Z) (k : kernel) :
  In (address, tid) (hw_pairs state) ->
  register_hw_breakpoint state tid address type len k
  = (state, snd (sys (STDERR "Breakpoint already registered") k),
     [STDERR "Breakpoint already registered"]).
Proof.
  intros H; unfold register_hw_breakpoint.
  rewrite (proj2 (hw_registered_iff _ _ _) H).
  rewrite run_bind, run_stderr; reflexivity.
Qed.

Lemma unlink_hw_breakpoint_split (l : list hardware_breakpoint) tid address b l' :
  unlink_hw_breakpoint l tid address = Some (b, l') ->
  exists l1 l2, l = l1 ++ b :: l2 /\ l' = l1 ++ l2 /\
                hw_matches tid address b = true /\
                forall y, In y l1 -> hw_matches tid address y = false.
Proof.
  revert b l'; induction l as [|b0 l IH]; intros b l'; simpl.
  - discriminate.
  - destruct (hw_matches tid address b0) eqn:E.
    + intros H; inversion H; subst.
      exists [], l'; repeat split; auto; intros y [].
    + destruct (unlink_hw_breakpoint l tid address) as [[x l0]|]; [|discriminate].
      intros H; inversion H; subst.
      destruct (IH b l0 eq_refl) as (l1 & l2 & -> & -> & Hb & Hl1).
      exists (b0 :: l1), l2; repeat split; auto.
      intros y [<-|Hy]; auto.
Qed.

Lemma unlink_hw_breakpoint_first (l1 l2 : list hardware_breakpoint) tid address b :
  hw_matches tid address b = true ->
  (forall y, In y l1 -> hw_matches tid address y = false) ->
  unlink_hw_breakpoint (l1 ++ b :: l2) tid address = Some (b, l1 ++ l2).
Proof.
  intros Hb; induction l1 as [|y l1 IH]; intros Hl1; simpl.
  - rewrite Hb; reflexivity.
  - rewrite (Hl1 y (or_introl eq_refl)), IH; [reflexivity|].
    intros z Hz; apply Hl1; right; exact Hz.
Qed.

Lemma enable_hw_entries_pairs (l : list hardware_breakpoint) tid address k :
  map (fun b => (hw_addr b, hw_tid b)) (result (enable_hw_entries l tid address k))
  = map (fun b => (hw_addr b, hw_tid b)) l.
Proof.
  revert k; induction l as [|b0 l IH]; intros k; simpl.
  - reflexivity.
  - destruct (hw_matches tid address b0); run; cbn [map]; rewrite IH; reflexivity.
Qed.

Lemma disable_hw_entries_pairs (l : list hardware_breakpoint) tid address k :
  map (fun b => (hw_addr b, hw_tid b)) (result (disable_hw_entries l tid address k))
  = map (fun b => (hw_addr b, hw_tid b)) l.
Proof.
  revert k; induction l as [|b0 l IH]; intros k; simpl.
  - reflexivity.
  - destruct (hw_matches tid address b0); run; cbn [map]; rewrite IH; reflexivity.
Qed.

Lemma apply_hw_op_NoDup (state : global_state) (o : hw_op) (k : kernel) :
  NoDup (hw_pairs state) ->
  NoDup (hw_pairs (result (apply_hw_op state o k))).
Proof.
  intros Hn; destruct o as [tid address type len|tid address|tid address|tid address];
    simpl.
  - unfold register_hw_breakpoint.
    destruct (existsb _ (hw_b_HEAD state)) eqn:E; run; [exact Hn|].
    unfold hw_pairs; cbn [hw_b_HEAD set_hw_b_HEAD map hw_addr hw_tid].
    constructor; [|exact Hn].
    intros Hin; apply hw_registered_iff in Hin; congruence.
  - unfold unregister_hw_breakpoint.
    destruct (unlink_hw_breakpoint (hw_b_HEAD state) tid address)
      as [[b l]|] eqn:E; run; [|exact Hn].
    destruct (unlink_hw_breakpoint_split _ _ _ _ _ E) as (l1 & l2 & Hl & -> & _).
    unfold hw_pairs in *; cbn [hw_b_HEAD set_hw_b_HEAD]; rewrite Hl in Hn.
    rewrite map_app in *; cbn [map] in Hn.
    eapply NoDup_remove_1; exact Hn.
  - unfold enable_hw_breakpoint, hw_pairs; run; cbn [hw_b_HEAD set_hw_b_HEAD].
    rewrite enable_hw_entries_pairs; exact Hn.
  - unfold disable_hw_breakpoint, hw_pairs; run; cbn [hw_b_HEAD set_hw_b_HEAD].
    rewrite disable_hw_entries_pairs; exact Hn.
Qed.

(** X11.  The (address, tid) pairs of the hardware-breakpoint list stay
    pairwise distinct under any sequence of [register_hw_breakpoint],
    [unregister_hw_breakpoint], [enable_hw_breakpoint] and
    [disable_hw_breakpoint] calls, whatever the kernel answers. *)
Theorem hw_pairs_stay_distinct (ops : list hw_op) (state : global_state)
  (k : kernel) :
  NoDup (hw_pairs state) ->
  NoDup (hw_pairs (result (apply_hw_ops ops state k))).
Proof.
  revert state k; induction ops as [|o ops IH]; intros state k Hn; simpl.
  - exact Hn.
  - run; apply IH, apply_hw_op_NoDup, Hn.
Qed.

(** X12.  [unregister_hw_breakpoint] of an entry that is disabled only
    unlinks it: no request is made, so no debug register is read or
    written. *)
Theorem unregister_hw_breakpoint_disabled (state : global_state)
  (tid address : Z) (k : kernel) l1 b l2 :
  hw_b_HEAD state = l1 ++ b :: l2 ->
  hw_addr b = address -> hw_tid b = tid ->
  (forall y, In y l1 -> hw_matches tid address y = false) ->
  hw_enabled b = 0 ->
  unregister_hw_breakpoint state tid address k
  = (set_hw_b_HEAD state (l1 ++ l2), k, []).
Proof.
  intros Hl Ha Ht Hl1 He; unfold unregister_hw_breakpoint.
  rewrite Hl, unlink_hw_breakpoint_first; [|unfold hw_matches|exact Hl1].
  - rewrite He; reflexivity.
  - rewrite Ha, Ht, !Z.eqb_refl; reflexivity.
Qed.

(** A pair without entry: [unregister_hw_breakpoint] does nothing. *)
Lemma unregister_hw_breakpoint_absent (state : global_state)
  (tid address : Z) (k : kernel) :
  ~ In (address, tid) (hw_pairs state) ->
  unregister_hw_breakpoint state tid address k = (state, k, []).
Proof.
  intros H; unfold unregister_hw_breakpoint.
  destruct (unlink_hw_breakpoint (hw_b_HEAD state) tid address)
    as [[b l]|] eqn:E; [|reflexivity].
  destruct (unlink_hw_breakpoint_split _ _ _ _ _ E) as (l1 & l2 & Hl & _ & Hb & _).
  exfalso; apply H; unfold hw_pairs; rewrite Hl, map_app; cbn [map].
  apply in_or_app; right; left.
  unfold hw_matches in Hb; apply andb_true_iff in Hb; destruct Hb as [Ha Ht].
  apply Z.eqb_eq in Ha, Ht; subst; reflexivity.
Qed.

Lemma enable_hw_entries_enabled (l : list hardware_breakpoint) tid address k :
  (forall b, In b l -> hw_matches tid address b = true -> hw_enabled b = 1) ->
  enable_hw_entries l tid address k = (l, k, []).
Proof.
  revert k; induction l as [|b0 l IH]; intros k H; simpl.
  - reflexivity.
  - assert (Hl : forall b, In b l -> hw_matches tid address b = true ->
                           hw_enabled b = 1)
      by (intros b Hb; apply H; right; exact Hb).
    destruct (hw_matches tid address b0) eqn:E.
    + pose proof (H b0 (or_introl eq_refl) E) as He; rewrite He.
      cbn [truthy Z.eqb negb]; rewrite !run_bind, (IH _ Hl); cbn.
      destruct b0; cbn in He; subst; reflexivity.
    + rewrite run_bind, (IH _ Hl); reflexivity.
Qed.

Lemma enable_hw_entries_sets (l : list hardware_breakpoint) tid address k b :
  In b (result (enable_hw_entries l tid address k)) ->
  hw_matches tid address b = true -> hw_enabled b = 1.
Proof.
  revert k; induction l as [|b0 l IH]; intros k; simpl.
  - intros [].
  - destruct (hw_matches tid address b0) eqn:E; run.
    + intros [<-|H]; [reflexivity|eapply IH; exact H].
    + intros [<-|H]; [congruence|eapply IH; exact H].
Qed.

Lemma disable_hw_entries_disabled (l : list hardware_breakpoint) tid address k :
  (forall b, In b l -> hw_matches tid address b = true -> hw_enabled b = 0) ->
  disable_hw_entries l tid address k = (l, k, []).
Proof.
  revert k; induction l as [|b0 l IH]; intros k H; simpl.
  - reflexivity.
  - assert (Hl : forall b, In b l -> hw_matches tid address b = true ->
                           hw_enabled b = 0)
      by (intros b Hb; apply H; right; exact Hb).
    destruct (hw_matches tid address b0) eqn:E.
    + pose proof (H b0 (or_introl eq_refl) E) as He; rewrite He.
      cbn [truthy Z.eqb negb]; rewrite !run_bind, (IH _ Hl); cbn.
      destruct b0; cbn in He; subst; reflexivity.
    + rewrite run_bind, (IH _ Hl); reflexivity.
Qed.

Lemma disable_hw_entries_sets (l : list hardware_breakpoint) tid address k b :
  In b (result (disable_hw_entries l tid address k)) ->
  hw_matches tid address b = true -> hw_enabled b = 0.
Proof.
  revert k; induction l as [|b0 l IH]; intros k; simpl.
  - intros [].
  - destruct (hw_matches tid address b0) eqn:E; run.
    + intros [<-|H]; [reflexivity|eapply IH; exact H].
    + intros [<-|H]; [congruence|eapply IH; exact H].
Qed.

Lemma set_hw_b_HEAD_same (state : global_state) :
  set_hw_b_HEAD state (hw_b_HEAD state) = state.
Proof. destruct state; reflexivity. Qed.

(** Every entry for the pair is enabled already: nothing to do. *)
Lemma enable_hw_breakpoint_enabled (state : global_state) (tid address : Z)
  (k : kernel) :
  (forall b, In b (hw_b_HEAD state) -> hw_matches tid address b = true ->
             hw_enabled b = 1) ->
  enable_hw_breakpoint state tid address k = (state, k, []).
Proof.
  intros H; unfold enable_hw_breakpoint.
  rewrite run_bind, (enable_hw_entries_enabled _ _ _ _ H).
  cbn; rewrite set_hw_b_HEAD_same; reflexivity.
Qed.

Lemma disable_hw_breakpoint_disabled (state : global_state) (tid address : Z)
  (k : kernel) :
  (forall b, In b (hw_b_HEAD state) -> hw_matches tid address b = true ->
             hw_enabled b = 0) ->
  disable_hw_breakpoint state tid address k = (state, k, []).
Proof.
  intros H; unfold disable_hw_breakpoint.
  rewrite run_bind, (disable_hw_entries_disabled _ _ _ _ H).
  cbn; rewrite set_hw_b_HEAD_same; reflexivity.
Qed.

(** X13.  [enable_hw_breakpoint] and [disable_hw_breakpoint] are
    idempotent: a second call with the same arguments, right after the
    first, makes no request and leaves the state as the first call left
    it. *)
Theorem hw_breakpoint_toggle_idempotent (state : global_state)
  (tid address : Z) (k : kernel) :
  (let first := enable_hw_breakpoint state tid address k in
   enable_hw_breakpoint (result first) tid address (final first)
   = (result first, final first, [])) /\
  (let first := disable_hw_breakpoint state tid address k in
   disable_hw_breakpoint (result first) tid address (final first)
   = (result first, final first, [])).
Proof.
  split; cbv zeta.
  - apply enable_hw_breakpoint_enabled.
    unfold enable_hw_breakpoint; run; cbn [hw_b_HEAD set_hw_b_HEAD].
    intros b; apply enable_hw_entries_sets.
  - apply disable_hw_breakpoint_disabled.
    unfold disable_hw_breakpoint; run; cbn [hw_b_HEAD set_hw_b_HEAD].
    intros b; apply disable_hw_entries_sets.
Qed.

Lemma is_breakpoint_hit_reads (bp : hardware_breakpoint) k :
  Forall reads_user_area (trace (is_breakpoint_hit bp k)).
Proof.
  unfold is_breakpoint_hit; rewrite trace_bind, trace_call.
  constructor; [exact I|].
  repeat match goal with
         | |- context [if truthy ?c then _ else _] => destruct (truthy c)
         end;
    try (rewrite trace_bind, trace_call; constructor; [exact I|];
         match goal with
         | |- context [if ?c then _ else _] => destruct c
         end; constructor);
    constructor.
Qed.

(** X14.  [get_hit_hw_breakpoint] returns 0 or the address of an entry of
    the list that belongs to [tid], enabled or not; it only reads the user
    area. *)
Theorem get_hit_hw_breakpoint_result (state : global_state) (tid : Z)
  (k : kernel) :
  let out := get_hit_hw_breakpoint state tid k in
  (result out = 0 \/
   exists b, In b (hw_b_HEAD state) /\ hw_tid b = tid /\ hw_addr b = result out) /\
  Forall reads_user_area (trace out).
Proof.
  cbv zeta; unfold get_hit_hw_breakpoint.
  revert k; induction (hw_b_HEAD state) as [|b0 l IH]; intros k; simpl.
  - run; split; [left; reflexivity|constructor].
  - destruct (Z.eqb_spec (hw_tid b0) tid) as [E|E].
    + rewrite result_bind, trace_bind.
      destruct (truthy (result (is_breakpoint_hit b0 k))).
      * run; rewrite app_nil_r; split; [|apply is_breakpoint_hit_reads].
        right; exists b0; auto.
      * destruct (IH (final (is_breakpoint_hit b0 k))) as [[H|(b & Hb & Ht & Ha)] Hf].
        -- split; [left; exact H|].
           apply Forall_app; split; [apply is_breakpoint_hit_reads|exact Hf].
        -- split; [right; exists b; auto|].
           apply Forall_app; split; [apply is_breakpoint_hit_reads|exact Hf].
    + destruct (IH k) as [[H|(b & Hb & Ht & Ha)] Hf]; split; auto.
      right; exists b; auto.
Qed.

(** No entry for the tid: the answer is 0 and nothing is asked. *)
Lemma get_hit_hw_breakpoint_no_entry (state : global_state) (tid : Z)
  (k : kernel) :
  (forall b, In b (hw_b_HEAD state) -> hw_tid b <> tid) ->
  get_hit_hw_breakpoint state tid k = (0, k, []).
Proof.
  unfold get_hit_hw_breakpoint.
  induction (hw_b_HEAD state) as [|b0 l IH]; intros H; simpl.
  - reflexivity.
  - destruct (Z.eqb_spec (hw_tid b0) tid) as [E|E].
    + exfalso; apply (H b0); [left; reflexivity|exact E].
    + apply IH; intros b Hb; apply H; right; exact Hb.
Qed.

End HwTable.

(** ** The debug registers *)

Section DR7Fields.

Lemma field_of_words old c1 c2 c3 s m v :
  Z.land (Z.shiftr c1 s) (Z.land (Z.shiftr c2 s) 3) = m ->
  Z.land (Z.shiftr c3 s) 3 = v ->
  Z.land (Z.shiftr (Z.lor (Z.land (Z.land old c1) c2) c3) s) 3
  = Z.lor (Z.land (Z.shiftr old s) m) v.
Proof.
  intros <- <-.
  rewrite Z.shiftr_lor, !Z.shiftr_land, Z.land_lor_distr_l.
  rewrite <- !Z.land_assoc; reflexivity.
Qed.

Lemma field_of_masked old c1 c2 s m :
  Z.land (Z.shiftr c1 s) (Z.land (Z.shiftr c2 s) 3) = m ->
  Z.land (Z.shiftr (Z.land (Z.land old c1) c2) s) 3
  = Z.land (Z.shiftr old s) m.
Proof.
  intros <-; rewrite !Z.shiftr_land, <- !Z.land_assoc; reflexivity.
Qed.

Lemma bit_of_words old c1 c2 c3 p b1 b2 b3 :
  Z.testbit c1 p = b1 -> Z.testbit c2 p = b2 -> Z.testbit c3 p = b3 ->
  Z.testbit (Z.lor (Z.land (Z.land old c1) c2) c3) p
  = (Z.testbit old p && b1 && b2) || b3.
Proof.
  intros <- <- <-; rewrite Z.lor_spec, !Z.land_spec; reflexivity.
Qed.

Lemma bit_of_masked old c1 c2 p b1 b2 :
  Z.testbit c1 p = b1 -> Z.testbit c2 p = b2 ->
  Z.testbit (Z.land (Z.land old c1) c2) p = Z.testbit old p && b1 && b2.
Proof.
  intros <- <-; rewrite !Z.land_spec; reflexivity.
Qed.

Lemma slot_cases i : 0 <= i <= 3 -> i = 0 \/ i = 1 \/ i = 2 \/ i = 3.
Proof. lia. Qed.

Ltac slot_values i Hi bp :=
  unfold dr7_cleared, dr7_control, CTRL_COND_VAL, CTRL_LEN_VAL;
  destruct (slot_cases i Hi) as [-> | [-> | [-> | ->]]];
  destruct (fst (hw_type bp) =? 120); try destruct (fst (hw_type bp) =? 119);
  destruct (hw_len bp =? 1); try destruct (hw_len bp =? 2);
  try destruct (hw_len bp =? 8).

(** The DR7 that [install_hardware_breakpoint] writes for slot [i]: the
    local-enable bit of the slot is set and its condition and length fields
    hold the codes of the breakpoint. *)
Lemma dr7_installed_slot i bp old :
  0 <= i <= 3 ->
  let new := Z.lor (dr7_cleared i old) (dr7_control i bp) in
  Z.testbit new (2 * i) = true /\
  Z.land (Z.shiftr new (CTRL_COND i)) 3 = CTRL_COND_VAL (fst (hw_type bp)) /\
  Z.land (Z.shiftr new (CTRL_LEN i)) 3 = CTRL_LEN_VAL (hw_len bp).
Proof.
  intros Hi; cbv zeta; split; [|split].
  - slot_values i Hi bp;
      (erewrite bit_of_words;
       [|vm_compute; reflexivity|vm_compute; reflexivity|vm_compute; reflexivity]);
      apply orb_true_r.
  - slot_values i Hi bp;
      (erewrite field_of_words; [|vm_compute; reflexivity|vm_compute; reflexivity]);
      rewrite Z.land_0_r; reflexivity.
  - slot_values i Hi bp;
      (erewrite field_of_words; [|vm_compute; reflexivity|vm_compute; reflexivity]);
      rewrite Z.land_0_r; reflexivity.
Qed.

(** The same DR7 on the other slots: their local-enable bits and fields
    are those of the word that was read. *)
Lemma dr7_installed_others i j bp old :
  0 <= i <= 3 -> 0 <= j <= 3 -> j <> i ->
  let new := Z.lor (dr7_cleared i old) (dr7_control i bp) in
  Z.testbit new (2 * j) = Z.testbit old (2 * j) /\
  Z.land (Z.shiftr new (CTRL_COND j)) 3 = Z.land (Z.shiftr old (CTRL_COND j)) 3 /\
  Z.land (Z.shiftr new (CTRL_LEN j)) 3 = Z.land (Z.shiftr old (CTRL_LEN j)) 3.
Proof.
  intros Hi Hj Hne; cbv zeta; split; [|split].
  - destruct (slot_cases j Hj) as [-> | [-> | [-> | ->]]];
      slot_values i Hi bp; try lia;
      (erewrite bit_of_words;
       [|vm_compute; reflexivity|vm_compute; reflexivity|vm_compute; reflexivity]);
      rewrite orb_false_r, !andb_true_r; reflexivity.
  - destruct (slot_cases j Hj) as [-> | [-> | [-> | ->]]];
      slot_values i Hi bp; try lia;
      (erewrite field_of_words; [|vm_compute; reflexivity|vm_compute; reflexivity]);
      rewrite Z.lor_0_r; reflexivity.
  - destruct (slot_cases j Hj) as [-> | [-> | [-> | ->]]];
      slot_values i Hi bp; try lia;
      (erewrite field_of_words; [|vm_compute; reflexivity|vm_compute; reflexivity]);
      rewrite Z.lor_0_r; reflexivity.
Qed.

(** The DR7 that [remove_hardware_breakpoint] writes for slot [i]: the two
    fields of the slot are zero, its local-enable bit is as it was read. *)
Lemma dr7_removed_slot i old :
  0 <= i <= 3 ->
  let new := dr7_cleared i old in
  Z.testbit new (2 * i) = Z.testbit old (2 * i) /\
  Z.land (Z.shiftr new (CTRL_COND i)) 3 = 0 /\
  Z.land (Z.shiftr new (CTRL_LEN i)) 3 = 0.
Proof.
  intros Hi; cbv zeta; unfold dr7_cleared; split; [|split];
    destruct (slot_cases i Hi) as [-> | [-> | [-> | ->]]].
  all: try (erewrite bit_of_masked; [|vm_compute; reflexivity|vm_compute; reflexivity];
            rewrite !andb_true_r; reflexivity).
  all: erewrite field_of_masked; [|vm_compute; reflexivity];
    apply Z.land_0_r.
Qed.

(** The same DR7 on the other slots: nothing changes there. *)
Lemma dr7_removed_others i j old :
  0 <= i <= 3 -> 0 <= j <= 3 -> j <> i ->
  let new := dr7_cleared i old in
  Z.testbit new (2 * j) = Z.testbit old (2 * j) /\
  Z.land (Z.shiftr new (CTRL_COND j)) 3 = Z.land (Z.shiftr old (CTRL_COND j)) 3 /\
  Z.land (Z.shiftr new (CTRL_LEN j)) 3 = Z.land (Z.shiftr old (CTRL_LEN j)) 3.
Proof.
  intros Hi Hj Hne; cbv zeta; unfold dr7_cleared; split; [|split];
    destruct (slot_cases j Hj) as [-> | [-> | [-> | ->]]];
    destruct (slot_cases i Hi) as [-> | [-> | [-> | ->]]]; try lia.
  all: try (erewrite bit_of_masked; [|vm_compute; reflexivity|vm_compute; reflexivity];
            rewrite !andb_true_r; reflexivity).
  all: erewrite field_of_masked; [|vm_compute; reflexivity]; reflexivity.
Qed.

(** Converting to [unsigned long] keeps the bits and fields of DR7 that the
    code uses, which all lie below bit 64. *)
Lemma field_to_uint64 x s :
  0 <= s <= 62 ->
  Z.land (Z.shiftr (to_uint64 x) s) 3 = Z.land (Z.shiftr x s) 3.
Proof.
  intros Hs; apply Z.bits_inj'; intros n Hn.
  rewrite !Z.land_spec, !Z.shiftr_spec by lia.
  change 3 with (Z.ones 2).
  destruct (Z.ltb_spec n 2) as [L|L].
  - unfold to_uint64; rewrite Z.mod_pow2_bits_low by lia; reflexivity.
  - rewrite Z.ones_spec_high by lia; rewrite !andb_false_r; reflexivity.
Qed.

Lemma ctrl_field_range j :
  0 <= j <= 3 -> 0 <= CTRL_COND j <= 62 /\ 0 <= CTRL_LEN j <= 62.
Proof. unfold CTRL_COND, CTRL_LEN; lia. Qed.

End DR7Fields.

Section UserArea.
Context {T : Target} {K : Kernel}.
Variable user_of : kernel -> Z -> Z -> Z.
Hypothesis user_ok : kernel_user user_of.

Lemma peekuser_value tid off k :
  r_ret (fst (sys (PTRACE_PEEKUSER tid off) k)) = user_of k tid off.
Proof. destruct user_ok as [H _]; apply H. Qed.

Lemma peekuser_user tid off k t o :
  user_of (snd (sys (PTRACE_PEEKUSER tid off) k)) t o = user_of k t o.
Proof. destruct user_ok as [H _]; apply H. Qed.

Lemma pokeuser_user tid off data k t o :
  user_of (snd (sys (PTRACE_POKEUSER tid off data) k)) t o
  = if (t =? tid) && (o =? off) then data else user_of k t o.
Proof. destruct user_ok as [_ [H _]]; apply H. Qed.

Lemma stderr_user msg k t o :
  user_of (snd (sys (STDERR msg) k)) t o = user_of k t o.
Proof. destruct user_ok as [_ [_ H]]; apply H. Qed.

Lemma find_free_debug_register_user tid n i k t o :
  user_of (final (find_free_debug_register tid n i k)) t o = user_of k t o.
Proof.
  revert i k; induction n as [|n IH]; intros i k; simpl.
  - reflexivity.
  - run; destruct (negb _); run; [|rewrite IH]; apply peekuser_user.
Qed.

Lemma find_free_debug_register_spec tid n i k :
  let r := result (find_free_debug_register tid n i k) in
  (forall j, i <= j < r -> debug_register user_of k tid j <> 0) /\
  (r < i + Z.of_nat n -> debug_register user_of k tid r = 0).
Proof.
  revert i k; induction n as [|n IH]; intros i k; cbv zeta.
  - simpl; run; split; intros; lia.
  - cbn [find_free_debug_register]; run; rewrite peekuser_value.
    fold (debug_register user_of k tid i).
    unfold truthy; rewrite negb_involutive.
    destruct (Z.eqb_spec (debug_register user_of k tid i) 0) as [E|E]; run.
    + split; [intros; lia|intros _; exact E].
    + destruct (IH (i + 1)
                  (snd (sys (PTRACE_PEEKUSER tid (DR_BASE + i * DR_SIZE)) k)))
        as [Hlow Hat].
      assert (Hsame : forall j,
                 debug_register user_of
                   (snd (sys (PTRACE_PEEKUSER tid (DR_BASE + i * DR_SIZE)) k))
                   tid j = debug_register user_of k tid j)
        by (intros j; unfold debug_register; rewrite peekuser_user; reflexivity).
      split.
      * intros j Hj; destruct (Z.eq_dec j i) as [->|Hne]; [exact E|].
        rewrite <- Hsame; apply Hlow; lia.
      * intros Hr; rewrite <- Hsame; apply Hat; lia.
Qed.

Lemma find_debug_register_user tid addr n i k t o :
  user_of (final (find_debug_register tid addr n i k)) t o = user_of k t o.
Proof.
  revert i k; induction n as [|n IH]; intros i k; simpl.
  - reflexivity.
  - run; destruct (_ =? addr); run; [|rewrite IH]; apply peekuser_user.
Qed.

Lemma find_debug_register_spec tid addr n i k :
  let r := result (find_debug_register tid addr n i k) in
  i <= r <= i + Z.of_nat n /\
  (forall j, i <= j < r -> debug_register user_of k tid j <> addr) /\
  (r < i + Z.of_nat n -> debug_register user_of k tid r = addr).
Proof.
  revert i k; induction n as [|n IH]; intros i k; cbv zeta.
  - simpl; run; split; [lia|split; intros; lia].
  - cbn [find_debug_register]; run; rewrite peekuser_value.
    fold (debug_register user_of k tid i).
    destruct (Z.eqb_spec (debug_register user_of k tid i) addr) as [E|E]; run.
    + split; [lia|split]; [intros; lia|intros _; exact E].
    + destruct (IH (i + 1)
                  (snd (sys (PTRACE_PEEKUSER tid (DR_BASE + i * DR_SIZE)) k)))
        as (Hr & Hlow & Hat).
      assert (Hsame : forall j,
                 debug_register user_of
                   (snd (sys (PTRACE_PEEKUSER tid (DR_BASE + i * DR_SIZE)) k))
                   tid j = debug_register user_of k tid j)
        by (intros j; unfold debug_register; rewrite peekuser_user; reflexivity).
      split; [lia|split].
      * intros j Hj; destruct (Z.eq_dec j i) as [->|Hne]; [exact E|].
        rewrite <- Hsame; apply Hlow; lia.
      * intros Hr'; rewrite <- Hsame; apply Hat; lia.
Qed.

(** The user area after a successful [install_hardware_breakpoint]. *)
Lemma install_hardware_breakpoint_user (bp : hardware_breakpoint) k t o :
  let i := result (find_free_debug_register (hw_tid bp) 4 0 k) in
  i <> 4 ->
  user_of (final (install_hardware_breakpoint bp k)) t o
  = if (t =? hw_tid bp) && (o =? DR_BASE + 7 * DR_SIZE)
    then Z.lor (dr7_cleared i (debug_control user_of k (hw_tid bp)))
               (dr7_control i bp)
    else if (t =? hw_tid bp) && (o =? DR_BASE + i * DR_SIZE)
         then hw_addr bp
         else user_of k t o.
Proof.
  cbv zeta; intros Hi; unfold install_hardware_breakpoint; run.
  apply Z.eqb_neq in Hi; rewrite Hi; run.
  rewrite pokeuser_user, pokeuser_user, peekuser_user, peekuser_value.
  rewrite !find_free_debug_register_user.
  reflexivity.
Qed.

(** The user area after a successful [remove_hardware_breakpoint]. *)
Lemma remove_hardware_breakpoint_user (bp : hardware_breakpoint) k t o :
  let i := result (find_debug_register (hw_tid bp) (hw_addr bp) 4 0 k) in
  i <> 4 ->
  user_of (final (remove_hardware_breakpoint bp k)) t o
  = if (t =? hw_tid bp) && (o =? DR_BASE + i * DR_SIZE)
    then 0
    else if (t =? hw_tid bp) && (o =? DR_BASE + 7 * DR_SIZE)
         then dr7_cleared i (debug_control user_of k (hw_tid bp))
         else user_of k t o.
Proof.
  cbv zeta; intros Hi; unfold remove_hardware_breakpoint; run.
  apply Z.eqb_neq in Hi; rewrite Hi; run.
  rewrite pokeuser_user, pokeuser_user, peekuser_user, peekuser_value.
  rewrite !find_debug_register_user.
  reflexivity.
Qed.



Lemma hw_not_registered (l : list hardware_breakpoint) tid address :
  ~ In (address, tid) (map (fun b => (hw_addr b, hw_tid b)) l) ->
  existsb (fun b => (hw_addr b =? address) && (hw_tid b =? tid)) l = false.
Proof.
  intros H; destruct (existsb _ l) eqn:E; [|reflexivity].
  exfalso; apply H, hw_registered_iff; exact E.
Qed.

Lemma register_hw_breakpoint_run (state : global_state)
  (tid address : Z) (type : Z * Z) (len : Z) (k : kernel) :
  ~ In (address, tid) (hw_pairs state) ->
  let b := {| hw_addr := address; hw_tid := tid; hw_enabled := 1;
              hw_type := type; hw_len := len |} in
  register_hw_breakpoint state tid address type len k
  = (set_hw_b_HEAD state (b :: hw_b_HEAD state),
     final (install_hardware_breakpoint b k),
     trace (install_hardware_breakpoint b k)).
Proof.
  intros H; cbv zeta; unfold register_hw_breakpoint.
  rewrite (hw_not_registered _ _ _ H), run_bind; cbn [result final trace].
  destruct type; cbn [fst snd]; rewrite app_nil_r; reflexivity.
Qed.

Lemma free_slot_index (state : global_state) (tid : Z) (k : kernel) :
  0 < result (get_remaining_hw_breakpoint_count state tid k) ->
  let i := 4 - result (get_remaining_hw_breakpoint_count state tid k) in
  result (find_free_debug_register tid 4 0 k) = i /\ 0 <= i <= 3.
Proof.
  unfold get_remaining_hw_breakpoint_count; run; cbv zeta; intros H.
  pose proof (find_free_debug_register_range tid 4 0 k) as Hr.
  cbn [Z.of_nat Pos.of_succ_nat Pos.succ Z.add] in Hr; lia.
Qed.

(** X16.  With a free debug register, [register_hw_breakpoint] for a new
    pair puts the address into the first free register DR[i] of the thread
    and writes a DR7 in which slot [i] has its local-enable bit set and
    carries the condition and length codes of the request, while the bits
    of the other three slots are those of the DR7 that was read.  The other
    address registers and the other threads are not touched, and the entry
    is at the head of the list. *)
Theorem register_hw_breakpoint_programs_slot (state : global_state)
  (tid address : Z) (type : Z * Z) (len : Z) (k : kernel) :
  ~ In (address, tid) (hw_pairs state) ->
  0 < result (get_remaining_hw_breakpoint_count state tid k) ->
  let i := 4 - result (get_remaining_hw_breakpoint_count state tid k) in
  let out := register_hw_breakpoint state tid address type len k in
  let old := debug_control user_of k tid in
  let new := user_of (final out) tid (DR_BASE + 7 * DR_SIZE) in
  hw_b_HEAD (result out)
  = {| hw_addr := address; hw_tid := tid; hw_enabled := 1;
       hw_type := type; hw_len := len |} :: hw_b_HEAD state /\
  user_of (final out) tid (DR_BASE + i * DR_SIZE) = address /\
  (forall j, 0 <= j <= 3 -> j <> i ->
             user_of (final out) tid (DR_BASE + j * DR_SIZE)
             = user_of k tid (DR_BASE + j * DR_SIZE)) /\
  (forall t o, t <> tid -> user_of (final out) t o = user_of k t o) /\
  Z.testbit new (2 * i) = true /\
  Z.land (Z.shiftr new (CTRL_COND i)) 3 = CTRL_COND_VAL (fst type) /\
  Z.land (Z.shiftr new (CTRL_LEN i)) 3 = CTRL_LEN_VAL len /\
  (forall j, 0 <= j <= 3 -> j <> i ->
             Z.testbit new (2 * j) = Z.testbit old (2 * j) /\
             Z.land (Z.shiftr new (CTRL_COND j)) 3
             = Z.land (Z.shiftr old (CTRL_COND j)) 3 /\
             Z.land (Z.shiftr new (CTRL_LEN j)) 3
             = Z.land (Z.shiftr old (CTRL_LEN j)) 3).
Proof.
  intros Hnew Hfree; cbv zeta.
  destruct (free_slot_index state tid k Hfree) as [Hi Hrange].
  set (i := 4 - result (get_remaining_hw_breakpoint_count state tid k)) in *.
  rewrite (register_hw_breakpoint_run state tid address type len k Hnew).
  cbn [result final fst snd hw_b_HEAD set_hw_b_HEAD].
  set (b := {| hw_addr := address; hw_tid := tid; hw_enabled := 1;
               hw_type := type; hw_len := len |}).
  assert (Hu : forall t o,
             user_of (final (install_hardware_breakpoint b k)) t o
             = if (t =? tid) && (o =? DR_BASE + 7 * DR_SIZE)
               then Z.lor (dr7_cleared i (debug_control user_of k tid))
                          (dr7_control i b)
               else if (t =? tid) && (o =? DR_BASE + i * DR_SIZE)
                    then address
                    else user_of k t o).
  { intros t o.
    rewrite (install_hardware_breakpoint_user b k t o); cbn [hw_tid hw_addr b];
      rewrite Hi; [reflexivity|lia]. }
  unfold DR_BASE, DR_SIZE in *.
  split; [reflexivity|split; [|split; [|split]]].
  - rewrite Hu, Z.eqb_refl; cbn [andb].
    destruct (Z.eqb_spec (848 + i * 8) (848 + 7 * 8)); [lia|].
    rewrite Z.eqb_refl; reflexivity.
  - intros j Hj Hne; rewrite Hu, Z.eqb_refl; cbn [andb].
    destruct (Z.eqb_spec (848 + j * 8) (848 + 7 * 8)); [lia|].
    destruct (Z.eqb_spec (848 + j * 8) (848 + i * 8)); [lia|reflexivity].
  - intros t o Ht; rewrite Hu.
    destruct (Z.eqb_spec t tid); [contradiction|reflexivity].
  - rewrite Hu, !Z.eqb_refl; cbn [andb].
    destruct (dr7_installed_slot i b (debug_control user_of k tid) Hrange)
      as (H1 & H2 & H3).
    split; [exact H1|split; [exact H2|split; [exact H3|]]].
    intros j Hj Hne.
    apply (dr7_installed_others i j b (debug_control user_of k tid) Hrange Hj Hne).
Qed.

Lemma set_hw_b_HEAD_twice (state : global_state) l :
  set_hw_b_HEAD (set_hw_b_HEAD state l) (hw_b_HEAD state) = state.
Proof. destruct state; reflexivity. Qed.

(** X17.  Registering a hardware breakpoint for a new pair, with a free
    debug register and an address that no register in front of the free one
    holds, and then unregistering it gives back the list and the four
    address registers as they were.  Of DR7, the bits of the other slots
    are as they were read at the start; in the slot that was used the
    condition and length fields are zero and the local-enable bit, set by
    the installation, is left set, so that DR7 is not what it was whenever
    that bit was clear at the start. *)
Theorem register_then_unregister_hw_breakpoint (state : global_state)
  (tid address : Z) (type : Z * Z) (len : Z) (k : kernel) :
  ~ In (address, tid) (hw_pairs state) ->
  0 < result (get_remaining_hw_breakpoint_count state tid k) ->
  0 <= address < 2 ^ 64 ->
  let i := 4 - result (get_remaining_hw_breakpoint_count state tid k) in
  (forall j, 0 <= j < i -> debug_register user_of k tid j <> address) ->
  let out :=
    (s <- register_hw_breakpoint state tid address type len ;;
     unregister_hw_breakpoint s tid address) k in
  let old := debug_control user_of k tid in
  let new := user_of (final out) tid (DR_BASE + 7 * DR_SIZE) in
  result out = state /\
  (forall j, 0 <= j <= 3 ->
             debug_register user_of (final out) tid j
             = debug_register user_of k tid j) /\
  Z.testbit new (2 * i) = true /\
  Z.land (Z.shiftr new (CTRL_COND i)) 3 = 0 /\
  Z.land (Z.shiftr new (CTRL_LEN i)) 3 = 0 /\
  (forall j, 0 <= j <= 3 -> j <> i ->
             Z.testbit new (2 * j) = Z.testbit old (2 * j) /\
             Z.land (Z.shiftr new (CTRL_COND j)) 3
             = Z.land (Z.shiftr old (CTRL_COND j)) 3 /\
             Z.land (Z.shiftr new (CTRL_LEN j)) 3
             = Z.land (Z.shiftr old (CTRL_LEN j)) 3) /\
  (Z.testbit old (2 * i) = false -> new <> old).
Proof.
  intros Hnew Hfree Haddr; cbv zeta; intros Hfront.
  destruct (free_slot_index state tid k Hfree) as [Hi Hrange].
  destruct (find_free_debug_register_spec tid 4 0 k) as [_ Hzero].
  rewrite Hi in Hzero; cbn [Z.of_nat Pos.of_succ_nat Pos.succ Z.add] in Hzero.
  set (i := 4 - result (get_remaining_hw_breakpoint_count state tid k)) in *.
  rewrite run_bind.
  rewrite (register_hw_breakpoint_run state tid address type len k Hnew).
  cbn [result final trace fst snd].
  set (b := {| hw_addr := address; hw_tid := tid; hw_enabled := 1;
               hw_type := type; hw_len := len |}).
  set (k1 := final (install_hardware_breakpoint b k)).
  assert (Hu1 : forall t o,
             user_of k1 t o
             = if (t =? tid) && (o =? DR_BASE + 7 * DR_SIZE)
               then Z.lor (dr7_cleared i (debug_control user_of k tid))
                          (dr7_control i b)
               else if (t =? tid) && (o =? DR_BASE + i * DR_SIZE)
                    then address
                    else user_of k t o).
  { intros t o; unfold k1.
    rewrite (install_hardware_breakpoint_user b k t o); cbn [hw_tid hw_addr b];
      rewrite Hi; [reflexivity|lia]. }
  assert (Hdr1 : forall j, 0 <= j <= 3 ->
             debug_register user_of k1 tid j
             = if j =? i then address else debug_register user_of k tid j).
  { intros j Hj; unfold debug_register; rewrite Hu1, Z.eqb_refl; cbn [andb].
    unfold DR_BASE, DR_SIZE.
    destruct (Z.eqb_spec (848 + j * 8) (848 + 7 * 8)); [lia|].
    destruct (Z.eqb_spec (848 + j * 8) (848 + i * 8));
      destruct (Z.eqb_spec j i); try lia.
    unfold to_uint64; apply Z.mod_small; exact Haddr. }
  assert (Hfound : result (find_debug_register tid address 4 0 k1) = i).
  { destruct (find_debug_register_spec tid address 4 0 k1) as (Hr & Hlow & Hat).
    cbn [Z.of_nat Pos.of_succ_nat Pos.succ Z.add] in Hr, Hat.
    set (r := result (find_debug_register tid address 4 0 k1)) in *.
    destruct (Z.lt_trichotomy r i) as [Hlt|[Heq|Hgt]]; [|exact Heq|].
    - exfalso; apply (Hfront r); [lia|].
      rewrite <- (Hat ltac:(lia)), Hdr1 by lia.
      destruct (Z.eqb_spec r i); [lia|reflexivity].
    - exfalso; apply (Hlow i); [lia|].
      rewrite Hdr1, Z.eqb_refl by lia; reflexivity. }
  unfold unregister_hw_breakpoint; cbn [hw_b_HEAD set_hw_b_HEAD unlink_hw_breakpoint].
  assert (Hm : hw_matches tid address b = true)
    by (unfold hw_matches; cbn [hw_addr hw_tid b]; rewrite !Z.eqb_refl; reflexivity).
  rewrite Hm; cbn [hw_enabled b truthy Z.eqb negb].
  rewrite run_bind; cbn [result final trace fst snd].
  assert (Hu2 : forall t o,
             user_of (final (remove_hardware_breakpoint b k1)) t o
             = if (t =? tid) && (o =? DR_BASE + i * DR_SIZE)
               then 0
               else if (t =? tid) && (o =? DR_BASE + 7 * DR_SIZE)
                    then dr7_cleared i (debug_control user_of k1 tid)
                    else user_of k1 t o).
  { intros t o.
    rewrite (remove_hardware_breakpoint_user b k1 t o); cbn [hw_tid hw_addr b];
      rewrite Hfound; [reflexivity|lia]. }
  assert (Hnew7 : user_of (final (remove_hardware_breakpoint b k1)) tid
                          (DR_BASE + 7 * DR_SIZE)
                  = dr7_cleared i (debug_control user_of k1 tid)).
  { rewrite Hu2, Z.eqb_refl; cbn [andb]; unfold DR_BASE, DR_SIZE.
    destruct (Z.eqb_spec (848 + 7 * 8) (848 + i * 8)); [lia|].
    rewrite Z.eqb_refl; reflexivity. }
  assert (Hctl1 : debug_control user_of k1 tid
                  = to_uint64 (Z.lor (dr7_cleared i (debug_control user_of k tid))
                                     (dr7_control i b))).
  { unfold debug_control at 1; rewrite Hu1, !Z.eqb_refl; reflexivity. }
  assert (Hbit : Z.testbit (user_of (final (remove_hardware_breakpoint b k1)) tid
                                    (DR_BASE + 7 * DR_SIZE)) (2 * i) = true).
  { rewrite Hnew7.
    destruct (dr7_removed_slot i (debug_control user_of k1 tid) Hrange)
      as (H1 & _ & _).
    rewrite H1, Hctl1; unfold to_uint64; rewrite Z.mod_pow2_bits_low by lia.
    apply (dr7_installed_slot i b (debug_control user_of k tid) Hrange). }
  rewrite !final_ret.
  split; [apply set_hw_b_HEAD_twice|split; [|split; [exact Hbit|split; [|split; [|split]]]]].
  - intros j Hj; unfold debug_register at 1; rewrite Hu2, Z.eqb_refl; cbn [andb].
    unfold DR_BASE, DR_SIZE.
    destruct (Z.eqb_spec (848 + j * 8) (848 + i * 8)) as [E|E].
    + replace j with i by lia; rewrite Hzero by lia; reflexivity.
    + destruct (Z.eqb_spec (848 + j * 8) (848 + 7 * 8)); [lia|].
      fold DR_BASE; fold DR_SIZE.
      change (to_uint64 (user_of k1 tid (DR_BASE + j * DR_SIZE)))
        with (debug_register user_of k1 tid j).
      rewrite Hdr1 by lia.
      destruct (Z.eqb_spec j i); [lia|reflexivity].
  - rewrite Hnew7.
    apply (dr7_removed_slot i (debug_control user_of k1 tid) Hrange).
  - rewrite Hnew7.
    apply (dr7_removed_slot i (debug_control user_of k1 tid) Hrange).
  - intros j Hj Hne; rewrite Hnew7.
    destruct (dr7_removed_others i j (debug_control user_of k1 tid) Hrange Hj Hne)
      as (R1 & R2 & R3).
    destruct (dr7_installed_others i j b (debug_control user_of k tid)
                Hrange Hj Hne) as (I1 & I2 & I3).
    destruct (ctrl_field_range j Hj) as [C1 C2].
    rewrite R1, R2, R3, Hctl1, !field_to_uint64 by assumption.
    unfold to_uint64 at 1; rewrite Z.mod_pow2_bits_low by lia.
    auto.
  - intros Hold Heq; rewrite Heq, Hold in Hbit; discriminate.
Qed.

End UserArea.

(** ** The run/stop coordinator, continued *)

Section RunStop.
Context {T : Target} {K : Kernel}.

Lemma ptrace_requests_app a b :
  ptrace_requests (a ++ b) = ptrace_requests a ++ ptrace_requests b.
Proof. apply filter_app. Qed.

Lemma perror_requests msg k : ptrace_requests (trace (perror msg k)) = [].
Proof. rewrite run_stderr; reflexivity. Qed.

Lemma fprintf_stderr_requests msg k :
  ptrace_requests (trace (fprintf_stderr msg k)) = [].
Proof. unfold fprintf_stderr; run; reflexivity. Qed.

Lemma singlestep_flush_requests (l : list thread) tid s k :
  ptrace_requests (trace (singlestep_flush l tid s k)) = map flush_request l.
Proof.
  revert s k; induction l as [|t0 l IH]; intros s k; simpl.
  - reflexivity.
  - rewrite trace_bind, run_setregs; cbn [result final trace fst snd].
    rewrite trace_bind, !ptrace_requests_app.
    replace (ptrace_requests (trace ((if truthy _ then perror "ptrace_setregs"
                                      else ret tt) _)))
      with (@nil request)
      by (destruct (truthy _); [rewrite perror_requests|]; reflexivity).
    destruct (t_tid t0 =? tid); rewrite trace_bind, ptrace_requests_app, IH;
      destruct (result (singlestep_flush _ _ _ _)); run;
      rewrite app_nil_r; reflexivity.
Qed.

Lemma singlestep_flush_threads (l : list thread) tid s k :
  fst (result (singlestep_flush l tid s k))
  = map (fun x => if t_tid x =? tid then set_signal_to_forward x 0 else x) l.
Proof.
  revert s k; induction l as [|t0 l IH]; intros s k; simpl.
  - reflexivity.
  - rewrite result_bind, result_bind.
    destruct (t_tid t0 =? tid); rewrite result_bind;
      match goal with
      | |- context [result (singlestep_flush l tid ?s' ?k')] =>
          specialize (IH s' k');
          destruct (result (singlestep_flush l tid s' k')) as [l' s'']
      end; run; cbn [fst] in *; rewrite IH; reflexivity.
Qed.

Lemma singlestep_flush_signal (l : list thread) tid s k :
  NoDup (map t_tid l) ->
  snd (result (singlestep_flush l tid s k))
  = match find (fun t => t_tid t =? tid) l with
    | Some t => t_signal_to_forward t
    | None => s
    end.
Proof.
  revert s k; induction l as [|t0 l IH]; intros s k Hnd; simpl.
  - reflexivity.
  - inversion Hnd as [|? ? Hnot Hnd']; subst.
    rewrite result_bind, result_bind.
    destruct (Z.eqb_spec (t_tid t0) tid) as [E|E]; rewrite result_bind;
      match goal with
      | |- context [result (singlestep_flush l tid ?s' ?k')] =>
          specialize (IH s' k' Hnd');
          destruct (result (singlestep_flush l tid s' k')) as [l' s'']
      end; run; cbn [snd] in *; rewrite IH; [|reflexivity].
    rewrite (find_thread_absent l tid); [reflexivity|].
    rewrite <- E; exact Hnot.
Qed.

Lemma clear_signal_absent (l : list thread) tid :
  find (fun t => t_tid t =? tid) l = None ->
  map (fun x => if t_tid x =? tid then set_signal_to_forward x 0 else x) l = l.
Proof.
  induction l as [|t0 l IH]; simpl; [reflexivity|].
  destruct (t_tid t0 =? tid); [discriminate|].
  intros H; rewrite IH by exact H; reflexivity.
Qed.

(** X18.  [singlestep] writes the cached registers of every live thread
    once, in list order, and then issues one PTRACE_SINGLESTEP for [tid]
    that carries the pending signal of that thread; the thread's
    [signal_to_forward] is 0 afterwards and no other thread is changed.
    For a tid that is not registered there is no error path: signal 0 is
    forwarded and the state is as before. *)
Theorem singlestep_forwards_signal (state : global_state) (tid : Z)
  (k : kernel) :
  NoDup (live_tids state) ->
  let out := singlestep state tid k in
  let s := match get_thread state tid with
           | Some t => t_signal_to_forward t
           | None => 0
           end in
  ptrace_requests (trace out)
  = map flush_request (t_HEAD state) ++ [PTRACE_SINGLESTEP tid s] /\
  snd (result out)
  = set_t_HEAD state
      (map (fun x => if t_tid x =? tid then set_signal_to_forward x 0 else x)
           (t_HEAD state)) /\
  (get_thread state tid = None -> snd (result out) = state).
Proof.
  intros Hnd; cbv zeta; unfold singlestep, get_thread.
  rewrite trace_bind, result_bind.
  pose proof (singlestep_flush_requests (t_HEAD state) tid 0 k) as Hq.
  pose proof (singlestep_flush_threads (t_HEAD state) tid 0 k) as Ht.
  pose proof (singlestep_flush_signal (t_HEAD state) tid 0 k Hnd) as Hs.
  destruct (result (singlestep_flush (t_HEAD state) tid 0 k)) as [l s].
  cbn [fst snd] in Ht, Hs; subst l s.
  run; cbn [snd]; rewrite ptrace_requests_app, Hq.
  split; [reflexivity|split; [reflexivity|]].
  intros Hnone; rewrite (clear_signal_absent _ _ Hnone).
  apply set_t_HEAD_same.
Qed.


Lemma cont_threads_requests hs (l : list thread) k :
  ptrace_requests (trace (cont_threads hs l k)) = map (resume_request hs) l.
Proof.
  revert k; induction l as [|t0 l IH]; intros k; simpl.
  - reflexivity.
  - rewrite trace_bind, trace_call, trace_bind, trace_bind, trace_ret, app_nil_r.
    rewrite !ptrace_requests_app, IH.
    match goal with
    | |- context [truthy ?c] => destruct (truthy c)
    end; [rewrite fprintf_stderr_requests|]; destruct hs; reflexivity.
Qed.




(** X20.  [cont_all_and_set_bps] resumes every live thread exactly once,
    in list order, each with the signal that was pending for it, by
    PTRACE_SYSCALL when syscall handling is enabled and by PTRACE_CONT
    otherwise, and clears every pending signal.  It does so after
    [prepare_for_run] whatever that returned, also -1, and hands that value
    on as its own. *)
Theorem cont_all_and_set_bps_resumes_each_thread (state : global_state)
  (pid : Z) (k : kernel) :
  let out := cont_all_and_set_bps state pid k in
  let pre := prepare_for_run state pid k in
  ptrace_requests (trace out)
  = ptrace_requests (trace pre)
    ++ map (resume_request (handle_syscall_enabled state)) (t_HEAD state) /\
  fst (result out) = result pre /\
  live_tids (snd (result out)) = live_tids state /\
  map t_signal_to_forward (t_HEAD (snd (result out)))
  = map (fun _ => 0) (t_HEAD state).
Proof.
  cbv zeta; unfold cont_all_and_set_bps, live_tids.
  rewrite trace_bind, trace_bind, trace_ret, app_nil_r, ptrace_requests_app,
    cont_threads_requests.
  run; rewrite cont_threads_result; cbn [fst snd t_HEAD set_t_HEAD].
  rewrite !map_map; cbn [t_tid t_signal_to_forward set_signal_to_forward].
  repeat split.
Qed.

Lemma step_until_flush_absent (l : list thread) tid i acc k :
  ~ In tid (map t_tid l) ->
  result (step_until_flush l tid i acc k) = acc.
Proof.
  revert i acc k; induction l as [|t0 l IH]; intros i acc k H; simpl.
  - reflexivity.
  - run; rewrite IH by (intros Hin; apply H; right; exact Hin).
    destruct (Z.eqb_spec (t_tid t0) tid) as [E|E]; [|reflexivity].
    exfalso; apply H; left; exact E.
Qed.

Lemma step_until_flush_requests (l : list thread) tid i acc k :
  ptrace_requests (trace (step_until_flush l tid i acc k)) = map flush_request l.
Proof.
  revert i acc k; induction l as [|t0 l IH]; intros i acc k; simpl.
  - reflexivity.
  - rewrite trace_bind, run_setregs; cbn [result final trace fst snd].
    rewrite trace_bind, !ptrace_requests_app, IH.
    destruct (truthy _); [rewrite perror_requests|]; reflexivity.
Qed.

(** X21.  [step_until] for a tid that is not registered: the cached
    registers of all live threads are still written, then the function
    returns -1 without a single step, a wait or a register read, whatever
    [max_steps] is, and the state is as before. *)
Theorem step_until_unknown_thread (fuel : nat) (state : global_state)
  (tid addr max_steps : Z) (k : kernel) :
  ~ In tid (live_tids state) ->
  let out := step_until fuel state tid addr max_steps k in
  result out = Some (-1, state) /\
  ptrace_requests (trace out) = map flush_request (t_HEAD state).
Proof.
  intros H; cbv zeta; unfold step_until.
  rewrite result_bind, trace_bind, ptrace_requests_app,
    step_until_flush_requests, (step_until_flush_absent _ _ _ _ _ H).
  run; rewrite run_stderr; cbn [trace]; rewrite app_nil_r.
  split; [reflexivity|]; rewrite ?app_nil_r; reflexivity.
Qed.

Lemma step_until_flush_target (l : list thread) tid i acc k j t :
  result (step_until_flush l tid i acc k) = Some (j, t) ->
  acc = Some (j, t) \/
  (t_tid t = tid /\ exists n, j = (i + n)%nat /\ nth_error l n = Some t).
Proof.
  revert i acc k; induction l as [|t0 l IH]; intros i acc k; simpl.
  - intros H; left; exact H.
  - run; intros H; apply IH in H; destruct H as [H|(Ht & n & -> & Hn)].
    + destruct (Z.eqb_spec (t_tid t0) tid) as [E|E]; [|left; exact H].
      inversion H; subst; right; split; [reflexivity|].
      exists O; split; [lia|reflexivity].
    + right; split; [exact Ht|]; exists (S n); split; [lia|exact Hn].
Qed.

Lemma nth_error_update_thread (l : list thread) i f t :
  nth_error l i = Some t ->
  nth_error (update_thread i f l) i = Some (f t).
Proof.
  revert i; induction l as [|t0 l IH]; intros [|i] H; simpl in *;
    try discriminate.
  - inversion H; reflexivity.
  - apply IH; exact H.
Qed.

Lemma update_thread_tids (l : list thread) i regs :
  map t_tid (update_thread i (fun t => set_regs t regs) l) = map t_tid l.
Proof.
  revert i; induction l as [|t0 l IH]; intros [|i]; simpl;
    try reflexivity.
  f_equal; apply IH.
Qed.

(** Without a step limit the loop of [step_until] is left with 0 only by
    the [break] on the target address. *)
Lemma step_until_loop_unbounded fuel tid addr count status regs k regs' :
  result (step_until_loop fuel tid addr (-1) count status regs k)
  = Some (0, regs') ->
  INSTRUCTION_POINTER regs' = addr.
Proof.
  revert count status regs k; induction fuel as [|fuel IH];
    intros count status regs k; simpl.
  - run; discriminate.
  - rewrite result_bind.
    destruct (truthy _); [run; discriminate|].
    rewrite result_bind, run_waitpid; cbn [result final fst snd].
    rewrite result_bind, run_getregs; cbn [result final fst snd].
    rewrite !final_call.
    match goal with
    | |- context [INSTRUCTION_POINTER ?r =? addr] =>
        destruct (Z.eqb_spec (INSTRUCTION_POINTER r) addr) as [E|E]
    end.
    + run; intros H; injection H as <-; exact E.
    + match goal with
      | |- context [if ?c then _ else _] => destruct c
      end; apply IH.
Qed.

(** X22.  With [max_steps = -1], a return value of 0 from [step_until]
    means that the target was reached: the entry of the stepping thread
    caches an instruction pointer equal to [addr].  (With a step limit, 0
    is also what the function returns when the limit ran out.) *)
Theorem step_until_unbounded_reaches_addr (fuel : nat)
  (state state' : global_state) (tid addr : Z) (k : kernel) :
  result (step_until fuel state tid addr (-1) k) = Some (0, state') ->
  exists i t, nth_error (t_HEAD state') i = Some t /\
              t_tid t = tid /\
              INSTRUCTION_POINTER (t_regs t) = addr /\
              live_tids state' = live_tids state.
Proof.
  unfold step_until; rewrite result_bind.
  destruct (result (step_until_flush (t_HEAD state) tid 0 None k))
    as [[j t]|] eqn:E; [|run; discriminate].
  destruct (step_until_flush_target _ _ _ _ _ _ _ E)
    as [H|(Ht & n & -> & Hn)]; [discriminate|].
  rewrite result_bind.
  destruct (result (step_until_loop _ _ _ _ _ _ _ _)) as [[r regs]|] eqn:L;
    run; [|discriminate].
  intros H; inversion H; subst r state'; clear H.
  apply step_until_loop_unbounded in L.
  exists n, (set_regs t regs); cbn [t_HEAD set_t_HEAD Nat.add].
  split; [apply (nth_error_update_thread _ _ (fun t => set_regs t regs) _ Hn)|].
  split; [destruct t; exact Ht|split; [destruct t; exact L|]].
  unfold live_tids; cbn [t_HEAD set_t_HEAD]; apply update_thread_tids.
Qed.

End RunStop.

(** ** [wait_all_and_update_regs] *)

Section Restore.

Lemma restore_all_ext b m m' :
  (forall x, m x = m' x) -> forall x, restore_all b m x = restore_all b m' x.
Proof.
  unfold restore_all; revert m m'; induction b as [|b0 b' IH]; intros m m' H x;
    simpl.
  - apply H.
  - apply IH; intros y; destruct (truthy _); [|apply H].
    apply store_word_ext, H.
Qed.

Lemma restore_all_away b m a x :
  (forall y, In y b -> truthy (sw_enabled y) = true ->
             a + 8 <= sw_addr y \/ sw_addr y + 8 <= a) ->
  a <= x < a + 8 ->
  restore_all b m x = m x.
Proof.
  unfold restore_all; revert m; induction b as [|b0 b' IH]; intros m H Hx; simpl.
  - reflexivity.
  - rewrite IH; [|intros y Hy; apply H; right; exact Hy|exact Hx].
    destruct (truthy (sw_enabled b0)) eqn:E; [|reflexivity].
    apply store_word_outside.
    destruct (H b0 (or_introl eq_refl) E); lia.
Qed.

Lemma restore_all_app l1 l2 m :
  restore_all (l1 ++ l2) m = restore_all l2 (restore_all l1 m).
Proof. unfold restore_all; apply fold_left_app. Qed.

(** After the restoring pokes, an enabled entry reads back as its original
    word when no enabled entry behind it in the list overlaps its word. *)
Lemma restore_all_load l1 b l2 m :
  truthy (sw_enabled b) = true ->
  0 <= sw_instruction b < 2 ^ 64 ->
  (forall y, In y l2 -> truthy (sw_enabled y) = true ->
             sw_addr b + 8 <= sw_addr y \/ sw_addr y + 8 <= sw_addr b) ->
  load_word (restore_all (l1 ++ b :: l2) m) (sw_addr b) = sw_instruction b.
Proof.
  intros He Hw Hl2.
  rewrite restore_all_app.
  change (restore_all (b :: l2) (restore_all l1 m))
    with (restore_all l2
            (if truthy (sw_enabled b)
             then store_word (restore_all l1 m) (sw_addr b) (sw_instruction b)
             else restore_all l1 m)).
  rewrite He.
  rewrite <- (load_store_same (restore_all l1 m) (sw_addr b) _ Hw) at 2.
  apply load_word_ext; intros i Hi.
  apply (restore_all_away _ _ (sw_addr b)); [exact Hl2 | lia].
Qed.

End Restore.

Section WaitAll.
Context {T : Target} {K : Kernel}.

Lemma stop_other_threads_result pid (l : list thread) ts head next k :
  let r := result (stop_other_threads pid l ts head next k) in
  map t_tid (fst (fst r)) = map t_tid l /\
  map t_signal_to_forward (fst (fst r)) = map t_signal_to_forward l /\
  exists more, snd r = more ++ head :: next.
Proof.
  cbv zeta; revert ts head next k; induction l as [|t0 l IH];
    intros ts head next k; simpl.
  - split; [reflexivity|split; [reflexivity|exists []; reflexivity]].
  - destruct (negb (t_tid t0 =? ts_tid head)).
    + rewrite result_bind, run_getregs; cbn [result final fst snd].
      match goal with
      | |- context [if ?c then _ else _] => destruct c
      end.
      * rewrite result_bind, result_bind, run_waitpid;
          cbn [result final fst snd].
        rewrite result_bind.
        match goal with
        | |- context [result (stop_other_threads pid l ?a ?b ?n ?c)] =>
            destruct (IH a b n c) as (H1 & H2 & more & H3);
            destruct (result (stop_other_threads pid l a b n c))
              as [[l' ts'] head']
        end.
        run; cbn [fst snd map] in *; rewrite H1, H2, H3.
        split; [destruct t0; reflexivity|split; [destruct t0; reflexivity|]].
        eexists (more ++ [_]); rewrite <- app_assoc; reflexivity.
      * rewrite result_bind.
        match goal with
        | |- context [result (stop_other_threads pid l ?a ?b ?n ?c)] =>
            destruct (IH a b n c) as (H1 & H2 & more & H3);
            destruct (result (stop_other_threads pid l a b n c))
              as [[l' ts'] head']
        end.
        run; cbn [fst snd map] in *; rewrite H1, H2, H3.
        split; [destruct t0; reflexivity|split; [destruct t0; reflexivity|]].
        exists more; reflexivity.
    + rewrite result_bind.
      match goal with
      | |- context [result (stop_other_threads pid l ?a ?b ?n ?c)] =>
          destruct (IH a b n c) as (H1 & H2 & more & H3);
          destruct (result (stop_other_threads pid l a b n c))
            as [[l' ts'] head']
      end.
      run; cbn [fst snd map] in *; rewrite H1, H2, H3.
      split; [reflexivity|split; [reflexivity|exists more; reflexivity]].
Qed.

Lemma is_stop_or_poll_weaken pid tids tids' q :
  (forall x, In x tids -> In x tids') ->
  is_stop_or_poll pid tids q -> is_stop_or_poll pid tids' q.
Proof.
  intros H; destruct q; simpl; auto.
  intros (H1 & H2 & H3); auto.
Qed.

Lemma stop_other_threads_trace pid (l : list thread) ts head next k :
  Forall (is_stop_or_poll pid (map t_tid l))
         (trace (stop_other_threads pid l ts head next k)).
Proof.
  revert ts head next k; induction l as [|t0 l IH]; intros ts head next k;
    simpl.
  - constructor.
  - assert (Hrec : forall a b n c,
               Forall (is_stop_or_poll pid (t_tid t0 :: map t_tid l))
                      (trace (stop_other_threads pid l a b n c))).
    { intros a b n c; eapply Forall_impl; [|apply IH].
      intros q; apply is_stop_or_poll_weaken; intros x Hx; right; exact Hx. }
    destruct (negb (t_tid t0 =? ts_tid head)).
    + rewrite trace_bind, run_getregs; cbn [result final trace fst snd app].
      constructor; [exact I|].
      match goal with
      | |- context [if ?c then _ else _] => destruct c
      end.
      * rewrite trace_bind; unfold tgkill at 1; run; cbn [app].
        constructor; [simpl; auto|].
        rewrite run_waitpid; cbn [result final trace fst snd app].
        constructor; [exact I|].
        rewrite trace_bind.
        match goal with
        | |- context [result (stop_other_threads pid l ?a ?b ?n ?c)] =>
            destruct (result (stop_other_threads pid l a b n c))
              as [[l' ts'] head']
        end.
        run; rewrite app_nil_r; apply Hrec.
      * rewrite trace_bind.
        match goal with
        | |- context [result (stop_other_threads pid l ?a ?b ?n ?c)] =>
            destruct (result (stop_other_threads pid l a b n c))
              as [[l' ts'] head']
        end.
        run; rewrite app_nil_r; apply Hrec.
    + rewrite trace_bind.
      match goal with
      | |- context [result (stop_other_threads pid l ?a ?b ?n ?c)] =>
          destruct (result (stop_other_threads pid l a b n c))
            as [[l' ts'] head']
      end.
      run; rewrite app_nil_r; apply Hrec.
Qed.


Lemma drain_statuses_result fuel pid ts head k head' :
  result (drain_statuses fuel pid ts head k) = Some head' ->
  exists more, head' = more ++ head.
Proof.
  revert ts head k; induction fuel as [|fuel IH]; intros ts head k; simpl.
  - run; discriminate.
  - unfold getpgid at 1; run.
    rewrite run_waitpid; cbn [result final fst snd].
    match goal with
    | |- context [if ?c then _ else _] => destruct c
    end.
    + intros H; apply IH in H; destruct H as [more ->].
      eexists (more ++ [_]); rewrite <- app_assoc; reflexivity.
    + run; intros H; injection H as <-; exists []; reflexivity.
Qed.

Lemma drain_statuses_trace fuel pid tids ts head k :
  Forall (is_stop_or_poll pid tids)
         (trace (drain_statuses fuel pid ts head k)).
Proof.
  revert ts head k; induction fuel as [|fuel IH]; intros ts head k; simpl.
  - constructor.
  - unfold getpgid at 1; run; cbn [app].
    constructor; [exact I|].
    rewrite run_waitpid; cbn [result final trace fst snd app].
    constructor; [exact I|].
    match goal with
    | |- context [if ?c then _ else _] => destruct c
    end; [apply IH|constructor].
Qed.

Lemma update_all_regs_result (l : list thread) k :
  map t_tid (result (update_all_regs l k)) = map t_tid l /\
  map t_signal_to_forward (result (update_all_regs l k))
  = map t_signal_to_forward l.
Proof.
  revert k; induction l as [|t0 l IH]; intros k; simpl.
  - split; reflexivity.
  - rewrite result_bind, run_getregs; cbn [result final fst snd].
    run; cbn [map].
    match goal with
    | |- context [result (update_all_regs l ?c)] =>
        destruct (IH c) as [H1 H2]
    end.
    rewrite H1, H2; destruct t0; split; reflexivity.
Qed.

Lemma update_all_regs_trace pid tids (l : list thread) k :
  Forall (is_stop_or_poll pid tids) (trace (update_all_regs l k)).
Proof.
  revert k; induction l as [|t0 l IH]; intros k; simpl.
  - constructor.
  - rewrite trace_bind, run_getregs; cbn [result final trace fst snd app].
    constructor; [exact I|].
    run; rewrite app_nil_r; apply IH.
Qed.

(** The shape of a run of [wait_all_and_update_regs] that hands back a
    list: what the first wait gave, the kernel in which the restore loop
    starts, and the requests in front of that loop. *)
Lemma wait_all_and_update_regs_run (fuel : nat) (state state' : global_state)
  (pid : Z) (k : kernel) (head : list thread_status) :
  result (wait_all_and_update_regs fuel state pid k) = Some (Some head, state') ->
  let first := result (waitpid (- result (getpgid pid k)) indeterminate_int 0
                               (final (getpgid pid k))) in
  fst first <> -1 /\
  (exists more, head = more ++ [{| ts_tid := fst first; ts_status := snd first |}]) /\
  (exists l, state' = set_t_HEAD state l /\
             map t_tid l = map t_tid (t_HEAD state) /\
             map t_signal_to_forward l
             = map t_signal_to_forward (t_HEAD state)) /\
  exists k1 pre,
    final (wait_all_and_update_regs fuel state pid k)
    = final (restore_sw_breakpoints pid (sw_b_HEAD state) k1) /\
    trace (wait_all_and_update_regs fuel state pid k)
    = pre ++ map (poke_original pid) (enabled_sw (sw_b_HEAD state)) /\
    Forall (is_stop_or_poll pid (live_tids state)) pre.
Proof.
  cbv zeta; unfold wait_all_and_update_regs.
  rewrite result_bind, final_bind, trace_bind.
  set (pgid := result (getpgid pid k)); set (k0 := final (getpgid pid k)).
  rewrite result_bind, final_bind, trace_bind.
  destruct (result (waitpid (- pgid) indeterminate_int 0 k0))
    as [head_tid head_status] eqn:W.
  cbn [fst snd].
  destruct (Z.eqb_spec head_tid (-1)) as [E|E]; [run; discriminate|].
  rewrite result_bind, final_bind, trace_bind.
  set (k1 := final (waitpid (- pgid) indeterminate_int 0 k0)).
  pose proof (stop_other_threads_result pid (t_HEAD state)
                indeterminate_int
                {| ts_tid := head_tid; ts_status := head_status |} [] k1) as S1.
  pose proof (stop_other_threads_trace pid (t_HEAD state)
                indeterminate_int
                {| ts_tid := head_tid; ts_status := head_status |} [] k1) as S2.
  cbv zeta in S1.
  set (k2 := final (stop_other_threads pid (t_HEAD state)
                      indeterminate_int
                      {| ts_tid := head_tid; ts_status := head_status |} [] k1))
    in *.
  destruct (result (stop_other_threads pid (t_HEAD state)
                      indeterminate_int
                      {| ts_tid := head_tid; ts_status := head_status |} [] k1))
    as [[l1 ts1] head1].
  cbn [fst snd] in S1; destruct S1 as (T1 & T2 & more1 & ->).
  rewrite result_bind, final_bind, trace_bind.
  pose proof (drain_statuses_trace fuel pid (live_tids state) ts1
                (more1 ++ [{| ts_tid := head_tid; ts_status := head_status |}])
                k2) as D2.
  destruct (result (drain_statuses fuel pid ts1 _ k2)) as [head2|] eqn:D;
    [|run; discriminate].
  apply drain_statuses_result in D; destruct D as [more2 ->].
  rewrite result_bind, final_bind, trace_bind.
  rewrite result_bind, final_bind, trace_bind.
  run; intros H; injection H as <- <-.
  destruct (update_all_regs_result l1
              (final (drain_statuses fuel pid ts1
                        (more1 ++ [{| ts_tid := head_tid;
                                      ts_status := head_status |}]) k2)))
    as [U1 U2].
  split; [exact E|split; [|split]].
  - exists (more2 ++ more1); rewrite <- app_assoc; reflexivity.
  - eexists; split; [reflexivity|split]; congruence.
  - eexists; eexists; split; [reflexivity|split].
    + rewrite restore_sw_breakpoints_trace, app_nil_r, !app_assoc.
      reflexivity.
    + repeat (apply Forall_app; split);
        try exact S2; try exact D2; try apply update_all_regs_trace.
      * unfold getpgid; run; repeat constructor.
      * rewrite run_waitpid; repeat constructor.
Qed.



End WaitAll.

Section WaitAllMemory.
Context {T : Target} {K : Kernel}.
Variable mem_of : kernel -> memory.
Hypothesis mem_ok : kernel_memory mem_of.

Lemma restore_sw_breakpoints_memory pid (b : list software_breakpoint) k x :
  mem_of (final (restore_sw_breakpoints pid b k)) x = restore_all b (mem_of k) x.
Proof.
  destruct mem_ok as [Hpoke _].
  revert k x; induction b as [|b0 b' IH]; intros k x; simpl.
  - reflexivity.
  - run; rewrite IH.
    change (restore_all (b0 :: b') (mem_of k))
      with (restore_all b'
              (if truthy (sw_enabled b0)
               then store_word (mem_of k) (sw_addr b0) (sw_instruction b0)
               else mem_of k)).
    apply restore_all_ext; intros y.
    destruct (truthy (sw_enabled b0)); run; [apply Hpoke|reflexivity].
Qed.

(** X24.  When [wait_all_and_update_regs] hands back a list, the word in
    the tracee's memory at the address of an enabled software breakpoint is
    its original [instruction] again, provided that no enabled entry behind
    it in the list has its own word overlap (start less than 8 bytes
    away). *)
Theorem wait_all_and_update_regs_restores (fuel : nat)
  (state state' : global_state) (pid : Z) (k : kernel)
  (head : list thread_status) (l1 l2 : list software_breakpoint)
  (b : software_breakpoint) :
  result (wait_all_and_update_regs fuel state pid k) = Some (Some head, state') ->
  sw_b_HEAD state = l1 ++ b :: l2 ->
  truthy (sw_enabled b) = true ->
  0 <= sw_instruction b < 2 ^ 64 ->
  (forall y, In y l2 -> truthy (sw_enabled y) = true ->
             sw_addr b + 8 <= sw_addr y \/ sw_addr y + 8 <= sw_addr b) ->
  load_word (mem_of (final (wait_all_and_update_regs fuel state pid k)))
            (sw_addr b)
  = sw_instruction b.
Proof.
  intros H Hl He Hw Hl2.
  destruct (wait_all_and_update_regs_run _ _ _ _ _ _ H)
    as (_ & _ & _ & k1 & pre & -> & _ & _).
  rewrite <- (restore_all_load l1 b l2 (mem_of k1) He Hw Hl2), <- Hl.
  apply load_word_ext; intros i _.
  apply restore_sw_breakpoints_memory.
Qed.

End WaitAllMemory.

(** ** [is_breakpoint_hit] *)

Section HitDetection.
Context {T : Target} {K : Kernel}.
Variable user_of : kernel -> Z -> Z -> Z.
Hypothesis user_ok : kernel_user user_of.



End HitDetection.

(** ** Attaching and detaching *)

Section LifecycleRuns.
Context {T : Target} {L : LifecycleKernel}.
#[local] Existing Instance core_kernel.

Lemma run_lbind {A B : Type} (m : LM A) (f : A -> LM B) k :
  lbind m f k =
  (lresult (f (lresult (m k)) (lfinal (m k))),
   lfinal (f (lresult (m k)) (lfinal (m k))),
   ltrace (m k) ++ ltrace (f (lresult (m k)) (lfinal (m k)))).
Proof.
  unfold lbind, lresult, lfinal, ltrace.
  destruct (m k) as [[a k1] t1]; simpl.
  destruct (f a k1) as [[b k2] t2]; reflexivity.
Qed.

Lemma lresult_lbind {A B : Type} (m : LM A) (f : A -> LM B) k :
  lresult (lbind m f k) = lresult (f (lresult (m k)) (lfinal (m k))).
Proof. rewrite run_lbind; reflexivity. Qed.

Lemma ltrace_lbind {A B : Type} (m : LM A) (f : A -> LM B) k :
  ltrace (lbind m f k)
  = ltrace (m k) ++ ltrace (f (lresult (m k)) (lfinal (m k))).
Proof. rewrite run_lbind; reflexivity. Qed.

Lemma lfinal_lbind {A B : Type} (m : LM A) (f : A -> LM B) k :
  lfinal (lbind m f k) = lfinal (f (lresult (m k)) (lfinal (m k))).
Proof. rewrite run_lbind; reflexivity. Qed.

Lemma lfinal_lret {A : Type} (a : A) k : lfinal (lret a k) = k.
Proof. reflexivity. Qed.

Lemma lfinal_lcall q k : lfinal (lcall q k) = snd (lifecycle_sys q k).
Proof. unfold lcall; destruct (lifecycle_sys q k); reflexivity. Qed.

Lemma lresult_lcall q k : lresult (lcall q k) = fst (lifecycle_sys q k).
Proof. unfold lcall; destruct (lifecycle_sys q k); reflexivity. Qed.

Lemma lfinal_lift {A : Type} (m : M A) k : lfinal (lift m k) = final (m k).
Proof. unfold lift; destruct (m k) as [[a k1] t1]; reflexivity. Qed.

Lemma lresult_lret {A : Type} (a : A) k : lresult (lret a k) = a.
Proof. reflexivity. Qed.

Lemma ltrace_lret {A : Type} (a : A) k : ltrace (lret a k) = [].
Proof. reflexivity. Qed.

Lemma ltrace_lcall q k : ltrace (lcall q k) = [q].
Proof. unfold lcall; destruct (lifecycle_sys q k); reflexivity. Qed.

Lemma lresult_lift {A : Type} (m : M A) k : lresult (lift m k) = result (m k).
Proof. unfold lift; destruct (m k) as [[a k1] t1]; reflexivity. Qed.

Lemma ltrace_lift {A : Type} (m : M A) k :
  ltrace (lift m k) = map Core (trace (m k)).
Proof. unfold lift; destruct (m k) as [[a k1] t1]; reflexivity. Qed.

End LifecycleRuns.

Create Rewrite HintDb lrun.
#[global] Hint Rewrite @lresult_lbind @ltrace_lbind @lfinal_lbind @lresult_lret
  @ltrace_lret @lfinal_lret @ltrace_lcall @lfinal_lcall @lresult_lcall
  @lresult_lift @ltrace_lift @lfinal_lift : lrun.

Ltac lrun := autorewrite with lrun.

Section LifecycleProps.
Context {T : Target} {L : LifecycleKernel}.
#[local] Existing Instance core_kernel.

Lemma ltrace_report (c : bool) fmt k :
  ltrace ((if c then lift (fprintf_stderr fmt) else lret tt) k)
  = if c then [Core (STDERR fmt)] else [].
Proof.
  destruct c; [|reflexivity].
  rewrite ltrace_lift; unfold fprintf_stderr; run; reflexivity.
Qed.

Lemma ltrace_getregs tid regs k :
  ltrace (lift (getregs tid regs) k) = [Core (PTRACE_GETREGS tid)].
Proof. rewrite ltrace_lift, run_getregs; reflexivity. Qed.

Lemma ltrace_setregs tid regs k :
  ltrace (lift (setregs tid regs) k) = [Core (PTRACE_SETREGS tid regs)].
Proof. rewrite ltrace_lift, run_setregs; reflexivity. Qed.

Lemma ltrace_waitpid pid status options k :
  ltrace (lift (waitpid pid status options) k) = [Core (WAITPID pid options)].
Proof. rewrite ltrace_lift, run_waitpid; reflexivity. Qed.

Lemma ltrace_tgkill tgid tid sig k :
  ltrace (lift (tgkill tgid tid sig) k) = [Core (TGKILL tgid tid sig)].
Proof. rewrite ltrace_lift; unfold tgkill; run; reflexivity. Qed.

Lemma detach_for_kill_threads_spec pid (l : list thread) k :
  filter is_detach_or_kill (ltrace (detach_for_kill_threads pid l k))
  = flat_map (fun t => [PTRACE_DETACH (t_tid t);
                        Core (TGKILL pid (t_tid t) SIGKILL)]) l /\
  map t_tid (lresult (detach_for_kill_threads pid l k)) = map t_tid l /\
  map t_signal_to_forward (lresult (detach_for_kill_threads pid l k))
  = map t_signal_to_forward l.
Proof.
  revert k; induction l as [|t0 l IH]; intros k.
  - repeat split.
  - cbn [detach_for_kill_threads].
    rewrite ltrace_lbind, lresult_lbind, ltrace_getregs.
    destruct (lresult (lift (getregs (t_tid t0) (t_regs t0)) k)) as [r regs].
    rewrite !ltrace_lbind, !lresult_lbind, ltrace_lcall, ltrace_report,
      ltrace_tgkill, ltrace_lret, lresult_lret, app_nil_r.
    match goal with
    | |- context [detach_for_kill_threads pid l ?k'] =>
        destruct (IH k') as (H1 & H2 & H3)
    end.
    rewrite !filter_app, H1; cbn [map flat_map]; rewrite H2, H3.
    split; [|split; destruct t0; reflexivity].
    destruct (truthy r).
    + rewrite !ltrace_lbind, ltrace_tgkill, ltrace_waitpid, ltrace_lret.
      destruct (truthy (r_ret _)); reflexivity.
    + rewrite ltrace_lret; destruct (truthy (r_ret _)); reflexivity.
Qed.

(** X26.  [ptrace_detach_for_kill] detaches from every live thread and
    then kills it, thread after thread in list order: its PTRACE_DETACH and
    SIGKILL requests are one detach followed by one SIGKILL per thread,
    whether or not the detach succeeded.  The last request is the wait for
    [pid], and the live threads keep their tids. *)
Theorem ptrace_detach_for_kill_requests (state : global_state) (pid : Z)
  (k : lifecycle_kernel) :
  let out := ptrace_detach_for_kill state pid k in
  filter is_detach_or_kill (ltrace out)
  = flat_map (fun t => [PTRACE_DETACH (t_tid t);
                        Core (TGKILL pid (t_tid t) SIGKILL)]) (t_HEAD state) /\
  (exists pre, ltrace out = pre ++ [Core (WAITPID pid 0)]) /\
  live_tids (lresult out) = live_tids state.
Proof.
  cbv zeta; unfold ptrace_detach_for_kill, live_tids.
  rewrite !ltrace_lbind, !lresult_lbind, ltrace_waitpid, ltrace_lret,
    lresult_lret, app_nil_r.
  destruct (detach_for_kill_threads_spec pid (t_HEAD state) k) as (H1 & H2 & _).
  rewrite filter_app, H1; cbn [filter is_detach_or_kill t_HEAD set_t_HEAD].
  rewrite app_nil_r.
  split; [reflexivity|split; [eexists; reflexivity|exact H2]].
Qed.

Lemma lrun_lcall q k :
  lcall q k = (fst (lifecycle_sys q k), snd (lifecycle_sys q k), [q]).
Proof. unfold lcall; destruct (lifecycle_sys q k); reflexivity. Qed.

Lemma lrun_setregs tid regs k :
  lift (setregs tid regs) k
  = (r_ret (fst (lifecycle_sys (Core (PTRACE_SETREGS tid regs)) k)),
     snd (lifecycle_sys (Core (PTRACE_SETREGS tid regs)) k),
     [Core (PTRACE_SETREGS tid regs)]).
Proof. unfold lift; rewrite run_setregs; reflexivity. Qed.

Lemma lrun_getregs tid regs k :
  lift (getregs tid regs) k
  = ((r_ret (fst (lifecycle_sys (Core (PTRACE_GETREGS tid)) k)),
      match r_regs (fst (lifecycle_sys (Core (PTRACE_GETREGS tid)) k)) with
      | Some v => v
      | None => regs
      end),
     snd (lifecycle_sys (Core (PTRACE_GETREGS tid)) k),
     [Core (PTRACE_GETREGS tid)]).
Proof. unfold lift; rewrite run_getregs; reflexivity. Qed.

Lemma lrun_tgkill tgid tid sig k :
  lift (tgkill tgid tid sig) k
  = (r_ret (fst (lifecycle_sys (Core (TGKILL tgid tid sig)) k)),
     snd (lifecycle_sys (Core (TGKILL tgid tid sig)) k),
     [Core (TGKILL tgid tid sig)]).
Proof. unfold lift, tgkill; rewrite run_bind, run_call; reflexivity. Qed.

Lemma lrun_waitpid pid status options k :
  lift (waitpid pid status options) k
  = ((r_ret (fst (lifecycle_sys (Core (WAITPID pid options)) k)),
      match r_status (fst (lifecycle_sys (Core (WAITPID pid options)) k)) with
      | Some s => s
      | None => status
      end),
     snd (lifecycle_sys (Core (WAITPID pid options)) k),
     [Core (WAITPID pid options)]).
Proof. unfold lift; rewrite run_waitpid; reflexivity. Qed.

Lemma lrun_report (c : bool) fmt k :
  (if c then lift (fprintf_stderr fmt) else lret tt) k
  = (tt, lreplay (if c then [Core (STDERR fmt)] else []) k,
     if c then [Core (STDERR fmt)] else []).
Proof.
  destruct c; [|reflexivity].
  unfold lift, fprintf_stderr; rewrite run_bind, run_call; reflexivity.
Qed.

Lemma lreplay_app tr1 tr2 k :
  lreplay (tr1 ++ tr2) k = lreplay tr2 (lreplay tr1 k).
Proof. unfold lreplay; apply fold_left_app. Qed.

Ltac lstep :=
  rewrite ?ltrace_lbind, ?lresult_lbind, ?lfinal_lbind;
  rewrite ?lrun_lcall, ?lrun_setregs, ?lrun_getregs, ?lrun_tgkill,
    ?lrun_waitpid, ?lrun_report;
  cbn [lresult lfinal ltrace fst snd].

(** One round of the loop of [ptrace_detach_for_migration], followed by
    [rest]. *)
Lemma migration_round pid (t0 : thread) (rest : LM unit) k :
  ltrace
    (lbind (lift (setregs (t_tid t0) (t_regs t0)))
       (fun r =>
        lbind (if truthy r
               then lbind (lift (tgkill pid (t_tid t0) SIGSTOP))
                      (fun _ =>
                       lbind (lift (waitpid (t_tid t0) 0 0))
                         (fun _ =>
                          lbind (lift (setregs (t_tid t0) (t_regs t0)))
                            (fun _ => lret tt)))
               else lret tt)
          (fun _ =>
           lbind (lift (tgkill pid (t_tid t0) SIGSTOP))
             (fun _ =>
              lbind (lcall (PTRACE_DETACH (t_tid t0)))
                (fun d =>
                 lbind (if truthy (r_ret d)
                        then lift (fprintf_stderr
                                     "ptrace_detach failed for thread %d: %s")
                        else lret tt)
                   (fun _ => rest))))) k)
  = migration_requests pid t0 k
    ++ ltrace (rest (lreplay (migration_requests pid t0 k) k)).
Proof.
  unfold migration_requests, refused, flush_request.
  rewrite ltrace_lbind, lrun_setregs; cbn [lresult lfinal ltrace fst snd].
  destruct (truthy (r_ret (fst (lifecycle_sys
              (Core (PTRACE_SETREGS (t_tid t0) (t_regs t0))) k)))).
  - do 3 lstep.
    rewrite !lreplay_app; cbn [lreplay fold_left app].
    destruct (truthy (r_ret (fst (lifecycle_sys (PTRACE_DETACH (t_tid t0)) _))));
      cbn [lreplay fold_left app]; reflexivity.
  - do 3 lstep.
    rewrite !lreplay_app; cbn [lreplay fold_left app].
    destruct (truthy (r_ret (fst (lifecycle_sys (PTRACE_DETACH (t_tid t0)) _))));
      cbn [lreplay fold_left app]; reflexivity.
Qed.

Lemma detach_for_migration_threads_spec pid (l : list thread) k :
  ltrace (detach_for_migration_threads pid l k)
  = served_in_turn (migration_requests pid) l k.
Proof.
  revert k; induction l as [|t0 l IH]; intros k;
    cbn [detach_for_migration_threads served_in_turn].
  - reflexivity.
  - rewrite migration_round, IH; reflexivity.
Qed.

(** X27.  [ptrace_detach_for_migration] treats the live threads one after
    the other in list order.  For each it writes the cached registers and,
    exactly when that write is refused, sends SIGSTOP, waits for the thread
    and writes the registers again; then it always sends SIGSTOP and right
    after it requests the detach, so that a thread whose first register
    write was refused is sent SIGSTOP twice; exactly when the detach is
    refused it writes a diagnostic, and goes on with the next thread.
    These are all its requests.  [ptrace_detach_and_cont] makes the same
    requests followed by one SIGCONT to [pid]. *)
Theorem ptrace_detach_for_migration_requests (state : global_state)
  (pid : Z) (k : lifecycle_kernel) :
  ltrace (ptrace_detach_for_migration state pid k)
  = served_in_turn (migration_requests pid) (t_HEAD state) k /\
  ltrace (ptrace_detach_and_cont state pid k)
  = ltrace (ptrace_detach_for_migration state pid k) ++ [KILL pid SIGCONT].
Proof.
  split; [apply detach_for_migration_threads_spec|].
  unfold ptrace_detach_and_cont.
  rewrite !ltrace_lbind, ltrace_lcall, ltrace_lret; reflexivity.
Qed.

(** One round of the loop of [ptrace_reattach_from_gdb], followed by
    [rest], which is given the register block that the read has left. *)
Lemma reattach_round (t0 : thread) {A : Type}
  (rest : ptrace_regs_struct -> LM A) k :
  let round :=
    lbind (lcall (PTRACE_ATTACH (t_tid t0)))
      (fun a =>
       lbind (if truthy (r_ret a)
              then lift (fprintf_stderr "ptrace_attach failed for thread %d: %s")
              else lret tt)
         (fun _ =>
          lbind (lift (getregs (t_tid t0) (t_regs t0)))
            (fun x =>
             match x with
             | (r, regs) =>
                 lbind (if truthy r
                        then lift (fprintf_stderr
                                     "ptrace_getregs failed for thread %d: %s")
                        else lret tt)
                   (fun _ => rest regs)
             end))) in
  exists regs,
    ltrace (round k)
    = reattach_requests t0 k
      ++ ltrace (rest regs (lreplay (reattach_requests t0 k) k)) /\
    lresult (round k)
    = lresult (rest regs (lreplay (reattach_requests t0 k) k)).
Proof.
  cbv zeta; unfold reattach_requests, refused.
  do 2 lstep.
  destruct (truthy (r_ret (fst (lifecycle_sys (PTRACE_ATTACH (t_tid t0)) k))));
    cbn [lreplay fold_left app]; do 2 lstep;
    rewrite ?lreplay_app; cbn [lreplay fold_left app];
    destruct (truthy (r_ret (fst (lifecycle_sys
                (Core (PTRACE_GETREGS (t_tid t0))) _))));
    cbn [lreplay fold_left app]; eexists; split; reflexivity.
Qed.

Lemma reattach_threads_spec (l : list thread) k :
  ltrace (reattach_threads l k) = served_in_turn reattach_requests l k /\
  map t_tid (lresult (reattach_threads l k)) = map t_tid l.
Proof.
  revert k; induction l as [|t0 l IH]; intros k;
    cbn [reattach_threads served_in_turn].
  - split; reflexivity.
  - destruct (reattach_round t0
                (fun regs => lbind (reattach_threads l)
                               (fun l' => lret (set_regs t0 regs :: l'))) k)
      as (regs & -> & ->).
    rewrite ltrace_lbind, lresult_lbind, ltrace_lret, lresult_lret, app_nil_r.
    match goal with
    | |- context [reattach_threads l ?k'] => destruct (IH k') as (H1 & H2)
    end.
    rewrite H1; cbn [map]; rewrite H2.
    split; [reflexivity|destruct t0; reflexivity].
Qed.

(** X28.  [ptrace_reattach_from_gdb] treats the live threads one after the
    other in list order: for each it requests the attach, writes a
    diagnostic exactly when the attach is refused, reads the registers
    whether or not the attach was refused, and writes a diagnostic exactly
    when the read is refused.  These are all its requests, and the live
    threads keep their tids. *)
Theorem ptrace_reattach_from_gdb_requests (state : global_state) (pid : Z)
  (k : lifecycle_kernel) :
  let out := ptrace_reattach_from_gdb state pid k in
  ltrace out = served_in_turn reattach_requests (t_HEAD state) k /\
  live_tids (lresult out) = live_tids state.
Proof.
  cbv zeta; unfold ptrace_reattach_from_gdb, live_tids.
  rewrite !ltrace_lbind, !lresult_lbind, ltrace_lret, lresult_lret, app_nil_r.
  destruct (reattach_threads_spec (t_HEAD state) k) as (H1 & H2).
  cbn [t_HEAD set_t_HEAD]; auto.
Qed.

End LifecycleProps.

(** * More runs on the simulated tracee *)

Section ConcreteRest.
#[local] Existing Instance amd64.
#[local] Existing Instance sim_kernel.

Lemma sim_kernel_user : @kernel_user amd64 sim_kernel sim_user.
Proof.
  split; [|split].
  - intros tid off k; split; [reflexivity|intros t o; reflexivity].
  - intros tid off data k t o; simpl; unfold upd.
    destruct (t =? tid) eqn:E; [|reflexivity].
    apply Z.eqb_eq in E; subst t; reflexivity.
  - intros msg k t o; reflexivity.
Qed.

(** *** Thread table *)

Lemma register_thread_fresh_witness :
  let state := mk_state [mk_thread 100 4096] [] in
  let out := register_thread state 300 nops in
  let r := fst (sys (PTRACE_GETREGS 300) nops) in
  exists t,
    result out = (O, set_t_HEAD state (t :: t_HEAD state)) /\
    t_tid t = 300 /\
    t_signal_to_forward t = 0 /\
    t_regs t = match r_regs r with Some v => v | None => indeterminate_regs end /\
    trace out = [PTRACE_GETREGS 300] /\
    final out = snd (sys (PTRACE_GETREGS 300) nops).
Proof.
  cbv zeta.
  apply (register_thread_fresh (mk_state [mk_thread 100 4096] []) 300 nops).
  simpl; lia.
Defined.

Lemma live_tids_stay_distinct_witness :
  let ops := [RegisterThread 100; RegisterThread 101; RegisterThread 100;
              UnregisterThread 100; RegisterThread 100; UnregisterThread 7] in
  NoDup (live_tids (result (apply_thread_ops ops (mk_state [] []) nops))).
Proof.
  cbv zeta.
  apply (live_tids_stay_distinct _ (mk_state [] []) nops).
  constructor.
Defined.

Lemma unregister_thread_moves_to_dead_witness :
  let state := mk_state [mk_thread 100 4096; mk_thread 101 4097] [] in
  exists l1 t l2,
    t_HEAD state = l1 ++ t :: l2 /\
    t_tid t = 101 /\
    (forall y, In y l1 -> t_tid y <> 101) /\
    unregister_thread state 101
    = {| t_HEAD := l1 ++ l2; dead_t_HEAD := t :: dead_t_HEAD state;
         sw_b_HEAD := sw_b_HEAD state; hw_b_HEAD := hw_b_HEAD state;
         handle_syscall_enabled := handle_syscall_enabled state |}.
Proof.
  cbv zeta.
  apply (unregister_thread_moves_to_dead
           (mk_state [mk_thread 100 4096; mk_thread 101 4097] []) 101).
  simpl; lia.
Defined.

Lemma unregister_thread_then_get_thread_witness :
  let state := mk_state [mk_thread 100 4096; mk_thread 101 4097] [] in
  get_thread (unregister_thread state 101) 101 = None.
Proof.
  cbv zeta.
  apply (unregister_thread_then_get_thread
           (mk_state [mk_thread 100 4096; mk_thread 101 4097] []) 101).
  repeat (constructor; [simpl; lia|]); constructor.
Defined.

Lemma register_unregister_register_witness :
  let state := mk_state [mk_thread 100 4096] [] in
  let out :=
    ('(_, s1) <- register_thread state 101 ;;
     '(_, s3) <- register_thread (unregister_thread s1 101) 101 ;;
     ret s3) nops in
  exists t1 t3,
    t_tid t1 = 101 /\ t_tid t3 = 101 /\
    t_HEAD (result out) = t3 :: t_HEAD state /\
    dead_t_HEAD (result out) = t1 :: dead_t_HEAD state /\
    trace out = [PTRACE_GETREGS 101; PTRACE_GETREGS 101].
Proof.
  cbv zeta.
  apply (register_unregister_register (mk_state [mk_thread 100 4096] []) 101 nops).
  simpl; lia.
Defined.

(** *** Software breakpoints *)

Lemma register_breakpoint_fresh_witness :
  let state := mk_state [] [mk_sw 4000 1; mk_sw 5000 0] in
  let out := register_breakpoint state 100 4096 nops in
  Permutation (mk_sw 4096 1 :: sw_b_HEAD state) (sw_b_HEAD (result out)) /\
  t_HEAD (result out) = t_HEAD state /\
  hw_b_HEAD (result out) = hw_b_HEAD state /\
  trace out = [PTRACE_PEEKDATA 100 4096; PTRACE_POKEDATA 100 4096 int3_word].
Proof.
  cbv zeta.
  apply (register_breakpoint_fresh
           (mk_state [] [mk_sw 4000 1; mk_sw 5000 0]) 100 4096 nops).
  intros y [<-|[<-|[]]]; vm_compute; discriminate.
Defined.

Lemma register_then_unregister_breakpoint_witness :
  let state := mk_state [] [mk_sw 4000 1; mk_sw 5000 0] in
  let out :=
    (s <- register_breakpoint state 100 4096 ;;
     unregister_breakpoint s 4096) nops in
  result out = state /\
  trace out = [PTRACE_PEEKDATA 100 4096; PTRACE_POKEDATA 100 4096 int3_word].
Proof.
  cbv zeta.
  apply (register_then_unregister_breakpoint
           (mk_state [] [mk_sw 4000 1; mk_sw 5000 0]) 100 4096 nops).
  intros y [<-|[<-|[]]]; vm_compute; discriminate.
Defined.

(** *** Hardware breakpoints *)

Lemma register_hw_breakpoint_duplicate_witness :
  let state := result four_hw_breakpoints in
  let k := final four_hw_breakpoints in
  register_hw_breakpoint state 100 8200 (114, 119) 4 k
  = (state, k, [STDERR "Breakpoint already registered"]).
Proof.
  cbv zeta.
  apply (register_hw_breakpoint_duplicate
           (result four_hw_breakpoints) 100 8200 (114, 119) 4
           (final four_hw_breakpoints)).
  right; right; left; reflexivity.
Defined.

Lemma hw_pairs_stay_distinct_witness :
  let ops := [RegisterHw 100 8192 (120, 0) 1; RegisterHw 100 8192 (119, 0) 8;
              RegisterHw 101 8192 (120, 0) 1; DisableHw 100 8192;
              RegisterHw 100 8192 (120, 0) 1; UnregisterHw 100 8192;
              EnableHw 101 8192; RegisterHw 100 8192 (120, 0) 1] in
  NoDup (hw_pairs (result (apply_hw_ops ops (mk_state [] []) nops))).
Proof.
  cbv zeta.
  apply (hw_pairs_stay_distinct _ (mk_state [] []) nops).
  constructor.
Defined.

Lemma unregister_hw_breakpoint_disabled_witness :
  let b1 := {| hw_addr := 8192; hw_tid := 100; hw_enabled := 1;
               hw_type := (120, 0); hw_len := 1 |} in
  let b2 := {| hw_addr := 8200; hw_tid := 100; hw_enabled := 0;
               hw_type := (119, 0); hw_len := 8 |} in
  let state := set_hw_b_HEAD (mk_state [mk_thread 100 4096] []) [b1; b2] in
  unregister_hw_breakpoint state 100 8200 nops
  = (set_hw_b_HEAD state [b1], nops, []).
Proof.
  cbv zeta.
  apply (unregister_hw_breakpoint_disabled _ 100 8200 nops
           [{| hw_addr := 8192; hw_tid := 100; hw_enabled := 1;
               hw_type := (120, 0); hw_len := 1 |}]
           {| hw_addr := 8200; hw_tid := 100; hw_enabled := 0;
              hw_type := (119, 0); hw_len := 8 |} []).
  - reflexivity.
  - reflexivity.
  - reflexivity.
  - intros y [<-|[]]; reflexivity.
  - reflexivity.
Defined.

(** *** Debug registers *)


Lemma register_hw_breakpoint_programs_slot_witness :
  let state := result second_slot_in_use in
  let k := final second_slot_in_use in
  let out := register_hw_breakpoint state 100 8208 (119, 0) 2 k in
  let new := sim_user (final out) 100 (DR_BASE + 7 * DR_SIZE) in
  sim_user (final out) 100 (DR_BASE + 0 * DR_SIZE) = 8208 /\
  sim_user (final out) 100 (DR_BASE + 1 * DR_SIZE) = 8200 /\
  Z.testbit new 0 = true /\
  Z.land (Z.shiftr new (CTRL_COND 0)) 3 = 1 /\
  Z.land (Z.shiftr new (CTRL_LEN 0)) 3 = 1.
Proof.
  cbv zeta.
  assert (Hnew : ~ In (8208, 100) (hw_pairs (result second_slot_in_use)))
    by (vm_compute; intros [H|[]]; discriminate H).
  assert (Hfree : 0 < result (get_remaining_hw_breakpoint_count
                                (result second_slot_in_use) 100
                                (final second_slot_in_use)))
    by (vm_compute; reflexivity).
  destruct (@register_hw_breakpoint_programs_slot amd64 sim_kernel sim_user sim_kernel_user
              (result second_slot_in_use) 100 8208 (119, 0) 2
              (final second_slot_in_use) Hnew Hfree)
    as (_ & Haddr & Hothers & _ & Hbit & Hcond & Hlen & _).
  split; [exact Haddr|split; [|split; [exact Hbit|split]]].
  - rewrite (Hothers 1) by (vm_compute; intuition discriminate); reflexivity.
  - exact Hcond.
  - exact Hlen.
Defined.

(** On the tracee [nops], where DR7 of thread 100 is 0, the round trip
    leaves 1 in DR7: the local-enable bit of slot 0. *)
Lemma register_then_unregister_hw_breakpoint_witness :
  let state := mk_state [mk_thread 100 4096] [] in
  let out :=
    (s <- register_hw_breakpoint state 100 8192 (119, 0) 2 ;;
     unregister_hw_breakpoint s 100 8192) nops in
  let old := @debug_control amd64 sim_kernel sim_user nops 100 in
  let new := sim_user (final out) 100 (DR_BASE + 7 * DR_SIZE) in
  result out = state /\
  (forall j, 0 <= j <= 3 ->
             @debug_register amd64 sim_kernel sim_user (final out) 100 j
             = @debug_register amd64 sim_kernel sim_user nops 100 j) /\
  old = 0 /\ new = 1 /\ new <> old.
Proof.
  cbv zeta.
  assert (Hnew : ~ In (8192, 100) (hw_pairs (mk_state [mk_thread 100 4096] [])))
    by (simpl; tauto).
  assert (Hfree : 0 < result (get_remaining_hw_breakpoint_count
                                (mk_state [mk_thread 100 4096] []) 100 nops))
    by (vm_compute; reflexivity).
  assert (Haddr : 0 <= 8192 < 2 ^ 64) by lia.
  assert (Hfront : forall j,
             0 <= j < 4 - result (get_remaining_hw_breakpoint_count
                                    (mk_state [mk_thread 100 4096] []) 100 nops) ->
             @debug_register amd64 sim_kernel sim_user nops 100 j <> 8192).
  { intros j Hj; exfalso; revert Hj; vm_compute; intros [H1 H2].
    destruct j; try discriminate; apply H1; reflexivity. }
  destruct (@register_then_unregister_hw_breakpoint amd64 sim_kernel sim_user
              sim_kernel_user (mk_state [mk_thread 100 4096] []) 100 8192
              (119, 0) 2 nops Hnew Hfree Haddr Hfront)
    as (Hstate & Hregs & _ & _ & _ & _ & Hdiff).
  split; [exact Hstate|split; [exact Hregs|]].
  split; [reflexivity|split; [reflexivity|]].
  apply Hdiff; reflexivity.
Defined.


(** *** Run/stop coordinator *)

Lemma singlestep_forwards_signal_witness :
  let out := singlestep pending_signal_state 100 nops in
  ptrace_requests (trace out)
  = [PTRACE_SETREGS 100 {| rip := 4096; rax := 0 |};
     PTRACE_SETREGS 101 {| rip := 4097; rax := 0 |};
     PTRACE_SINGLESTEP 100 10] /\
  snd (result out) = mk_state [mk_thread 100 4096; mk_thread 101 4097] [].
Proof.
  cbv zeta.
  assert (Hnd : NoDup (live_tids pending_signal_state))
    by (repeat (constructor; [simpl; lia|]); constructor).
  destruct (singlestep_forwards_signal pending_signal_state 100 nops Hnd)
    as (Hq & Hs & _).
  split; [exact Hq|exact Hs].
Defined.

Lemma step_until_unknown_thread_witness :
  let state := mk_state [mk_thread 100 4096; mk_thread 101 4097] [] in
  let out := step_until 3 state 7 4100 (-1) nops in
  result out = Some (-1, state) /\
  ptrace_requests (trace out) = map flush_request (t_HEAD state).
Proof.
  cbv zeta.
  apply (step_until_unknown_thread 3
           (mk_state [mk_thread 100 4096; mk_thread 101 4097] [])
           7 4100 (-1) nops).
  simpl; lia.
Defined.

Lemma step_until_unbounded_reaches_addr_witness :
  let state := mk_state [mk_thread 100 4096; mk_thread 101 4097] [] in
  let state' := mk_state [mk_thread 100 4099; mk_thread 101 4097] [] in
  result (step_until 5 state 100 4099 (-1) nops) = Some (0, state') /\
  exists i t, nth_error (t_HEAD state') i = Some t /\
              t_tid t = 100 /\
              INSTRUCTION_POINTER (t_regs t) = 4099 /\
              live_tids state' = live_tids state.
Proof.
  cbv zeta; split; [reflexivity|].
  apply (step_until_unbounded_reaches_addr 5
           (mk_state [mk_thread 100 4096; mk_thread 101 4097] [])
           (mk_state [mk_thread 100 4099; mk_thread 101 4097] [])
           100 4099 nops).
  reflexivity.
Defined.

End ConcreteRest.

Section ConcreteGroup.
#[local] Existing Instance amd64.

Lemma group_kernel_memory : @kernel_memory amd64 group_kernel group_mem.
Proof.
  split.
  - intros pid a w k x; reflexivity.
  - intros q k x Hq; destruct q; try contradiction; simpl;
      unfold group_mem, group_pass; simpl;
      try destruct (sim_stopped (g_sim k) tid); reflexivity.
Qed.


Lemma wait_all_and_update_regs_restores_witness :
  let state := two_threads_one_breakpoint in
  let out := @wait_all_and_update_regs amd64 group_kernel 5 state 100
               running_group in
  load_word (group_mem running_group) 4200 = int3_word /\
  load_word (group_mem (final out)) 4200 = nop_word.
Proof.
  cbv zeta; split; [reflexivity|].
  apply (@wait_all_and_update_regs_restores amd64 group_kernel group_mem
           group_kernel_memory 5 two_threads_one_breakpoint
           two_threads_one_breakpoint 100 running_group
           [ {| ts_tid := 101; ts_status := 4991 |};
             {| ts_tid := 100; ts_status := 1407 |} ]
           [] [] (mk_sw 4200 1)).
  - reflexivity.
  - reflexivity.
  - reflexivity.
  - vm_compute; split; [discriminate|reflexivity].
  - intros y [].
Defined.

End ConcreteGroup.
